(** * deepseek_export: the export routine of [deepseek_export.py]

    A shallow embedding of [sanitize_filename], [create_thread_folder],
    [find_json_file], [export_threads] and [main], and the properties of
    the export they support.

    Conventions of the embedding:
    - a Python [str] is the list of its Unicode code points ([pystr]);
      [len] is the list length;
    - the values [json.load] produces are the inductive type [value]; a
      [dict] is the list of its items in insertion order (its keys are
      pairwise distinct for a parsed document, which no result depends on);
    - an exception is a [Raise] result; files written before an exception
      stay written, so the file system is threaded through as a state;
    - a file is written one [write] at a time: [open] raises what the
      operating system decides for the path, a [write] raises
      [UnicodeEncodeError] for a text UTF-8 cannot encode, and the file
      keeps what was written before; a device that fails while a file is
      open (a full disk) is not modelled;
    - what the program takes from the interpreter, its libraries and the
      operating system (Unicode tables, [str()] of a value, the clock, date
      and float formatting, file sizes, the JSON parser) is a field of the
      record [runtime], over which every result is universally quantified;
    - [print] calls are left out: the console is taken to accept every
      text it is sent, and no property is about it; the standard input is
      the list of the lines [input] returns, and the user is taken not to
      interrupt the program. *)

From stdpp Require Import base strings list gmap.
From Stdlib Require Import ZArith NArith Lia DecimalNat DecimalFacts Sorted.

Local Open Scope Z_scope.
Set Warnings "-register-all".

(** ** Strings *)

Abbreviation char := N.
Abbreviation pystr := (list N).

(** An ASCII literal of the source as a list of code points. *)
Definition lit (s : string) : pystr :=
  map Ascii.N_of_ascii (String.list_ascii_of_string s).

Definition ch_space : char := 32%N.
Definition ch_dot : char := 46%N.
Definition ch_slash : char := 47%N.
Definition ch_underscore : char := 95%N.
Definition ch_newline : char := 10%N.

Definition py_len (s : pystr) : Z := Z.of_nat (length s).

(** [s.replace(old, new)] for a one-character [old]. *)
Definition str_replace (old : char) (new : pystr) (s : pystr) : pystr :=
  concat (map (fun c => if N.eqb c old then new else [c]) s).

(** [s[:k]]: a negative [k] counts from the end, and both ends clamp. *)
Definition slice_upto (s : pystr) (k : Z) : pystr :=
  if 0 <=? k then take (Z.to_nat k) s
  else take (Z.to_nat (py_len s + k)) s.

(** [s[k:]] for [0 <= k]. *)
Definition slice_from (s : pystr) (k : Z) : pystr := drop (Z.to_nat k) s.

(** [lstrip], [rstrip] and [strip] remove from the ends the characters a
    predicate accepts: membership in [chars] for [s.strip(chars)], being
    white space for [s.strip()]. *)
Fixpoint lstrip_by (drop : char -> bool) (s : pystr) : pystr :=
  match s with
  | [] => []
  | c :: rest => if drop c then lstrip_by drop rest else s
  end.

Definition rstrip_by (drop : char -> bool) (s : pystr) : pystr :=
  rev (lstrip_by drop (rev s)).

Definition strip_by (drop : char -> bool) (s : pystr) : pystr :=
  rstrip_by drop (lstrip_by drop s).

Definition strip (chars : list char) : pystr -> pystr :=
  strip_by (fun c => existsb (N.eqb c) chars).

(** ** sanitize_filename *)

(** The character class of the first [re.sub]: the characters
    < > : / \ | ? * and the double quote (code point 34). *)
Definition unsafe_chars : list char :=
  [60; 62; 58; 34; 47; 92; 124; 63; 42]%N.

Definition is_unsafe (c : char) : bool := existsb (N.eqb c) unsafe_chars.

Definition sub_unsafe (s : pystr) : pystr :=
  map (fun c => if is_unsafe c then ch_underscore else c) s.

(** The character class of [re.sub(r'[\x00-\x1f\x7f]', '', filename)]. *)
Definition is_control (c : char) : bool := (c <=? 31)%N || (c =? 127)%N.

Definition sub_control (s : pystr) : pystr :=
  List.filter (fun c => negb (is_control c)) s.

(** [re.sub(r'_+', '_', filename)]: every maximal run of underscores
    becomes one underscore (an underscore followed by another one is still
    inside its run and is dropped). *)
Fixpoint sub_underscores (s : pystr) : pystr :=
  match s with
  | [] => []
  | c :: rest =>
      if (c =? ch_underscore)%N then
        match rest with
        | d :: _ =>
            if (d =? ch_underscore)%N then sub_underscores rest
            else ch_underscore :: sub_underscores rest
        | [] => [ch_underscore]
        end
      else c :: sub_underscores rest
  end.

(** [p.rfind(c)]: the index of the last occurrence, or -1. *)
Fixpoint rfind_from (c : char) (p : pystr) (i last : Z) : Z :=
  match p with
  | [] => last
  | x :: rest => rfind_from c rest (i + 1) (if (x =? c)%N then i else last)
  end.

Definition rfind (c : char) (p : pystr) : Z := rfind_from c p 0 (-1).

(** [genericpath._splitext(p, sep, altsep, '.')], the body of
    [os.path.splitext]: the extension starts at the last dot, provided
    that dot comes after the last separator and some character between
    the two is not a dot. [seps] is ['/'] on POSIX and ['\\'; '/'] on
    Windows. *)
Definition splitext_with (seps : list char) (p : pystr) : pystr * pystr :=
  let sepIndex := fold_right Z.max (-1) (map (fun c => rfind c p) seps) in
  let dotIndex := rfind ch_dot p in
  if sepIndex <? dotIndex then
    let between :=
      take (Z.to_nat (dotIndex - (sepIndex + 1)))
           (drop (Z.to_nat (sepIndex + 1)) p) in
    if existsb (fun c => negb (c =? ch_dot)%N) between
    then (take (Z.to_nat dotIndex) p, drop (Z.to_nat dotIndex) p)
    else (p, [])
  else (p, []).

Definition splitext : pystr -> pystr * pystr := splitext_with [ch_slash].

Definition unnamed_thread : pystr := lit "unnamed_thread".

Definition sanitize_filename (filename : pystr) (replace_spaces : bool)
  : pystr :=
  let filename :=
    if replace_spaces then str_replace ch_space [ch_underscore] filename
    else filename in
  let filename := sub_unsafe filename in
  let filename := sub_control filename in
  let filename := strip [ch_dot; ch_underscore; ch_space] filename in
  let filename := sub_underscores filename in
  let filename :=
    if 200 <? py_len filename then
      let '(name, ext) := splitext filename in
      let name := slice_upto name (200 - py_len ext) in
      name ++ ext
    else filename in
  if bool_decide (filename = []) || bool_decide (filename = [ch_underscore])
  then unnamed_thread
  else filename.

(** ** Values, exceptions and the runtime *)

(** What [json.load] returns. A float is kept as its binary64 bit pattern:
    the program only ever tests one for truth. *)
Inductive value :=
| VNone
| VBool (b : bool)
| VInt (z : Z)
| VFloat (bits : Z)
| VStr (s : pystr)
| VList (l : list value)
| VDict (d : list (pystr * value)).

Inductive exn :=
| AttributeError
| TypeError
| ValueError
| OSError
| UnicodeEncodeError.

Inductive result (A : Type) :=
| Ok (a : A)
| Raise (e : exn).
Arguments Ok {A} a.
Arguments Raise {A} e.

Definition result_bind {A B} (r : result A) (k : A -> result B) : result B :=
  match r with
  | Ok a => k a
  | Raise e => Raise e
  end.

Notation "'do' x <- r ; k" := (result_bind r (fun x => k))
  (at level 10, x name, r at level 100, k at level 200).

(** A [for] loop whose body may raise, over an accumulator. *)
Fixpoint for_each {A S} (body : A -> S -> result S) (l : list A) (s : S)
  : result S :=
  match l with
  | [] => Ok s
  | x :: rest => do s' <- body x s; for_each body rest s'
  end.

(** The truth value of an object. *)
Definition py_truthy (v : value) : bool :=
  match v with
  | VNone => false
  | VBool b => b
  | VInt z => negb (z =? 0)
  | VFloat bits => negb (Z.land bits (2 ^ 63 - 1) =? 0)
  | VStr s => negb (bool_decide (s = []))
  | VList l => negb (bool_decide (length l = 0%nat))
  | VDict d => negb (bool_decide (length d = 0%nat))
  end.

Definition is_dict (v : value) : bool :=
  match v with
  | VDict _ => true
  | _ => false
  end.

(** [v == s] for a string literal [s]. *)
Definition eq_str (v : value) (s : pystr) : bool :=
  match v with
  | VStr t => bool_decide (t = s)
  | _ => false
  end.

Fixpoint dict_lookup (k : pystr) (d : list (pystr * value)) : option value :=
  match d with
  | [] => None
  | (k', v) :: rest => if bool_decide (k' = k) then Some v else dict_lookup k rest
  end.

(** [d.get(k, dflt)] *)
Definition dict_get (k : pystr) (d : list (pystr * value)) (dflt : value)
  : value :=
  default dflt (dict_lookup k d).

(** [mapping.items()]: only a dict has the method. *)
Definition py_items (v : value) : result (list (pystr * value)) :=
  match v with
  | VDict d => Ok d
  | _ => Raise AttributeError
  end.

(** The elements a [for] loop over [v] visits: those of a list, the
    one-character strings of a string, the keys of a dict; nothing else
    that [json.load] produces is iterable. *)
Definition py_iter (v : value) : result (list value) :=
  match v with
  | VList l => Ok l
  | VStr s => Ok (map (fun c => VStr [c]) s)
  | VDict d => Ok (map (fun kv => VStr kv.1) d)
  | _ => Raise TypeError
  end.

Inductive encoding := Utf8 | Utf8Sig.

(** How [open] followed by [json.load] ends: with the document, with one of
    the two exceptions the program names, or with another exception (all of
    them subclasses of [Exception]). *)
Inductive load_outcome :=
| Loaded (data : value)
| JSONDecodeError
| UnicodeDecodeError
| OtherLoadError (e : exn).

(** What the interpreter, its libraries and the operating system decide. *)
Record runtime := {
  (** the decimal value of a character of category Nd: [\d] matches
      exactly these characters, and [int] reads them *)
  decimal_digit : char -> option Z;
  (** the characters [str.strip()] removes *)
  is_space : char -> bool;
  (** [sys.get_int_max_str_digits()]; 0 disables the limit *)
  int_max_str_digits : nat;
  (** [str(v)] for a value that is not a string *)
  py_str : value -> pystr;
  (** [datetime.fromisoformat(s).strftime('%d.%m.%Y %H:%M:%S')], [None]
      when [fromisoformat] raises *)
  iso_to_german : pystr -> option pystr;
  (** the bytes a text occupies once written (encoding, newlines) *)
  stored_size : pystr -> N;
  (** [f'{b / 1024:.1f}'] for a number of bytes [b] *)
  fmt_kb : N -> pystr;
  (** [f'{b / 1024 / 1024:.2f}'] for a number of bytes [b] *)
  fmt_mb : N -> pystr;
  (** [f'{m / t:.1f}'] for integers [m] and [t > 0] *)
  fmt_ratio : nat -> nat -> pystr;
  (** [Path(p).stem]: the last component of the path without its last
      suffix, which holds no separator *)
  path_stem : pystr -> pystr;
  (** [datetime.now().strftime(...)] at the two places it is read *)
  now_folder : pystr;
  now_index : pystr;
  (** [open(path, encoding=...)] and [json.load] *)
  json_load : pystr -> encoding -> load_outcome;
  (** what [open(path, 'w')] and [open(path, 'a')] raise for a path, if
      anything: an [OSError] for a name the file system refuses, a missing
      directory or a missing permission, [UnicodeEncodeError] for a name
      the file system encoding has no bytes for *)
  open_error : pystr -> option exn;
  (** what [os.makedirs(path)] raises, if anything *)
  makedirs_error : pystr -> option exn
}.

(** A value inside an f-string. *)
Definition format_value (R : runtime) (v : value) : pystr :=
  match v with
  | VStr s => s
  | _ => py_str R v
  end.

(** ** Integers in f-strings *)

Fixpoint uint_chars (u : Decimal.uint) : pystr :=
  match u with
  | Decimal.Nil => []
  | Decimal.D0 u => 48%N :: uint_chars u
  | Decimal.D1 u => 49%N :: uint_chars u
  | Decimal.D2 u => 50%N :: uint_chars u
  | Decimal.D3 u => 51%N :: uint_chars u
  | Decimal.D4 u => 52%N :: uint_chars u
  | Decimal.D5 u => 53%N :: uint_chars u
  | Decimal.D6 u => 54%N :: uint_chars u
  | Decimal.D7 u => 55%N :: uint_chars u
  | Decimal.D8 u => 56%N :: uint_chars u
  | Decimal.D9 u => 57%N :: uint_chars u
  end.

(** [f'{n}'] for [0 <= n] *)
Definition dec (n : nat) : pystr := uint_chars (Nat.to_uint n).

(** [f'{n:03d}'] for [0 <= n] *)
Definition dec03 (n : nat) : pystr :=
  replicate (3 - length (dec n)) 48%N ++ dec n.

(** [f'{z}'] *)
Definition dec_int (z : Z) : pystr :=
  if z <? 0 then 45%N :: dec (Z.to_nat (- z)) else dec (Z.to_nat z).

(** ** Collecting the turns of a thread *)

(** An entry of [all_messages]: the key of the mapping entry, and the type
    and content of one fragment. The content is a string whenever an entry
    is appended. *)
Record msg := {
  msg_id : pystr;
  msg_type : value;
  msg_content : pystr
}.

Section ExportThreads.

Variable R : runtime.

(** The body of [for fragment in fragments]. *)
Definition add_fragment (msg_id : pystr) (fragment : value)
    (all_messages : list msg) : result (list msg) :=
  match fragment with
  | VDict f =>
      let msg_type := dict_get (lit "type") f (VStr []) in
      let content := dict_get (lit "content") f (VStr []) in
      if py_truthy content then
        match content with
        | VStr c =>
            if py_truthy (VStr (strip_by (is_space R) c))
            then Ok (all_messages ++
                     [{| msg_id := msg_id; msg_type := msg_type;
                         msg_content := c |}])
            else Ok all_messages
        | _ => Raise AttributeError
        end
      else Ok all_messages
  | _ => Ok all_messages
  end.

(** The body of [for msg_id, msg_data in mapping.items()]. *)
Definition add_entry (entry : pystr * value) (all_messages : list msg)
  : result (list msg) :=
  let '(msg_id, msg_data) := entry in
  match msg_data with
  | VDict md =>
      if bool_decide (msg_id = lit "root") then Ok all_messages
      else
        let message := dict_get (lit "message") md VNone in
        if negb (py_truthy message) then Ok all_messages
        else
          match message with
          | VDict m =>
              do fragments <- py_iter (dict_get (lit "fragments") m (VList []));
              for_each (add_fragment msg_id) fragments all_messages
          | _ => Ok all_messages
          end
  | _ => Ok all_messages
  end.

(** [all_messages] after the loop over [thread.get('mapping', {})]. *)
Definition extract_messages (thread : list (pystr * value))
  : result (list msg) :=
  do items <- py_items (dict_get (lit "mapping") thread (VDict []));
  for_each add_entry items [].

(** ** Sorting the turns *)

Definition is_digit (c : char) : bool :=
  match decimal_digit R c with
  | Some _ => true
  | None => false
  end.

(** [re.findall(r'\d+', s)]: the maximal runs of digits, left to right;
    [run] is the run being read, in reverse. *)
Fixpoint findall_digits_from (s : pystr) (run : pystr) : list pystr :=
  match s with
  | [] => match run with [] => [] | _ => [rev run] end
  | c :: rest =>
      if is_digit c then findall_digits_from rest (c :: run)
      else match run with
           | [] => findall_digits_from rest []
           | _ => rev run :: findall_digits_from rest []
           end
  end.

Definition findall_digits (s : pystr) : list pystr := findall_digits_from s [].

(** The integer a run of digits denotes. *)
Definition digits_value (run : pystr) : Z :=
  fold_left (fun acc c => 10 * acc + default 0 (decimal_digit R c)) run 0.

(** [int(run)] for a run of digits: CPython refuses a run longer than the
    limit on integer string conversion (which it only consults past 640
    digits; the limit is 4300 unless configured, and 0 disables it). *)
Definition py_int (run : pystr) : result Z :=
  let n := length run in
  if (640 <? n)%nat && (0 <? int_max_str_digits R)%nat
     && (int_max_str_digits R <? n)%nat
  then Raise ValueError
  else Ok (digits_value run).

(** A sort key: an integer, or [float('inf')]. *)
Inductive sort_key :=
| KInt (z : Z)
| KInf.

Definition key_lt (a b : sort_key) : bool :=
  match a, b with
  | KInt x, KInt y => x <? y
  | KInt _, KInf => true
  | KInf, _ => false
  end.

Definition extract_numeric_id (msg_id : pystr) : result sort_key :=
  match findall_digits msg_id with
  | [] => Ok KInf
  | first :: _ => do z <- py_int first; Ok (KInt z)
  end.

(** [list.sort(key=...)] first computes the key of every element, in
    order; when a key raises, the list is left as it was. *)
Fixpoint sort_keys (l : list msg) : result (list (sort_key * msg)) :=
  match l with
  | [] => Ok []
  | m :: rest =>
      do k <- extract_numeric_id (msg_id m);
      do ks <- sort_keys rest;
      Ok ((k, m) :: ks)
  end.

(** [list.sort] is stable and compares keys with [<] only: the result is
    the one stable arrangement in nondecreasing key order
    ([stable_sort_unique] below), built here by insertion from the right. *)
Fixpoint insert_keyed (x : sort_key * msg) (l : list (sort_key * msg))
  : list (sort_key * msg) :=
  match l with
  | [] => [x]
  | y :: rest =>
      if key_lt y.1 x.1 then y :: insert_keyed x rest else x :: y :: rest
  end.

Definition stable_sort (l : list (sort_key * msg)) : list (sort_key * msg) :=
  fold_right insert_keyed [] l.

(** The [try: all_messages.sort(...) except: pass] block. *)
Definition sort_messages (all_messages : list msg) : list msg :=
  match sort_keys all_messages with
  | Ok keyed => map snd (stable_sort keyed)
  | Raise _ => all_messages
  end.

(** ** Rendering the turns *)

Definition user_heading : pystr := lit "### " ++ [128100%N] ++ lit " Sie" ++ [10; 10]%N.
Definition assistant_heading : pystr :=
  lit "### " ++ [129302%N] ++ lit " DeepSeek" ++ [10; 10]%N.

Definition heading (m : msg) : pystr :=
  if eq_str (msg_type m) (lit "REQUEST") then user_heading
  else if eq_str (msg_type m) (lit "RESPONSE") then assistant_heading
  else lit "### " ++ format_value R (msg_type m) ++ [10; 10]%N.

Definition render_turn (m : msg) : pystr :=
  heading m ++ msg_content m ++ [10; 10]%N.

(** [max_messages_per_file and i >= max_messages_per_file] *)
Definition message_limit_hit (max_messages_per_file : option Z) (i : nat)
  : bool :=
  match max_messages_per_file with
  | Some m => negb (m =? 0) && (m <=? Z.of_nat i)
  | None => false
  end.

Definition truncation_note (m : Z) (n_all : nat) : pystr :=
  [10%N] ++ lit "> *Hinweis: " ++ dec_int (Z.of_nat n_all - m)
  ++ lit " weitere Nachrichten gek" ++ [252%N] ++ lit "rzt.*" ++ [10%N].

(** The loop [for i, msg in enumerate(all_messages)] from position [i] on:
    the text it writes and the number of turns it counts. *)
Fixpoint write_turns (max_messages_per_file : option Z) (n_all : nat)
    (i : nat) (msgs : list msg) : pystr * nat :=
  match msgs with
  | [] => ([], 0%nat)
  | m :: rest =>
      if message_limit_hit max_messages_per_file i then
        (truncation_note (default 0 max_messages_per_file) n_all, 0%nat)
      else
        let '(text, n) := write_turns max_messages_per_file n_all (S i) rest in
        (render_turn m ++ text, S n)
  end.

(** The same loop, one element per [out.write]: the heading and the
    content of a turn are written one after the other. *)
Fixpoint turn_writes (max_messages_per_file : option Z) (n_all : nat)
    (i : nat) (msgs : list msg) : list pystr * nat :=
  match msgs with
  | [] => ([], 0%nat)
  | m :: rest =>
      if message_limit_hit max_messages_per_file i then
        ([truncation_note (default 0 max_messages_per_file) n_all], 0%nat)
      else
        let '(chunks, n) :=
          turn_writes max_messages_per_file n_all (S i) rest in
        (heading m :: (msg_content m ++ [10; 10]%N) :: chunks, S n)
  end.

(** ** The file system *)

(** The directories that exist and the text files with their contents, by
    path. A file holds exactly the text written to it. *)
Record world := {
  dirs : gset pystr;
  files : gmap pystr pystr
}.

(** [os.path.exists] *)
Definition path_exists (p : pystr) (w : world) : bool :=
  bool_decide (p ∈ dirs w) || bool_decide (is_Some (files w !! p)).

(** The file system after [os.makedirs(p)] has made the directory [p],
    for a name [p] without a separator: the only names the program passes,
    as neither [Path(...).stem] nor the time stamp holds one. *)
Definition makedirs (p : pystr) (w : world) : world :=
  {| dirs := {[p]} ∪ dirs w; files := files w |}.

(** The file system after the file [p], opened with [open(p, 'w')], has
    been closed with the text [text] written to it. *)
Definition write_file (p text : pystr) (w : world) : world :=
  {| dirs := dirs w; files := <[p := text]> (files w) |}.

(** The same for [open(p, 'a')]. *)
Definition append_file (p text : pystr) (w : world) : world :=
  {| dirs := dirs w;
     files := <[p := default [] (files w !! p) ++ text]> (files w) |}.

(** The codec [utf-8] encodes every code point of a [str] but the
    surrogates, U+D800 to U+DFFF. *)
Definition utf8_encodable (text : pystr) : bool :=
  forallb (fun c => negb ((55296 <=? c) && (c <=? 57343))%N) text.

(** [out.write(chunk)] for each chunk of [chunks] in turn, on a file
    opened with [encoding='utf-8']: the text the file has received when
    the [with] block is left, and the exception of the first [write]
    whose chunk cannot be encoded, which writes nothing. *)
Fixpoint write_all (chunks : list pystr) : pystr * option exn :=
  match chunks with
  | [] => ([], None)
  | chunk :: rest =>
      if utf8_encodable chunk then
        let '(text, failed) := write_all rest in (chunk ++ text, failed)
      else ([], Some UnicodeEncodeError)
  end.

(** [with open(p, 'w', encoding='utf-8') as out], with one [out.write]
    for each chunk of [chunks]. *)
Definition write_lines (p : pystr) (chunks : list pystr) (w : world)
  : option exn * world :=
  match open_error R p with
  | Some e => (Some e, w)
  | None =>
      let '(text, failed) := write_all chunks in (failed, write_file p text w)
  end.

(** The same for [open(p, 'a', encoding='utf-8')]. *)
Definition append_lines (p : pystr) (chunks : list pystr) (w : world)
  : option exn * world :=
  match open_error R p with
  | Some e => (Some e, w)
  | None =>
      let '(text, failed) := write_all chunks in (failed, append_file p text w)
  end.

(** [os.path.getsize] *)
Definition getsize (p : pystr) (w : world) : result N :=
  match files w !! p with
  | Some text => Ok (stored_size R text)
  | None => Raise OSError
  end.

(** [os.path.join(a, b)] of [posixpath]. *)
Definition path_join (a b : pystr) : pystr :=
  match b with
  | c :: _ =>
      if (c =? ch_slash)%N then b
      else match last a with
           | None => b
           | Some e => if (e =? ch_slash)%N then a ++ b else a ++ [ch_slash] ++ b
           end
  | [] =>
      match last a with
      | None => []
      | Some e => if (e =? ch_slash)%N then a else a ++ [ch_slash]
      end
  end.

Definition create_thread_folder (base_folder : pystr) (w : world)
  : result pystr * world :=
  let folder_name := base_folder ++ [ch_underscore] ++ now_folder R in
  if path_exists folder_name w then (Ok folder_name, w)
  else
    match makedirs_error R folder_name with
    | Some e => (Raise e, w)
    | None => (Ok folder_name, makedirs folder_name w)
    end.

(** ** One thread *)

(** A row of [stats]. [st_size] is the size of the file in bytes: the
    program keeps [size / 1024] as a float, which is exact (as are the sums
    of such values) below 2^53 bytes. *)
Record stat := {
  st_idx : nat;
  st_filename : pystr;
  st_title : pystr;
  st_messages : nat;
  st_size : N
}.

(** The counters and the list the loop over the threads updates. *)
Record totals := {
  total_threads : nat;
  total_messages : nat;
  stats : list stat
}.

Definition index_name : pystr := lit "00_INDEX.md".

(** [f'{thread_idx:03d}_{safe_title}.md'] *)
Definition thread_filename (thread_idx : nat) (safe_title : pystr) : pystr :=
  dec03 thread_idx ++ [ch_underscore] ++ safe_title ++ lit ".md".

(** The [Erstellt] line: the formatted date, or the raw value when
    formatting raises (for a value that is not a string, [replace] does).
    The formatted date is made of digits, dots, colons and a blank, so
    that its [write] does not raise. *)
Definition created_line (inserted_at : value) : pystr :=
  if py_truthy inserted_at then
    let shown :=
      match inserted_at with
      | VStr s =>
          match iso_to_german R (str_replace 90%N (lit "+00:00") s) with
          | Some formatted => formatted
          | None => s
          end
      | _ => format_value R inserted_at
      end in
    lit "- Erstellt: " ++ shown ++ [10%N]
  else [].

(** What is written to the thread file before the turns are collected. *)
Definition thread_header (title : pystr) (thread_id inserted_at : value)
    (filename : pystr) : pystr :=
  lit "# " ++ title ++ [10; 10]%N
  ++ lit "**Metadaten:**" ++ [10%N]
  ++ lit "- Thread-ID: `" ++ format_value R thread_id ++ lit "`" ++ [10%N]
  ++ created_line inserted_at
  ++ lit "- Datei: `" ++ filename ++ lit "`" ++ [10%N]
  ++ [10%N] ++ lit "---" ++ [10; 10]%N.

(** The same, one element per [out.write]. *)
Definition thread_header_lines (title : pystr) (thread_id inserted_at : value)
    (filename : pystr) : list pystr :=
  [ lit "# " ++ title ++ [10; 10]%N;
    lit "**Metadaten:**" ++ [10%N];
    lit "- Thread-ID: `" ++ format_value R thread_id ++ lit "`" ++ [10%N] ]
  ++ (if py_truthy inserted_at then [created_line inserted_at] else [])
  ++ [ lit "- Datei: `" ++ filename ++ lit "`" ++ [10%N];
       [10%N] ++ lit "---" ++ [10; 10]%N ].

Definition chat_heading : pystr := lit "## Chat-Verlauf" ++ [10; 10]%N.

Definition thread_footer (thread_messages : nat) : pystr :=
  lit "---" ++ [10; 10]%N
  ++ lit "**Statistik:** " ++ dec thread_messages ++ lit " Nachrichten" ++ [10%N].

Definition thread_footer_lines (thread_messages : nat) : list pystr :=
  [ lit "---" ++ [10; 10]%N;
    lit "**Statistik:** " ++ dec thread_messages ++ lit " Nachrichten"
    ++ [10%N] ].

Definition index_row (s : stat) : pystr :=
  lit "| " ++ dec (st_idx s)
  ++ lit " | [" ++ st_filename s ++ lit "](./" ++ st_filename s
  ++ lit ") | " ++ st_title s
  ++ lit " | " ++ dec (st_messages s)
  ++ lit " | " ++ fmt_kb R (st_size s) ++ lit " KB |" ++ [10%N].

(** [sanitize_filename(title, replace_spaces=True)] on whatever the thread
    holds as its title: only a string has [replace]. *)
Definition sanitize_title (title : value) : result (pystr * pystr) :=
  match title with
  | VStr t => Ok (t, sanitize_filename t true)
  | _ => Raise AttributeError
  end.

(** [max_threads and thread_idx > max_threads] *)
Definition thread_limit_hit (max_threads : option Z) (thread_idx : nat)
  : bool :=
  match max_threads with
  | Some m => negb (m =? 0) && (m <? Z.of_nat thread_idx)
  | None => false
  end.

(** How one pass through the body of the loop over the threads ends. *)
Inductive step_end :=
| Next (t : totals)
| Break
| Abort (e : exn).

Definition thread_step (folder : pystr)
    (max_threads max_messages_per_file : option Z)
    (thread_idx : nat) (thread : value) (t : totals) (w : world)
  : step_end * world :=
  if thread_limit_hit max_threads thread_idx then (Break, w)
  else
    match thread with
    | VDict th =>
        let thread_id := dict_get (lit "id") th (VStr []) in
        let title :=
          dict_get (lit "title") th (VStr (lit "Thread_" ++ dec thread_idx)) in
        let inserted_at := dict_get (lit "inserted_at") th (VStr []) in
        match sanitize_title title with
        | Raise e => (Abort e, w)
        | Ok (title, safe_title) =>
            let filename := thread_filename thread_idx safe_title in
            let filepath := path_join folder filename in
            match open_error R filepath with
            | Some e => (Abort e, w)
            | None =>
                let '(header, failed) :=
                  write_all (thread_header_lines title thread_id inserted_at
                                                 filename) in
                match failed with
                | Some e => (Abort e, write_file filepath header w)
                | None =>
                    match extract_messages th with
                    | Raise e => (Abort e, write_file filepath header w)
                    | Ok all_messages =>
                        let all_messages := sort_messages all_messages in
                        let '(turns, thread_messages) :=
                          turn_writes max_messages_per_file
                                      (length all_messages) 0 all_messages in
                        let '(body, failed) :=
                          write_all (chat_heading :: turns
                                     ++ thread_footer_lines thread_messages) in
                        let w := write_file filepath (header ++ body) w in
                        match failed with
                        | Some e => (Abort e, w)
                        | None =>
                            match getsize filepath w with
                            | Raise e => (Abort e, w)
                            | Ok size =>
                                let row :=
                                  {| st_idx := thread_idx;
                                     st_filename := filename;
                                     st_title := title;
                                     st_messages := thread_messages;
                                     st_size := size |} in
                                match append_lines
                                        (path_join folder index_name)
                                        [index_row row] w with
                                | (Some e, w) => (Abort e, w)
                                | (None, w) =>
                                    (Next {| total_threads :=
                                               S (total_threads t);
                                             total_messages :=
                                               (total_messages t
                                                + thread_messages)%nat;
                                             stats := stats t ++ [row] |},
                                     w)
                                end
                            end
                        end
                    end
                end
            end
        end
    | _ => (Next t, w)
    end.

(** [for thread_idx, thread in enumerate(data, 1)], from [thread_idx] on. *)
Fixpoint process_threads (folder : pystr)
    (max_threads max_messages_per_file : option Z)
    (thread_idx : nat) (data : list value) (t : totals) (w : world)
  : result totals * world :=
  match data with
  | [] => (Ok t, w)
  | thread :: rest =>
      match thread_step folder max_threads max_messages_per_file
                        thread_idx thread t w with
      | (Next t', w') =>
          process_threads folder max_threads max_messages_per_file
                          (S thread_idx) rest t' w'
      | (Break, w') => (Ok t, w')
      | (Abort e, w') => (Raise e, w')
      end
  end.

(** ** The index and the whole export *)

Definition index_header (input_file : pystr) (n_threads : nat) : pystr :=
  lit "# DeepSeek Chat Export" ++ [10; 10]%N
  ++ lit "**Quelldatei:** `" ++ input_file ++ lit "`" ++ [10%N]
  ++ lit "**Export-Datum:** " ++ now_index R ++ [10%N]
  ++ lit "**Anzahl Threads:** " ++ dec n_threads ++ [10; 10]%N
  ++ lit "## Thread-" ++ [220%N] ++ lit "bersicht" ++ [10; 10]%N
  ++ lit "| Nr. | Datei | Titel | Nachrichten | Gr" ++ [246; 223]%N
  ++ lit "e |" ++ [10%N]
  ++ lit "|-----|-------|-------|-------------|-------|" ++ [10%N].

(** The same, one element per [index.write]. *)
Definition index_header_lines (input_file : pystr) (n_threads : nat)
  : list pystr :=
  [ lit "# DeepSeek Chat Export" ++ [10; 10]%N;
    lit "**Quelldatei:** `" ++ input_file ++ lit "`" ++ [10%N];
    lit "**Export-Datum:** " ++ now_index R ++ [10%N];
    lit "**Anzahl Threads:** " ++ dec n_threads ++ [10; 10]%N;
    lit "## Thread-" ++ [220%N] ++ lit "bersicht" ++ [10; 10]%N;
    lit "| Nr. | Datei | Titel | Nachrichten | Gr" ++ [246; 223]%N
    ++ lit "e |" ++ [10%N];
    lit "|-----|-------|-------|-------------|-------|" ++ [10%N] ].

(** [max(stats, key=...)] and [min(stats, key=...)] on the sizes, for a
    list that starts with [first]: the first of the largest, and the first
    of the smallest. *)
Definition largest_of (first : stat) (rest : list stat) : stat :=
  fold_left (fun best s => if (st_size best <? st_size s)%N then s else best)
            rest first.

Definition smallest_of (first : stat) (rest : list stat) : stat :=
  fold_left (fun best s => if (st_size s <? st_size best)%N then s else best)
            rest first.

(** [sum(stat['size_kb'] for stat in stats)], in bytes. *)
Definition total_size (l : list stat) : N :=
  fold_left (fun acc s => (acc + st_size s)%N) l 0%N.

Definition extreme_line (label : pystr) (s : stat) : pystr :=
  lit "- **" ++ label ++ lit " Datei:** " ++ st_filename s
  ++ lit " (" ++ fmt_kb R (st_size s) ++ lit " KB)" ++ [10%N].

Definition largest_label : pystr := lit "Gr" ++ [246; 223]%N ++ lit "te".
Definition smallest_label : pystr := lit "Kleinste".

(** The writes that complete the index, one element per [index.write]. *)
Definition index_footer_lines (folder : pystr) (t : totals) : list pystr :=
  [ [10%N] ++ lit "## Gesamtstatistik" ++ [10%N];
    lit "- **Exportierte Threads:** " ++ dec (total_threads t) ++ [10%N];
    lit "- **Gesamtnachrichten:** " ++ dec (total_messages t) ++ [10%N] ]
  ++ (if (0 <? total_threads t)%nat
      then [ lit "- **Durchschnitt pro Thread:** "
             ++ fmt_ratio R (total_messages t) (total_threads t)
             ++ lit " Nachrichten" ++ [10%N] ]
      else [])
  ++ [ lit "- **Gesamtgr" ++ [246; 223]%N ++ lit "e:** "
       ++ fmt_mb R (total_size (stats t)) ++ lit " MB" ++ [10%N] ]
  ++ match stats t with
     | [] => []
     | first :: rest =>
         [ extreme_line largest_label (largest_of first rest);
           extreme_line smallest_label (smallest_of first rest) ]
     end
  ++ [ [10%N] ++ lit "**Ordner:** `" ++ folder ++ lit "`" ++ [10%N];
       lit "**Index:** [00_INDEX.md](./00_INDEX.md)" ++ [10%N] ].

Definition index_footer (folder : pystr) (t : totals) : pystr :=
  concat (index_footer_lines folder t).

(** The [try] block around [json.load]: [Ok None] stands for the two
    [return None]. *)
Definition load_input (input_file : pystr) : result (option value) :=
  match json_load R input_file Utf8 with
  | Loaded data => Ok (Some data)
  | JSONDecodeError => Ok None
  | UnicodeDecodeError =>
      match json_load R input_file Utf8Sig with
      | Loaded data => Ok (Some data)
      | _ => Ok None
      end
  | OtherLoadError e => Raise e
  end.

Definition no_totals : totals :=
  {| total_threads := 0; total_messages := 0; stats := [] |}.

(** [export_threads]: the value returned ([None] or the folder) or the
    exception raised, and the file system left behind. *)
Definition export_threads (input_file : pystr)
    (max_threads max_messages_per_file : option Z) (w : world)
  : result (option pystr) * world :=
  match load_input input_file with
  | Raise e => (Raise e, w)
  | Ok None => (Ok None, w)
  | Ok (Some data) =>
      let input_name := path_stem R input_file in
      match create_thread_folder (lit "deepseek_" ++ input_name) w with
      | (Raise e, w) => (Raise e, w)
      | (Ok folder, w) =>
          let index_file := path_join folder index_name in
          let n_threads :=
            match data with VList l => length l | _ => 1%nat end in
          match write_lines index_file
                            (index_header_lines input_file n_threads) w with
          | (Some e, w) => (Raise e, w)
          | (None, w) =>
              let data := match data with VList l => l | _ => [data] end in
              match process_threads folder max_threads max_messages_per_file
                                    1 data no_totals w with
              | (Raise e, w) => (Raise e, w)
              | (Ok t, w) =>
                  match append_lines index_file
                                     (index_footer_lines folder t) w with
                  | (Some e, w) => (Raise e, w)
                  | (None, w) => (Ok (Some folder), w)
                  end
              end
          end
      end
  end.

End ExportThreads.

(** ** A runtime for the examples

    CPython with its default settings, on the characters and values the
    examples below use: the ASCII digits, the white space of [str.isspace],
    the default limit of 4300 digits, [str] of [None], booleans and
    integers, one byte per character of ASCII text, a file system that
    takes every name. The fields the examples do not reach (dates, floats,
    the clock, the parser) hold fixed stand-ins. *)

Definition ascii_digit (c : char) : option Z :=
  if (48 <=? c)%N && (c <=? 57)%N then Some (Z.of_N c - 48) else None.

Definition unicode_space (c : char) : bool :=
  ((9 <=? c) && (c <=? 13) || (28 <=? c) && (c <=? 32)
   || (c =? 133) || (c =? 160) || (c =? 5760)
   || (8192 <=? c) && (c <=? 8202)
   || (c =? 8232) || (c =? 8233) || (c =? 8239) || (c =? 8287)
   || (c =? 12288))%N.

Definition simple_str (v : value) : pystr :=
  match v with
  | VNone => lit "None"
  | VBool true => lit "True"
  | VBool false => lit "False"
  | VInt z => dec_int z
  | VStr s => s
  | _ => lit "?"
  end.

Definition example_runtime (parsed : load_outcome) : runtime :=
  {| decimal_digit := ascii_digit;
     is_space := unicode_space;
     int_max_str_digits := 4300;
     py_str := simple_str;
     iso_to_german := fun _ => None;
     stored_size := fun text => N.of_nat (length text);
     fmt_kb := fun b => dec (N.to_nat (b / 1024)) ++ lit ".x";
     fmt_mb := fun b => dec (N.to_nat (b / 1048576)) ++ lit ".xx";
     fmt_ratio := fun m t => dec (m / t) ++ lit ".x";
     path_stem := fun p => (splitext p).1;
     now_folder := lit "20250101_120000";
     now_index := lit "01.01.2025 12:00:00";
     json_load := fun _ _ => parsed;
     open_error := fun _ => None;
     makedirs_error := fun _ => None |}.

Definition empty_world : world := {| dirs := ∅; files := ∅ |}.
(** ** Vocabulary of the properties *)

(** The first five steps of [sanitize_filename], before the length is
    looked at. *)
Definition cleaned_name (filename : pystr) (replace_spaces : bool) : pystr :=
  sub_underscores
    (strip [ch_dot; ch_underscore; ch_space]
       (sub_control
          (sub_unsafe
             (if replace_spaces
              then str_replace ch_space [ch_underscore] filename
              else filename)))).

(** Its sixth step, the cut to 200 characters. *)
Definition truncated_name (cleaned : pystr) : pystr :=
  if 200 <? py_len cleaned then
    slice_upto (splitext cleaned).1 (200 - py_len (splitext cleaned).2)
    ++ (splitext cleaned).2
  else cleaned.

(** No underscore is followed by another one. *)
Fixpoint no_double_underscore (s : pystr) : Prop :=
  match s with
  | [] => True
  | c :: rest =>
      ~ (c = ch_underscore /\ head rest = Some ch_underscore)
      /\ no_double_underscore rest
  end.

(** What [sanitize_filename] guarantees of every character it returns. *)
Definition clean_char (c : char) : bool :=
  negb (is_unsafe c) && negb (is_control c) && negb (c =? ch_space)%N.

(** The turns the loop over [all_messages] renders from position [i] on,
    before the limit on messages stops it. *)
Definition turns_from (max_messages_per_file : option Z) (i : nat)
    (msgs : list msg) : list msg :=
  match max_messages_per_file with
  | Some m => if m =? 0 then msgs else take (Z.to_nat (m - Z.of_nat i)) msgs
  | None => msgs
  end.

Definition turns_written (max_messages_per_file : option Z)
  : list msg -> list msg :=
  turns_from max_messages_per_file 0.

(** A runtime with CPython's defaults, whatever the input file holds. *)
Definition plain_runtime : runtime := example_runtime (Loaded (VList [])).

Definition text_fragment (type content : string) : value :=
  VDict [(lit "type", VStr (lit type)); (lit "content", VStr (lit content))].

Definition mapping_entry (key : pystr) (fragments : list value)
  : pystr * value :=
  (key, VDict [(lit "message", VDict [(lit "fragments", VList fragments)])]).

(** A thread with one turn, of the type DeepSeek gives the model's
    reasoning. *)
Definition think_thread : list (pystr * value) :=
  [(lit "id", VStr (lit "t1"));
   (lit "title", VStr (lit "Plan"));
   (lit "mapping",
    VDict [mapping_entry (lit "1") [text_fragment "THINK" "hm"]])].

(** The id of a message key: the integer its first run of digits denotes,
    or infinity when it holds no digit. This is the key [list.sort] gets
    whenever [int] accepts the run. *)
Definition numeric_id (R : runtime) (msg_id : pystr) : sort_key :=
  match findall_digits R msg_id with
  | [] => KInf
  | first :: _ => KInt (digits_value R first)
  end.

Definition key_le (a b : sort_key) : Prop := key_lt b a = false.

Definition key_eqb (a b : sort_key) : bool :=
  match a, b with
  | KInt x, KInt y => x =? y
  | KInf, KInf => true
  | _, _ => false
  end.

(** The turns whose key has the id [k]. *)
Definition with_id (R : runtime) (k : sort_key) (msgs : list msg) : list msg :=
  List.filter (fun m => key_eqb (numeric_id R (msg_id m)) k) msgs.

(** [int] refuses the first run of digits of the key. *)
Definition id_refused (R : runtime) (msg_id : pystr) : Prop :=
  extract_numeric_id R msg_id = Raise ValueError.

Definition starts_without_digit (R : runtime) (s : pystr) : Prop :=
  match s with
  | [] => True
  | c :: _ => is_digit R c = false
  end.

(** [run] is the first maximal run of digits of [s]. *)
Definition first_digit_run (R : runtime) (s run : pystr) : Prop :=
  exists pre post,
    s = pre ++ run ++ post
    /\ Forall (fun c => is_digit R c = false) pre
    /\ run <> []
    /\ Forall (fun c => is_digit R c = true) run
    /\ starts_without_digit R post.

(** The order of the keyed list: by the keys alone. *)
Definition keyed_le (a b : sort_key * msg) : Prop := key_le a.1 b.1.

(** The keys [list.sort] computes, when [int] refuses none. *)
Definition keyed (R : runtime) (msgs : list msg) : list (sort_key * msg) :=
  map (fun m => (numeric_id R (msg_id m), m)) msgs.

(** The order of the turns: by the ids of their keys. *)
Definition by_id (R : runtime) (a b : msg) : Prop :=
  key_le (numeric_id R (msg_id a)) (numeric_id R (msg_id b)).

Definition turn (key type content : string) : msg :=
  {| msg_id := lit key; msg_type := VStr (lit type);
     msg_content := lit content |}.

(** Three turns in mapping order, every key within the limit of [int]. *)
Definition sample_turns : list msg :=
  [turn "msg-10" "RESPONSE" "c"; turn "2" "RESPONSE" "b";
   turn "note" "THINK" "d"; turn "1" "REQUEST" "a"; turn "x2y9" "THINK" "e"].

(** A key of 4301 digits, one more than [int] converts by default. *)
Definition overlong_key : pystr := replicate 4301 49%N.

(** A thread whose mapping lists the keys 2, 1 and [overlong_key]. *)
Definition overlong_thread : list (pystr * value) :=
  [(lit "mapping",
    VDict [mapping_entry (lit "2") [text_fragment "RESPONSE" "b"];
           mapping_entry (lit "1") [text_fragment "REQUEST" "a"];
           mapping_entry overlong_key [text_fragment "RESPONSE" "c"]])].

Definition overlong_turns : list msg :=
  [turn "2" "RESPONSE" "b"; turn "1" "REQUEST" "a";
   {| msg_id := overlong_key; msg_type := VStr (lit "RESPONSE");
      msg_content := lit "c" |}].

(** [thread.get('title', f'Thread_{thread_idx}')] *)
Definition thread_title (thread_idx : nat) (th : list (pystr * value)) : value :=
  dict_get (lit "title") th (VStr (lit "Thread_" ++ dec thread_idx)).

(** The turns of a thread that reach its file: collected from the mapping
    [msgs], sorted, and cut at the limit. *)
Definition thread_turns (R : runtime) (max_messages_per_file : option Z)
    (msgs : list msg) : list msg :=
  turns_written max_messages_per_file (sort_messages R msgs).

(** The note the loop over the turns leaves when the limit stops it. *)
Definition thread_note (R : runtime) (max_messages_per_file : option Z)
    (msgs : list msg) : pystr :=
  if decide (length (thread_turns R max_messages_per_file msgs)
             < length (sort_messages R msgs))%nat
  then truncation_note (default 0 max_messages_per_file)
                       (length (sort_messages R msgs))
  else [].

(** The Markdown file of the thread [th] at position [thread_idx], whose
    title is the string [title] and whose mapping yields the turns [msgs]. *)
Definition thread_document (R : runtime) (max_messages_per_file : option Z)
    (thread_idx : nat) (th : list (pystr * value)) (title : pystr)
    (msgs : list msg) : pystr :=
  thread_header R title
    (dict_get (lit "id") th (VStr []))
    (dict_get (lit "inserted_at") th (VStr []))
    (thread_filename thread_idx (sanitize_filename title true))
  ++ chat_heading
  ++ (concat (map (render_turn R) (thread_turns R max_messages_per_file msgs))
      ++ thread_note R max_messages_per_file msgs)
  ++ thread_footer (length (thread_turns R max_messages_per_file msgs)).

(** Its row of [stats]. *)
Definition thread_row (R : runtime) (max_messages_per_file : option Z)
    (thread_idx : nat) (th : list (pystr * value)) (title : pystr)
    (msgs : list msg) : stat :=
  {| st_idx := thread_idx;
     st_filename := thread_filename thread_idx (sanitize_filename title true);
     st_title := title;
     st_messages := length (thread_turns R max_messages_per_file msgs);
     st_size :=
       stored_size R
         (thread_document R max_messages_per_file thread_idx th title msgs) |}.

(** The file system takes the file of the thread and its row of the
    index: the file can be opened and so can the index, and UTF-8 encodes
    the text of both. *)
Definition thread_written (R : runtime) (folder : pystr)
    (max_messages_per_file : option Z) (thread_idx : nat)
    (th : list (pystr * value)) (title : pystr) (msgs : list msg) : Prop :=
  let row := thread_row R max_messages_per_file thread_idx th title msgs in
  open_error R (path_join folder (st_filename row)) = None
  /\ utf8_encodable
       (thread_document R max_messages_per_file thread_idx th title msgs)
     = true
  /\ open_error R (path_join folder index_name) = None
  /\ utf8_encodable (index_row R row) = true.

Definition add_row (t : totals) (row : stat) : totals :=
  {| total_threads := S (total_threads t);
     total_messages := (total_messages t + st_messages row)%nat;
     stats := stats t ++ [row] |}.

Definition sum_messages (rows : list stat) : nat :=
  foldr (fun s acc => (st_messages s + acc)%nat) 0%nat rows.

Definition sum_sizes (rows : list stat) : N :=
  foldr (fun s acc => (st_size s + acc)%N) 0%N rows.

(** A completed pass of the loop over the threads from position
    [thread_idx]: the rows it adds to [stats], and the file system before
    and after. *)
Inductive exports (R : runtime) (folder : pystr)
    (max_threads max_messages_per_file : option Z)
  : nat -> list value -> world -> list stat -> world -> Prop :=
| exports_end thread_idx w :
    exports R folder max_threads max_messages_per_file thread_idx [] w [] w
| exports_break thread_idx thread rest w :
    thread_limit_hit max_threads thread_idx = true ->
    exports R folder max_threads max_messages_per_file
            thread_idx (thread :: rest) w [] w
| exports_skip thread_idx thread rest w rows w' :
    thread_limit_hit max_threads thread_idx = false ->
    is_dict thread = false ->
    exports R folder max_threads max_messages_per_file
            (S thread_idx) rest w rows w' ->
    exports R folder max_threads max_messages_per_file
            thread_idx (thread :: rest) w rows w'
| exports_thread thread_idx th rest w title msgs rows w' :
    thread_limit_hit max_threads thread_idx = false ->
    thread_title thread_idx th = VStr title ->
    extract_messages R th = Ok msgs ->
    let row := thread_row R max_messages_per_file thread_idx th title msgs in
    exports R folder max_threads max_messages_per_file (S thread_idx) rest
      (append_file (path_join folder index_name) (index_row R row)
         (write_file (path_join folder (st_filename row))
            (thread_document R max_messages_per_file thread_idx th title msgs)
            w))
      rows w' ->
    exports R folder max_threads max_messages_per_file
            thread_idx (VDict th :: rest) w (row :: rows) w'.

Definition is_ascii_digit (c : char) : bool := (48 <=? c)%N && (c <=? 57)%N.

(** The digits a string starts with. *)
Fixpoint leading_digits (s : pystr) : pystr :=
  match s with
  | [] => []
  | c :: rest => if is_ascii_digit c then c :: leading_digits rest else []
  end.

(** The number a string of ASCII digits denotes, as [Decimal.uint]. *)
Fixpoint chars_uint (s : pystr) : Decimal.uint :=
  match s with
  | [] => Decimal.Nil
  | c :: rest =>
      let u := chars_uint rest in
      match c with
      | 48 => Decimal.D0 u | 49 => Decimal.D1 u | 50 => Decimal.D2 u
      | 51 => Decimal.D3 u | 52 => Decimal.D4 u | 53 => Decimal.D5 u
      | 54 => Decimal.D6 u | 55 => Decimal.D7 u | 56 => Decimal.D8 u
      | 57 => Decimal.D9 u | _ => Decimal.Nil
      end%N
  end.

(** What [os.path.join] puts before a relative name. *)
Definition join_prefix (a : pystr) : pystr :=
  match last a with
  | None => []
  | Some e => if (e =? ch_slash)%N then a else a ++ [ch_slash]
  end.

(** The row [s] is the row of a thread of [data], a list that starts at
    position [first_idx]: the thread is an object with a string title, its
    turns can be collected, and [s] is what [thread_row] makes of it. *)
Definition row_of (R : runtime) (max_threads max_messages_per_file : option Z)
    (first_idx : nat) (data : list value) (s : stat) : Prop :=
  exists th title msgs,
    (first_idx <= st_idx s)%nat
    /\ data !! (st_idx s - first_idx)%nat = Some (VDict th)
    /\ thread_limit_hit max_threads (st_idx s) = false
    /\ thread_title (st_idx s) th = VStr title
    /\ extract_messages R th = Ok msgs
    /\ s = thread_row R max_messages_per_file (st_idx s) th title msgs.

(** The file of the row [s] holds the document of its thread. *)
Definition row_file (R : runtime) (max_messages_per_file : option Z)
    (folder : pystr) (first_idx : nat) (data : list value) (w : world)
    (s : stat) : Prop :=
  exists th title msgs,
    data !! (st_idx s - first_idx)%nat = Some (VDict th)
    /\ thread_title (st_idx s) th = VStr title
    /\ extract_messages R th = Ok msgs
    /\ files w !! path_join folder (st_filename s)
       = Some (thread_document R max_messages_per_file (st_idx s) th title msgs)
    /\ st_size s
       = stored_size R
           (thread_document R max_messages_per_file (st_idx s) th title msgs).

(** The list the loop over the threads runs through: a document that is
    not a list is taken as its only thread. *)
Definition threads_of (data : value) : list value :=
  match data with
  | VList l => l
  | _ => [data]
  end.

(** The folder of an export of [input_file]. *)
Definition export_folder (R : runtime) (input_file : pystr) : pystr :=
  (lit "deepseek_" ++ path_stem R input_file) ++ [ch_underscore]
  ++ now_folder R.

(** The file system takes the index of the export of [input_file]: its
    folder is there or can be made, the index can be opened, and UTF-8
    encodes what the header and the totals hold besides the rows (the
    name of the input file, the date, the name of the folder, the
    formatted average and total size). *)
Definition index_written (R : runtime) (input_file : pystr) (w : world)
  : Prop :=
  let folder := export_folder R input_file in
  (path_exists folder w = true \/ makedirs_error R folder = None)
  /\ open_error R (path_join folder index_name) = None
  /\ utf8_encodable input_file = true
  /\ utf8_encodable (now_index R) = true
  /\ utf8_encodable folder = true
  /\ (forall m t, utf8_encodable (fmt_ratio R m t) = true)
  /\ (forall b, utf8_encodable (fmt_mb R b) = true).

(** The counters that go with the rows [rows]. *)
Definition totals_of (rows : list stat) : totals :=
  {| total_threads := length rows;
     total_messages := sum_messages rows;
     stats := rows |}.

(** A document of three entries: a number, a thread with three turns, and
    a string. Only the second one is a thread. *)
Definition sample_document : value :=
  VList
    [VInt 5;
     VDict [(lit "id", VStr (lit "abc"));
            (lit "title", VStr (lit "My chat: one"));
            (lit "mapping",
             VDict [(lit "root", VDict []);
                    mapping_entry (lit "2")
                      [text_fragment "RESPONSE" "hi"; text_fragment "THINK" "hm"];
                    mapping_entry (lit "1") [text_fragment "REQUEST" "hello"];
                    (lit "x", VInt 3)])];
     VStr (lit "x")].

Definition sample_runtime : runtime := example_runtime (Loaded sample_document).

Definition sample_folder : pystr := lit "deepseek_in_20250101_120000".

(** The file system after the sample export. *)
Definition sample_world : world :=
  (export_threads sample_runtime (lit "in.json") None None empty_world).2.

(** Two threads whose titles sanitize to the same name, [A_B]. *)
Definition twin_threads : list value :=
  [VDict [(lit "title", VStr (lit "A/B"))];
   VDict [(lit "title", VStr (lit "A?B"))]].

(** A document whose entries are all malformed, and a mapping with the
    three kinds of entries the loop passes over. *)
Definition malformed_document : value :=
  VList [VInt 1; VStr (lit "thread"); VNone; VList []].

Definition malformed_mapping : list (pystr * value) :=
  [mapping_entry (lit "1") [text_fragment "REQUEST" "a"];
   (lit "root", VDict [(lit "message",
                        VDict [(lit "fragments",
                                VList [text_fragment "RESPONSE" "r"])])]);
   (lit "2", VStr (lit "no object"));
   (lit "3", VDict [(lit "message", VStr (lit "text"))]);
   (lit "4", VDict []);
   mapping_entry (lit "5") [text_fragment "RESPONSE" "b"]].

(** ** Vocabulary of the further properties *)

(** The characters [sanitize_filename] strips from both ends. *)
Definition strip_set : list char := [ch_dot; ch_underscore; ch_space].

(** A name [sanitize_filename] has nothing to do on: no unsafe and no
    control character, no space when spaces are replaced, no underscore
    after an underscore, and neither end in [strip_set]. *)
Definition safe_name (replace_spaces : bool) (s : pystr) : Prop :=
  Forall (fun c => is_unsafe c = false /\ is_control c = false
                   /\ (replace_spaces = true -> c <> ch_space)) s
  /\ no_double_underscore s
  /\ (forall c, head s = Some c \/ last s = Some c -> c ∉ strip_set).

(** A file system that holds the input file of the examples and a file
    of the user. *)
Definition home_world : world :=
  {| dirs := ∅;
     files := {[ lit "in.json" := lit "[]"; lit "notes.txt" := lit "keep" ]} |}.

(** A document whose second thread has a number for its title. *)
Definition broken_document : value :=
  VList [VDict [(lit "title", VStr (lit "ok"))];
         VDict [(lit "title", VInt 3)];
         VDict [(lit "title", VStr (lit "never reached"))]].

(** ** Finding the input file, and the menu *)

(** What the console and the current directory decide. *)
Record shell := {
  (** [str.lower] *)
  str_lower : pystr -> pystr;
  (** [os.listdir('.')] *)
  listdir : world -> list pystr;
  (** [int(line)] for a line the user typed, [None] when it raises *)
  int_of_line : pystr -> option Z
}.

(** [s.endswith(suffix)] *)
Definition endswith (s suffix : pystr) : bool :=
  (length suffix <=? length s)%nat
  && bool_decide (drop (length s - length suffix) s = suffix).

Definition default_files : list pystr :=
  [lit "conversations.json"; lit "chat.json"; lit "export.json"].

(** [f.lower().endswith('.json')] *)
Definition is_json_name (S : shell) (f : pystr) : bool :=
  endswith (str_lower S f) (lit ".json").

(** The list [json_files] of [find_json_file]. *)
Definition json_files (S : shell) (w : world) : list pystr :=
  List.filter (is_json_name S) (listdir S w).

(** [find_json_file]: what it returns or raises, and the lines of the
    standard input it leaves, on a console that accepts every text. The
    lines are those [input] returns, one after the other; [input] raises
    [EOFError] when there is none left.
    [os.path.getsize], called for the sizes that are printed, raises
    [OSError] for a path that does not exist; the bare [except] around the
    question catches whatever [input] and [int] raise. *)
Definition find_json_file (S : shell) (input_arg : option pystr)
    (stdin : list pystr) (w : world) : result (option pystr) * list pystr :=
  let searched :=
    match List.find (fun f => path_exists f w) default_files with
    | Some filename => (Ok (Some filename), stdin)
    | None =>
        match json_files S w with
        | [] => (Ok None, stdin)
        | [f] => (Ok (Some f), stdin)
        | files =>
            if forallb (fun f => path_exists f w) files then
              match stdin with
              | [] => (Ok None, [])
              | line :: rest =>
                  match int_of_line S line with
                  | Some choice =>
                      if (1 <=? choice) && (choice <=? Z.of_nat (length files))
                      then (Ok (files !! Z.to_nat (choice - 1)), rest)
                      else (Ok None, rest)
                  | None => (Ok None, rest)
                  end
              end
            else (Raise OSError, stdin)
        end
    end in
  match input_arg with
  | Some a =>
      if py_truthy (VStr a) && path_exists a w then (Ok (Some a), stdin)
      else searched
  | None => searched
  end.

(** The answer to the question [find_json_file] asks: the entry of
    [files] the line [line] chooses, if any. *)
Definition chosen (S : shell) (files : list pystr) (line : pystr) (f : pystr)
  : Prop :=
  exists choice : Z,
    int_of_line S line = Some choice
    /\ 1 <= choice <= Z.of_nat (length files)
    /\ files !! Z.to_nat (choice - 1) = Some f.

(** An exception that leaves [main]: one of those above, or the
    [EOFError] of [input]. *)
Inductive console_exn :=
| Uncaught (e : exn)
| EOFError.

(** [input(...)] where its value is not used. *)
Definition press_enter (stdin : list pystr) (w : world)
  : option console_exn * list pystr * world :=
  match stdin with
  | [] => (Some EOFError, [], w)
  | _ :: rest => (None, rest, w)
  end.

(** The call of [export_threads] the menu choice stands for. *)
Definition menu_export (R : runtime) (choice input_file : pystr) (w : world)
  : result (option pystr) * world :=
  if bool_decide (choice = lit "1") then export_threads R input_file None None w
  else if bool_decide (choice = lit "2")
       then export_threads R input_file (Some 5) None w
  else if bool_decide (choice = lit "3")
       then export_threads R input_file None (Some 100) w
  else export_threads R input_file None None w.

(** [main], where [args] is [sys.argv] after the name of the script, on
    a console that accepts every text and for a user who does not
    interrupt it: the exception that leaves it, if any, the lines of the
    standard input it leaves, and the file system.
    Inside the [try] block every [Exception] is caught and printed: the
    [EOFError] of the question for the menu choice, and whatever
    [export_threads] raises. *)
Definition main (S : shell) (R : runtime) (args : list pystr)
    (stdin : list pystr) (w : world)
  : option console_exn * list pystr * world :=
  let input_arg := head args in
  match find_json_file S input_arg stdin w with
  | (Raise e, stdin) => (Some (Uncaught e), stdin, w)
  | (Ok input_file, stdin) =>
      match input_file with
      | Some (c :: name) =>
          let input_file := c :: name in
          if path_exists input_file w then
            match stdin with
            | [] => press_enter [] w
            | line :: rest =>
                let choice := strip_by (is_space R) line in
                press_enter rest (menu_export R choice input_file w).2
            end
          else (Some (Uncaught OSError), stdin, w)
      | _ => press_enter stdin w
      end
  end.

(** A shell for the examples: ASCII lower case, a directory listing that
    is read off the files, and [int] for one decimal digit. *)
Definition ascii_lower (s : pystr) : pystr :=
  map (fun c => if (65 <=? c)%N && (c <=? 90)%N then (c + 32)%N else c) s.

Definition example_shell (listing : list pystr) : shell :=
  {| str_lower := ascii_lower;
     listdir := fun _ => listing;
     int_of_line := fun line =>
       match line with
       | [c] => if is_ascii_digit c then Some (Z.of_N c - 48) else None
       | _ => None
       end |}.

(** Seven threads without turns, for the menu. *)
Definition seven_threads : value :=
  VList (replicate 7 (VDict [(lit "title", VStr (lit "t"))])).
(** ** Properties of [sanitize_filename] *)

Section Sanitize.

Variable P : char -> Prop.

Lemma Forall_lstrip_by drop s : Forall P s -> Forall P (lstrip_by drop s).
Proof.
  induction 1 as [|c s Hc Hs IH]; simpl; [constructor|].
  destruct (drop c); [exact IH | by constructor].
Qed.

Lemma Forall_strip_by drop s : Forall P s -> Forall P (strip_by drop s).
Proof.
  intros H. unfold strip_by, rstrip_by.
  apply List.Forall_rev, Forall_lstrip_by, List.Forall_rev.
  by apply Forall_lstrip_by.
Qed.

Lemma Forall_sub_control s : Forall P s -> Forall P (sub_control s).
Proof.
  induction 1 as [|c s Hc Hs IH]; simpl; [constructor|].
  destruct (negb (is_control c)); [by constructor | exact IH].
Qed.

Lemma Forall_sub_underscores s :
  Forall P s -> Forall P (sub_underscores s).
Proof.
  induction 1 as [|c s Hc Hs IH]; simpl; [constructor|].
  destruct (N.eqb_spec c ch_underscore) as [->|_]; [|by constructor].
  destruct s as [|d s']; [by constructor|].
  destruct (d =? ch_underscore)%N; [exact IH | by constructor].
Qed.

Lemma Forall_slice_upto s k : Forall P s -> Forall P (slice_upto s k).
Proof. intros H. unfold slice_upto. destruct (0 <=? k); by apply Forall_take. Qed.

End Sanitize.

Lemma splitext_with_app seps p :
  (splitext_with seps p).1 ++ (splitext_with seps p).2 = p.
Proof.
  unfold splitext_with; cbv zeta.
  destruct (_ <? _); [destruct (existsb _ _)|]; simpl.
  all: auto using take_drop, List.app_nil_r.
Qed.

(** The last dot of a string is a dot. *)
Lemma rfind_from_spec c p i last :
  rfind_from c p i last = last \/
  (i <= rfind_from c p i last /\
   p !! Z.to_nat (rfind_from c p i last - i) = Some c).
Proof.
  revert i last. induction p as [|x p IH]; intros i last; simpl; [by left|].
  destruct (IH (i + 1) (if (x =? c)%N then i else last)) as [->|[Hle Hat]].
  - destruct (N.eqb_spec x c) as [->|_]; [right|by left].
    split; [lia|]. by replace (i - i) with 0 by lia.
  - right. split; [lia|].
    replace (Z.to_nat (rfind_from c p (i + 1) (if (x =? c)%N then i else last) - i))
      with (S (Z.to_nat (rfind_from c p (i + 1) (if (x =? c)%N then i else last) - (i + 1))))
      by lia.
    exact Hat.
Qed.

Lemma rfind_spec c p :
  rfind c p = -1 \/ (0 <= rfind c p /\ p !! Z.to_nat (rfind c p) = Some c).
Proof.
  unfold rfind. destruct (rfind_from_spec c p 0 (-1)) as [H|[H1 H2]]; [by left|].
  right. split; [done|]. by rewrite Z.sub_0_r in H2.
Qed.

(** An extension is empty or starts with a dot. *)
Lemma splitext_with_ext seps p :
  (splitext_with seps p).2 = [] \/
  exists rest, (splitext_with seps p).2 = ch_dot :: rest.
Proof.
  unfold splitext_with; cbv zeta.
  destruct (_ <? _) eqn:Hlt; [destruct (existsb _ _)|]; simpl; auto.
  right. destruct (rfind_spec ch_dot p) as [Hno|[H0 Hat]].
  - exfalso. rewrite Hno in Hlt. apply Z.ltb_lt in Hlt.
    assert (-1 <= fold_right Z.max (-1) (map (fun c => rfind c p) seps)); [|lia].
    induction seps; simpl; lia.
  - exists (drop (S (Z.to_nat (rfind ch_dot p))) p).
    by apply drop_S.
Qed.


Lemma head_sub_underscores s : head (sub_underscores s) = head s.
Proof.
  induction s as [|c s IH]; simpl; [done|].
  destruct (N.eqb_spec c ch_underscore) as [->|_]; [|done].
  destruct s as [|d s']; [done|].
  destruct (N.eqb_spec d ch_underscore) as [->|_]; [|done].
  by rewrite IH.
Qed.

Lemma sub_underscores_no_double s : no_double_underscore (sub_underscores s).
Proof.
  induction s as [|c s IH]; simpl; [done|].
  destruct (N.eqb_spec c ch_underscore) as [->|Hc].
  - destruct s as [|d s']; [simpl; intuition discriminate|].
    destruct (N.eqb_spec d ch_underscore) as [->|Hd]; [exact IH|].
    split; [|exact IH].
    rewrite head_sub_underscores. simpl. intros [_ [=]]. by apply Hd.
  - split; [tauto | exact IH].
Qed.

Lemma no_double_take n s :
  no_double_underscore s -> no_double_underscore (take n s).
Proof.
  revert n. induction s as [|c s IH]; intros [|n]; simpl; try done.
  intros [Hc Hs]. split; [|by apply IH].
  intros [-> Hh]. apply Hc. split; [done|].
  destruct s, n; simpl in *; done.
Qed.

Lemma no_double_drop n s :
  no_double_underscore s -> no_double_underscore (drop n s).
Proof.
  revert n. induction s as [|c s IH]; intros [|n]; simpl; try done.
  intros [_ Hs]. by apply IH.
Qed.

Lemma no_double_app a b :
  no_double_underscore a -> no_double_underscore b ->
  head b <> Some ch_underscore -> no_double_underscore (a ++ b).
Proof.
  intros Ha Hb Hh. induction a as [|c a IH]; simpl; [done|].
  destruct Ha as [Hc Ha]. split; [|by apply IH].
  intros [-> Hh']. destruct a; simpl in *; [done|]. by apply Hc.
Qed.

Lemma no_double_app_inv a b :
  no_double_underscore (a ++ b) ->
  no_double_underscore a /\ no_double_underscore b.
Proof.
  induction a as [|c a IH]; simpl; [done|].
  intros [Hc Hab]. destruct (IH Hab) as [Ha Hb]. repeat split; [|done..].
  intros [-> Hh]. apply Hc. split; [done|]. by destruct a.
Qed.

Lemma no_double_spec s :
  no_double_underscore s ->
  forall pre post, s <> pre ++ [ch_underscore; ch_underscore] ++ post.
Proof.
  intros Hs pre. revert s Hs.
  induction pre as [|c pre IH]; intros s Hs post ->; simpl in *.
  - destruct Hs as [Hs _]. by apply Hs.
  - destruct Hs as [_ Hs]. by apply (IH _ Hs post).
Qed.


Lemma str_replace_space s :
  Forall (fun c => (c =? ch_space)%N = false)
         (str_replace ch_space [ch_underscore] s).
Proof.
  unfold str_replace. induction s as [|c s IH]; simpl; [constructor|].
  destruct (N.eqb_spec c ch_space) as [->|Hc]; simpl.
  - by constructor.
  - constructor; [by apply N.eqb_neq | exact IH].
Qed.

Lemma sub_unsafe_safe s :
  Forall (fun c => (c =? ch_space)%N = false) s ->
  Forall (fun c => negb (is_unsafe c) && negb (c =? ch_space)%N = true)
         (sub_unsafe s).
Proof.
  induction 1 as [|c s Hc Hs IH]; simpl; constructor; [|exact IH].
  destruct (is_unsafe c) eqn:Hu; [done|]. by rewrite Hu, Hc.
Qed.

Lemma sub_control_clean s :
  Forall (fun c => negb (is_unsafe c) && negb (c =? ch_space)%N = true) s ->
  Forall (fun c => clean_char c = true) (sub_control s).
Proof.
  induction 1 as [|c s Hc Hs IH]; simpl; [constructor|].
  destruct (is_control c) eqn:Hctl; simpl; [exact IH|].
  constructor; [|exact IH]. unfold clean_char. rewrite Hctl.
  apply andb_true_iff in Hc as [-> ->]. done.
Qed.

(** The string before the final test for the fallback name. *)
Lemma sanitize_filename_body title replace_spaces :
  sanitize_filename title replace_spaces
  = let truncated := truncated_name (cleaned_name title replace_spaces) in
    if bool_decide (truncated = []) || bool_decide (truncated = [ch_underscore])
    then unnamed_thread else truncated.
Proof.
  unfold sanitize_filename, truncated_name, cleaned_name. cbv zeta.
  by destruct (splitext _) as [name ext].
Qed.

(** C4: with [replace_spaces=True], the name returned holds none of the
    characters < > : / \ | ? * or the double quote, no control character
    (0x00 to 0x1f, 0x7f), no space, and no two underscores in a row. *)
Theorem sanitize_filename_clean (title : pystr) :
  Forall (fun c => (c ∉ unsafe_chars) /\ ~ (c <= 31)%N /\ c <> 127%N
                   /\ c <> ch_space)
         (sanitize_filename title true)
  /\ forall pre post,
       sanitize_filename title true
       <> pre ++ [ch_underscore; ch_underscore] ++ post.
Proof.
  rewrite sanitize_filename_body. cbv zeta.
  set (cleaned := cleaned_name title true).
  assert (Hclean : Forall (fun c => clean_char c = true) cleaned).
  { apply Forall_sub_underscores, Forall_strip_by, sub_control_clean,
      sub_unsafe_safe, str_replace_space. }
  assert (Hnd : no_double_underscore cleaned)
    by apply sub_underscores_no_double.
  assert (Forall (fun c => clean_char c = true) (truncated_name cleaned)
          /\ no_double_underscore (truncated_name cleaned)) as [Ht Hndt].
  { unfold truncated_name. destruct (200 <? py_len cleaned); [|done].
    pose proof (splitext_with_app [ch_slash] cleaned) as Happ.
    fold splitext in Happ.
    rewrite <- Happ in Hclean, Hnd.
    apply Forall_app in Hclean as [Hname Hext].
    split.
    - apply Forall_app. split; [by apply Forall_slice_upto | done].
    - apply no_double_app_inv in Hnd as [Hn1 Hn2].
      apply no_double_app; [|done|].
      + unfold slice_upto. destruct (0 <=? _); by apply no_double_take.
      + destruct (splitext_with_ext [ch_slash] cleaned) as [He|[rest He]];
          fold splitext in He; rewrite He; done. }
  assert (Hlit : Forall (fun c => clean_char c = true) unnamed_thread
                 /\ no_double_underscore unnamed_thread).
  { split; [repeat constructor | vm_compute; intuition discriminate]. }
  destruct Hlit as [Hl1 Hl2].
  destruct (_ || _); (split; [|by apply no_double_spec]).
  all: eapply Forall_impl; [eassumption|].
  all: intros c Hc; unfold clean_char in Hc.
  all: apply andb_true_iff in Hc as [Hc Hsp];
       apply andb_true_iff in Hc as [Hu Hctl].
  all: apply negb_true_iff in Hu, Hctl, Hsp.
  all: unfold is_control in Hctl; apply orb_false_iff in Hctl as [H31 H127].
  all: apply N.leb_gt in H31; apply N.eqb_neq in H127, Hsp.
  all: repeat split; try lia; try done.
  all: intros Hin; unfold is_unsafe in Hu.
  all: apply not_true_iff_false in Hu; apply Hu, existsb_exists.
  all: exists c; split; [by apply list_elem_of_In | apply N.eqb_refl].
Qed.

(** The name returned is never empty, with or without [replace_spaces]. *)
Lemma sanitize_filename_nonempty title replace_spaces :
  sanitize_filename title replace_spaces <> [].
Proof.
  rewrite sanitize_filename_body. cbv zeta.
  destruct (bool_decide _ || _) eqn:H; [done|].
  apply orb_false_iff in H as [H _]. by apply bool_decide_eq_false in H.
Qed.

(** The cut keeps the name within 200 characters as long as the extension
    itself is. *)
Lemma truncated_name_length cleaned :
  (length (splitext cleaned).2 <= 200)%nat ->
  (length (truncated_name cleaned) <= 200)%nat.
Proof.
  intros Hext. unfold truncated_name, py_len.
  destruct (Z.ltb_spec 200 (Z.of_nat (length cleaned))) as [_|Hle]; [|lia].
  rewrite length_app. unfold slice_upto, py_len.
  destruct (Z.leb_spec 0 (200 - Z.of_nat (length (splitext cleaned).2)));
    [|lia].
  rewrite length_take. lia.
Qed.

(** The name returned has at most 200 characters whenever the extension of
    the cleaned name (from its last dot on) has at most 200. *)
Lemma sanitize_filename_length title replace_spaces :
  (length (splitext (cleaned_name title replace_spaces)).2 <= 200)%nat ->
  (length (sanitize_filename title replace_spaces) <= 200)%nat.
Proof.
  intros H. rewrite sanitize_filename_body. cbv zeta.
  destruct (_ || _); [vm_compute; lia | by apply truncated_name_length].
Qed.

(** C3, the length bound: a title whose extension alone is longer than 200
    characters comes back longer than 200 characters. Here the name is
    [a], the extension a dot and 300 times [b]: [200 - len(ext)] is -101,
    the slice [name[:-101]] is empty, and all 301 characters of the
    extension are returned. *)
Theorem sanitize_filename_overlong :
  let title := lit "a." ++ replicate 300 98%N in
  sanitize_filename title true = lit "." ++ replicate 300 98%N
  /\ length (sanitize_filename title true) = 301%nat.
Proof. cbv zeta. split; vm_compute; reflexivity. Qed.

(** [os.path.splitext] is called on a name without separators, so the
    POSIX version modelled here and the Windows version (separators
    backslash and slash) split it alike. *)
Lemma rfind_from_absent c p i last :
  c ∉ p -> rfind_from c p i last = last.
Proof.
  revert i last. induction p as [|x p IH]; intros i last Hc; simpl; [done|].
  apply not_elem_of_cons in Hc as [Hx Hp].
  rewrite IH by done. apply N.eqb_neq in Hx. rewrite N.eqb_sym in Hx.
  by rewrite Hx.
Qed.

Lemma splitext_with_absent seps p :
  Forall (fun c => c ∉ p) seps -> splitext_with seps p = splitext_with [] p.
Proof.
  intros H. unfold splitext_with.
  replace (fold_right Z.max (-1) (map (fun c => rfind c p) seps)) with (-1);
    [done|].
  induction H as [|c seps Hc Hseps IH]; simpl; [done|].
  rewrite <- IH. unfold rfind. rewrite rfind_from_absent by done. lia.
Qed.

Lemma sub_unsafe_no_unsafe s :
  Forall (fun c => is_unsafe c = false) (sub_unsafe s).
Proof.
  induction s as [|c s IH]; simpl; constructor; [|exact IH].
  by destruct (is_unsafe c) eqn:Hc.
Qed.

Lemma splitext_cleaned_name title replace_spaces :
  splitext_with [92%N; ch_slash] (cleaned_name title replace_spaces)
  = splitext (cleaned_name title replace_spaces).
Proof.
  assert (H : Forall (fun c => is_unsafe c = false)
                     (cleaned_name title replace_spaces)).
  { apply Forall_sub_underscores, Forall_strip_by, Forall_sub_control,
      sub_unsafe_no_unsafe. }
  unfold splitext.
  rewrite (splitext_with_absent [92%N; ch_slash]),
          (splitext_with_absent [ch_slash]); [done|..].
  all: repeat constructor; intros Hin; rewrite Forall_forall in H;
    by specialize (H _ Hin).
Qed.

(** The cut applies: a title of 250 letters comes back with 200. *)
Lemma sanitize_filename_length_witness :
  (length (sanitize_filename (replicate 250 97%N) true) <= 200)%nat.
Proof.
  apply (sanitize_filename_length (replicate 250 97%N) true).
  vm_compute. lia.
Defined.

(** ** The rendered turns *)

Lemma write_turns_spec R mm n i msgs :
  write_turns R mm n i msgs
  = (concat (map (render_turn R) (turns_from mm i msgs))
     ++ (if decide (length (turns_from mm i msgs) < length msgs)%nat
         then truncation_note (default 0 mm) n else []),
     length (turns_from mm i msgs)).
Proof.
  revert i. induction msgs as [|m rest IH]; intros i.
  - simpl. destruct mm as [k|]; simpl; [|done].
    destruct (k =? 0); [done|]. by rewrite take_nil.
  - simpl. unfold message_limit_hit, turns_from.
    destruct mm as [k|]; simpl.
    + destruct (Z.eqb_spec k 0) as [->|Hk]; simpl.
      * specialize (IH (S i)). unfold turns_from in IH. simpl in IH.
        rewrite IH. repeat case_decide; try lia; by rewrite <- ?app_assoc.
      * destruct (Z.leb_spec k (Z.of_nat i)) as [Hle|Hgt].
        -- replace (Z.to_nat (k - Z.of_nat i)) with 0%nat by lia. simpl.
           repeat case_decide; first [done | lia].
        -- specialize (IH (S i)). unfold turns_from in IH.
           apply Z.eqb_neq in Hk. rewrite Hk in IH. rewrite IH.
           replace (Z.to_nat (k - Z.of_nat i))
             with (S (Z.to_nat (k - Z.of_nat (S i)))) by lia.
           simpl. repeat case_decide; try lia; by rewrite <- ?app_assoc.
    + specialize (IH (S i)). unfold turns_from in IH. rewrite IH. simpl.
      repeat case_decide; try lia; by rewrite <- ?app_assoc.
Qed.

(** C1, as the code has it: the turns section of a thread file is the
    rendering of the turns written, one after the other; a turn of type
    REQUEST stands under the user heading, a turn of type RESPONSE under
    the assistant heading, and a turn of any other type under a heading
    that carries its type. *)
Theorem turn_heading_by_type (R : runtime) (max_messages_per_file : option Z)
    (all_messages : list msg) :
  (exists note,
     (write_turns R max_messages_per_file (length all_messages) 0
                  all_messages).1
     = concat (map (render_turn R)
                   (turns_written max_messages_per_file all_messages))
       ++ note)
  /\ forall m,
       render_turn R m = heading R m ++ msg_content m ++ [10; 10]%N
       /\ ((msg_type m = VStr (lit "REQUEST")
            /\ heading R m = user_heading)
           \/ (msg_type m = VStr (lit "RESPONSE")
               /\ heading R m = assistant_heading)
           \/ (msg_type m <> VStr (lit "REQUEST")
               /\ msg_type m <> VStr (lit "RESPONSE")
               /\ heading R m
                  = lit "### " ++ format_value R (msg_type m)
                    ++ [10; 10]%N)).
Proof.
  split.
  - rewrite write_turns_spec. simpl. eauto.
  - intros m. split; [done|]. unfold heading, eq_str.
    destruct (msg_type m) as [| | | |s| |];
      try (right; right; repeat split; done).
    destruct (bool_decide_reflect (s = lit "REQUEST")) as [->|Hreq];
      [by left|].
    destruct (bool_decide_reflect (s = lit "RESPONSE")) as [->|Hres];
      [by right; left|].
    right; right. repeat split; congruence.
Qed.

(** C1 as stated fails: the one turn of [think_thread] has type THINK and
    is written under the heading [### THINK], which is neither the user
    heading nor the assistant heading. *)
Lemma think_turn_other_heading :
  exists m,
    extract_messages plain_runtime think_thread = Ok [m]
    /\ msg_type m = VStr (lit "THINK")
    /\ (write_turns plain_runtime None 1 0 (sort_messages plain_runtime [m])).1
       = lit "### THINK" ++ [10; 10]%N ++ lit "hm" ++ [10; 10]%N
    /\ heading plain_runtime m <> user_heading
    /\ heading plain_runtime m <> assistant_heading.
Proof.
  eexists. split; [vm_compute; reflexivity|].
  repeat split; try (vm_compute; reflexivity); vm_compute; discriminate.
Qed.

(** ** The order of the turns *)

Section Sorting.

Variable R : runtime.

Lemma findall_digits_in_run s run :
  exists d post more,
    s = d ++ post
    /\ Forall (fun c => is_digit R c = true) d
    /\ starts_without_digit R post
    /\ (run <> [] -> findall_digits_from R s run = (rev run ++ d) :: more).
Proof.
  revert run. induction s as [|c s IH]; intros run.
  - exists [], [], []. repeat split; [constructor|].
    intros Hrun. simpl. rewrite List.app_nil_r. by destruct run.
  - simpl. destruct (is_digit R c) eqn:Hc.
    + destruct (IH (c :: run)) as (d & post & more & -> & Hd & Hpost & Heq).
      exists (c :: d), post, more. repeat split; [by constructor | done |].
      intros _. rewrite Heq by done. simpl. by rewrite <- app_assoc.
    + exists [], (c :: s), (findall_digits_from R s []).
      repeat split; [constructor | done |].
      intros Hrun. rewrite List.app_nil_r. by destruct run.
Qed.

Lemma findall_digits_first s :
  (Forall (fun c => is_digit R c = false) s /\ findall_digits R s = [])
  \/ exists run more,
       first_digit_run R s run /\ findall_digits R s = run :: more.
Proof.
  unfold findall_digits. induction s as [|c s IH]; [left; by split|].
  simpl. destruct (is_digit R c) eqn:Hc.
  - right.
    destruct (findall_digits_in_run s [c]) as (d & post & more & -> & Hd & Hpost & Heq).
    exists (c :: d), more. split; [|by apply Heq].
    exists [], post. repeat split; [constructor | done | by constructor | done].
  - destruct IH as [[Hs Hnil]|(run & more & Hrun & Heq)].
    + left. split; [by constructor | done].
    + right. exists run, more. split; [|done].
      destruct Hrun as (pre & post & -> & Hpre & Hne & Hd & Hpost).
      exists (c :: pre), post. repeat split; [by constructor | done..].
Qed.

Lemma numeric_id_spec msg_id :
  (Forall (fun c => is_digit R c = false) msg_id
   /\ numeric_id R msg_id = KInf)
  \/ exists run,
       first_digit_run R msg_id run
       /\ numeric_id R msg_id = KInt (digits_value R run).
Proof.
  unfold numeric_id.
  destruct (findall_digits_first msg_id) as [[H ->]|(run & more & H & ->)];
    [left | right]; eauto.
Qed.

Lemma extract_numeric_id_cases msg_id :
  extract_numeric_id R msg_id = Ok (numeric_id R msg_id)
  \/ id_refused R msg_id.
Proof.
  unfold id_refused, extract_numeric_id, numeric_id, py_int.
  destruct (findall_digits R msg_id) as [|first more]; [by left|].
  destruct (_ && _); [by right | by left].
Qed.

(** [int] only refuses a run beyond the limit. *)
Lemma id_refused_long msg_id :
  id_refused R msg_id ->
  exists run,
    first_digit_run R msg_id run
    /\ (640 < length run)%nat
    /\ (0 < int_max_str_digits R < length run)%nat.
Proof.
  unfold id_refused, extract_numeric_id, py_int.
  destruct (findall_digits_first msg_id) as [[_ ->]|(run & more & Hrun & ->)];
    [done|].
  destruct (_ && _) eqn:Hlim; [|done]. intros _.
  apply andb_true_iff in Hlim as [Hlim H3].
  apply andb_true_iff in Hlim as [H1 H2].
  apply Nat.ltb_lt in H1, H2, H3. eauto.
Qed.

Lemma key_lt_irrefl a : key_lt a a = false.
Proof. destruct a; simpl; [lia | done]. Qed.

Lemma key_lt_asym a b : key_lt a b = true -> key_lt b a = false.
Proof. destruct a, b; simpl; try done; lia. Qed.

Lemma key_le_trans a b c : key_le a b -> key_le b c -> key_le a c.
Proof. unfold key_le. destruct a, b, c; simpl; try done; lia. Qed.

Lemma key_eqb_lt a b : key_eqb a b = true -> key_lt a b = false.
Proof. destruct a, b; simpl; try done; lia. Qed.

Lemma key_eqb_eq a b : key_eqb a b = true <-> a = b.
Proof.
  destruct a, b; simpl; split; try done; try (intros [=]; lia).
  intros H. f_equal. lia.
Qed.


Lemma Forall_insert_keyed (P : sort_key * msg -> Prop) x l :
  P x -> Forall P l -> Forall P (insert_keyed x l).
Proof.
  intros Hx. induction 1 as [|y l Hy Hl IH]; simpl; [by repeat constructor|].
  destruct (key_lt y.1 x.1); repeat constructor; done.
Qed.

Lemma Forall_stable_sort (P : sort_key * msg -> Prop) l :
  Forall P l -> Forall P (stable_sort l).
Proof.
  induction 1 as [|x l Hx Hl IH]; simpl; [constructor|].
  by apply Forall_insert_keyed.
Qed.

Lemma insert_keyed_sorted x l :
  StronglySorted keyed_le l -> StronglySorted keyed_le (insert_keyed x l).
Proof.
  induction 1 as [|y l Hl IH Hy]; simpl; [by repeat constructor|].
  destruct (key_lt y.1 x.1) eqn:Hlt.
  - constructor; [exact IH|].
    apply Forall_insert_keyed; [|exact Hy].
    by apply key_lt_asym.
  - constructor; [by constructor|].
    constructor; [exact Hlt|].
    eapply Forall_impl; [exact Hy|].
    intros z Hz. by apply (key_le_trans x.1 y.1 z.1).
Qed.

Lemma stable_sort_sorted l : StronglySorted keyed_le (stable_sort l).
Proof.
  induction l as [|x l IH]; simpl; [constructor|].
  by apply insert_keyed_sorted.
Qed.

(** Insertion leaves the elements of any one key in their order. *)
Lemma filter_insert_keyed k x l :
  List.filter (fun e => key_eqb e.1 k) (insert_keyed x l)
  = List.filter (fun e => key_eqb e.1 k) (x :: l).
Proof.
  induction l as [|y l IH]; [done|].
  cbn [insert_keyed]. destruct (key_lt y.1 x.1) eqn:Hlt; [|done].
  cbn [List.filter] in *. rewrite IH.
  destruct (key_eqb y.1 k) eqn:Hy, (key_eqb x.1 k) eqn:Hx; try done.
  apply key_eqb_eq in Hy, Hx. rewrite Hy, Hx, key_lt_irrefl in Hlt. done.
Qed.

Lemma filter_stable_sort k l :
  List.filter (fun e => key_eqb e.1 k) (stable_sort l)
  = List.filter (fun e => key_eqb e.1 k) l.
Proof.
  induction l as [|x l IH]; [done|].
  cbn [stable_sort fold_right]. fold (stable_sort l).
  rewrite filter_insert_keyed. cbn [List.filter]. by rewrite IH.
Qed.


Lemma sort_keys_accepted msgs :
  Forall (fun m => ~ id_refused R (msg_id m)) msgs ->
  sort_keys R msgs = Ok (keyed R msgs).
Proof.
  induction 1 as [|m msgs Hm Hmsgs IH]; [done|].
  simpl. destruct (extract_numeric_id_cases (msg_id m)) as [->|H]; [|done].
  simpl. by rewrite IH.
Qed.

Lemma sort_keys_refused msgs :
  Exists (fun m => id_refused R (msg_id m)) msgs ->
  sort_keys R msgs = Raise ValueError.
Proof.
  induction 1 as [m msgs Hm|m msgs Hmsgs IH]; simpl.
  - by rewrite Hm.
  - rewrite IH.
    by destruct (extract_numeric_id_cases (msg_id m)) as [-> | Hr]; [|unfold id_refused in Hr; rewrite Hr].
Qed.

Lemma keyed_invariant msgs :
  Forall (fun e => e.1 = numeric_id R (msg_id e.2)) (keyed R msgs).
Proof. induction msgs; simpl; by constructor. Qed.

Lemma snd_keyed msgs : map snd (keyed R msgs) = msgs.
Proof. induction msgs as [|m msgs IH]; simpl; [done | by rewrite IH]. Qed.


Lemma sorted_snd l :
  Forall (fun e => e.1 = numeric_id R (msg_id e.2)) l ->
  StronglySorted keyed_le l -> StronglySorted (by_id R) (map snd l).
Proof.
  intros Hinv. induction 1 as [|x l Hl IH Hx]; simpl; [constructor|].
  apply Forall_cons in Hinv as [Hix Hil].
  constructor; [by apply IH|].
  clear IH Hl. induction Hx as [|y l Hy Hx IH]; simpl; [constructor|].
  apply Forall_cons in Hil as [Hiy Hil].
  constructor; [|by apply IH].
  unfold by_id, keyed_le in *. by rewrite <- Hix, <- Hiy.
Qed.

Lemma with_id_snd k l :
  Forall (fun e => e.1 = numeric_id R (msg_id e.2)) l ->
  with_id R k (map snd l)
  = map snd (List.filter (fun e => key_eqb e.1 k) l).
Proof.
  unfold with_id. induction 1 as [|x l Hx Hl IH]; [done|].
  simpl. rewrite <- Hx, IH. by destruct (key_eqb x.1 k).
Qed.

Lemma sorted_take {A} (le : A -> A -> Prop) n l :
  StronglySorted le l -> StronglySorted le (take n l).
Proof.
  intros H. revert n. induction H as [|x l Hl IH Hx]; intros [|n]; simpl;
    try constructor; [apply IH | by apply Forall_take].
Qed.

Lemma sort_messages_accepted msgs :
  Forall (fun m => ~ id_refused R (msg_id m)) msgs ->
  StronglySorted (by_id R) (sort_messages R msgs)
  /\ forall k, with_id R k (sort_messages R msgs) = with_id R k msgs.
Proof.
  intros Hok. unfold sort_messages. rewrite (sort_keys_accepted _ Hok).
  pose proof (Forall_stable_sort _ _ (keyed_invariant msgs)) as Hinv.
  split.
  - apply sorted_snd; [done | apply stable_sort_sorted].
  - intros k. rewrite (with_id_snd _ _ Hinv), filter_stable_sort.
    rewrite <- (with_id_snd _ _ (keyed_invariant msgs)). by rewrite snd_keyed.
Qed.

Lemma sort_messages_refused msgs :
  Exists (fun m => id_refused R (msg_id m)) msgs ->
  sort_messages R msgs = msgs.
Proof.
  intros H. unfold sort_messages. by rewrite (sort_keys_refused _ H).
Qed.

Lemma turns_written_sorted mm msgs :
  StronglySorted (by_id R) msgs -> StronglySorted (by_id R) (turns_written mm msgs).
Proof.
  intros H. unfold turns_written, turns_from.
  destruct mm as [m|]; [|done]. destruct (m =? 0); [done|].
  by apply sorted_take.
Qed.

End Sorting.

(** ** The sort is determined by its contract

    A list in nondecreasing key order that holds, for every key, the same
    elements in the same order as [l] is [stable_sort l]: any stable sort
    by these keys returns what the insertion above returns. *)

Lemma key_le_antisym a b : key_le a b -> key_le b a -> a = b.
Proof.
  unfold key_le. destruct a, b; simpl; try done.
  intros H1 H2. f_equal. lia.
Qed.

Lemma key_eqb_refl a : key_eqb a a = true.
Proof. by apply key_eqb_eq. Qed.

Lemma filter_key_in k (x : sort_key * msg) l :
  In x (List.filter (fun e => key_eqb e.1 k) l) -> In x l /\ x.1 = k.
Proof. intros H. apply filter_In in H as [H1 H2]. by apply key_eqb_eq in H2. Qed.

Lemma stable_arrangement_unique (l1 l2 : list (sort_key * msg)) :
  StronglySorted keyed_le l1 ->
  StronglySorted keyed_le l2 ->
  (forall k, List.filter (fun e => key_eqb e.1 k) l1
             = List.filter (fun e => key_eqb e.1 k) l2) ->
  l1 = l2.
Proof.
  intros H1. revert l2.
  induction H1 as [|x l1 Hs1 IH Hx]; intros l2 H2 Hsame.
  - destruct l2 as [|y l2]; [done|].
    specialize (Hsame y.1). simpl in Hsame. by rewrite key_eqb_refl in Hsame.
  - destruct H2 as [|y l2 Hs2 Hy].
    { specialize (Hsame x.1). simpl in Hsame. by rewrite key_eqb_refl in Hsame. }
    assert (Hxy : x.1 = y.1).
    { apply key_le_antisym.
      - pose proof (Hsame y.1) as Hk. cbn [List.filter] in Hk.
        rewrite (key_eqb_refl y.1) in Hk.
        assert (Hin : In y (List.filter (fun e => key_eqb e.1 y.1) (x :: l1))).
        { cbn [List.filter]. rewrite Hk. by left. }
        apply filter_key_in in Hin as [[<-|Hin] _]; [by apply key_lt_irrefl|].
        rewrite List.Forall_forall in Hx. by apply Hx.
      - pose proof (Hsame x.1) as Hk. cbn [List.filter] in Hk.
        rewrite (key_eqb_refl x.1) in Hk.
        assert (Hin : In x (List.filter (fun e => key_eqb e.1 x.1) (y :: l2))).
        { cbn [List.filter]. rewrite <- Hk. by left. }
        apply filter_key_in in Hin as [[<-|Hin] _]; [by apply key_lt_irrefl|].
        rewrite List.Forall_forall in Hy. by apply Hy. }
    assert (x = y) as <-.
    { pose proof (Hsame x.1) as Hk. cbn [List.filter] in Hk.
      rewrite Hxy in Hk at 3. rewrite !key_eqb_refl in Hk. congruence. }
    f_equal. apply IH; [done|].
    intros k. specialize (Hsame k). cbn [List.filter] in Hsame.
    destruct (key_eqb x.1 k); congruence.
Qed.

Lemma stable_sort_unique (l sorted : list (sort_key * msg)) :
  StronglySorted keyed_le sorted ->
  (forall k, List.filter (fun e => key_eqb e.1 k) sorted
             = List.filter (fun e => key_eqb e.1 k) l) ->
  sorted = stable_sort l.
Proof.
  intros Hs Hsame. apply stable_arrangement_unique;
    [done | apply stable_sort_sorted |].
  intros k. by rewrite filter_stable_sort.
Qed.
(** ** Writing a file one write at a time *)

Lemma utf8_encodable_app a b :
  utf8_encodable (a ++ b) = utf8_encodable a && utf8_encodable b.
Proof. apply forallb_app. Qed.

Lemma utf8_encodable_concat chunks :
  utf8_encodable (concat chunks) = forallb utf8_encodable chunks.
Proof.
  induction chunks as [|c chunks IH]; [done|].
  simpl. by rewrite utf8_encodable_app, IH.
Qed.

(** Every write succeeds exactly when the whole text can be encoded, and
    the file then holds the chunks one after the other. *)
Lemma write_all_encodable chunks :
  utf8_encodable (concat chunks) = true ->
  write_all chunks = (concat chunks, None).
Proof.
  induction chunks as [|c chunks IH]; [done|].
  simpl. rewrite utf8_encodable_app. intros [Hc Hrest]%andb_true_iff.
  by rewrite Hc, IH.
Qed.

Lemma write_all_cases chunks :
  (utf8_encodable (concat chunks) = true
   /\ write_all chunks = (concat chunks, None))
  \/ (utf8_encodable (concat chunks) = false
      /\ exists text,
           write_all chunks = (text, Some UnicodeEncodeError)
           /\ text `prefix_of` concat chunks).
Proof.
  induction chunks as [|c chunks IH]; [by left|].
  simpl. rewrite utf8_encodable_app.
  destruct (utf8_encodable c); simpl.
  - destruct IH as [[He ->]|(He & text & -> & Hpre)]; [by left|].
    right. split; [done|]. exists (c ++ text). split; [done|].
    by apply prefix_app.
  - right. split; [done|]. exists []. split; [done|]. apply prefix_nil.
Qed.

(** The writes of a block, put together, are the text of the block. *)
Lemma thread_header_lines_text R title thread_id inserted_at filename :
  concat (thread_header_lines R title thread_id inserted_at filename)
  = thread_header R title thread_id inserted_at filename.
Proof.
  unfold thread_header_lines, thread_header, created_line.
  destruct (py_truthy inserted_at); cbn [concat app];
    by rewrite <- ?app_assoc, ?List.app_nil_r.
Qed.

Lemma thread_footer_lines_text n :
  concat (thread_footer_lines n) = thread_footer n.
Proof.
  unfold thread_footer_lines, thread_footer. cbn [concat].
  by rewrite <- ?app_assoc, ?List.app_nil_r.
Qed.

Lemma index_header_lines_text R input_file n :
  concat (index_header_lines R input_file n) = index_header R input_file n.
Proof.
  unfold index_header_lines, index_header. cbn [concat].
  by rewrite <- ?app_assoc, ?List.app_nil_r.
Qed.

Lemma turn_writes_text R mm n i msgs :
  write_turns R mm n i msgs
  = (concat (turn_writes R mm n i msgs).1, (turn_writes R mm n i msgs).2).
Proof.
  revert i. induction msgs as [|m rest IH]; intros i; [done|].
  cbn [write_turns turn_writes].
  destruct (message_limit_hit mm i).
  - cbn [fst snd concat]. by rewrite List.app_nil_r.
  - rewrite IH. destruct (turn_writes R mm n (S i) rest) as [chunks k].
    cbn [fst snd concat]. unfold render_turn. by rewrite <- !app_assoc.
Qed.

(** The text of a thread file, as the writes of [thread_step] put it
    together. *)
Lemma thread_writes_text R mm idx th title msgs :
  thread_header R title (dict_get (lit "id") th (VStr []))
    (dict_get (lit "inserted_at") th (VStr []))
    (thread_filename idx (sanitize_filename title true))
  ++ concat (chat_heading
             :: (turn_writes R mm (length (sort_messages R msgs)) 0
                             (sort_messages R msgs)).1
             ++ thread_footer_lines
                  (turn_writes R mm (length (sort_messages R msgs)) 0
                               (sort_messages R msgs)).2)
  = thread_document R mm idx th title msgs
  /\ (turn_writes R mm (length (sort_messages R msgs)) 0
                  (sort_messages R msgs)).2
     = length (thread_turns R mm msgs).
Proof.
  pose proof (turn_writes_text R mm (length (sort_messages R msgs)) 0
                (sort_messages R msgs)) as Hw.
  rewrite write_turns_spec in Hw. injection Hw as Htext Hcount.
  split; [|by rewrite <- Hcount].
  unfold thread_document, thread_turns, thread_note, turns_written.
  cbn [concat]. rewrite concat_app, thread_footer_lines_text.
  by rewrite <- Htext, <- Hcount.
Qed.

(** How a block that writes a file ends. *)
Lemma write_lines_done R p chunks w w' :
  write_lines R p chunks w = (None, w') ->
  open_error R p = None
  /\ utf8_encodable (concat chunks) = true
  /\ w' = write_file p (concat chunks) w.
Proof.
  unfold write_lines. destruct (open_error R p); [done|].
  destruct (write_all_cases chunks) as [[He ->]|(_ & text & -> & _)]; [|done].
  by intros [= <-].
Qed.

Lemma append_lines_done R p chunks w w' :
  append_lines R p chunks w = (None, w') ->
  open_error R p = None
  /\ utf8_encodable (concat chunks) = true
  /\ w' = append_file p (concat chunks) w.
Proof.
  unfold append_lines. destruct (open_error R p); [done|].
  destruct (write_all_cases chunks) as [[He ->]|(_ & text & -> & _)]; [|done].
  by intros [= <-].
Qed.

Lemma write_lines_accepted R p chunks w :
  open_error R p = None ->
  utf8_encodable (concat chunks) = true ->
  write_lines R p chunks w = (None, write_file p (concat chunks) w).
Proof.
  intros Hopen He. unfold write_lines.
  by rewrite Hopen, (write_all_encodable _ He).
Qed.

Lemma append_lines_accepted R p chunks w :
  open_error R p = None ->
  utf8_encodable (concat chunks) = true ->
  append_lines R p chunks w = (None, append_file p (concat chunks) w).
Proof.
  intros Hopen He. unfold append_lines.
  by rewrite Hopen, (write_all_encodable _ He).
Qed.

Lemma write_lines_failed R p chunks w e w' :
  write_lines R p chunks w = (Some e, w') ->
  (open_error R p = Some e /\ w' = w)
  \/ (open_error R p = None /\ e = UnicodeEncodeError
      /\ utf8_encodable (concat chunks) = false
      /\ exists text,
           text `prefix_of` concat chunks /\ w' = write_file p text w).
Proof.
  unfold write_lines. destruct (open_error R p) as [e'|];
    [intros [= <- <-]; by left|].
  destruct (write_all_cases chunks) as [[He ->]|(He & text & -> & Hpre)];
    [done|].
  intros [= <- <-]. right. repeat split; [done|]. by exists text.
Qed.

Lemma append_lines_failed R p chunks w e w' :
  append_lines R p chunks w = (Some e, w') ->
  (open_error R p = Some e /\ w' = w)
  \/ (open_error R p = None /\ e = UnicodeEncodeError
      /\ utf8_encodable (concat chunks) = false
      /\ exists text,
           text `prefix_of` concat chunks /\ w' = append_file p text w).
Proof.
  unfold append_lines. destruct (open_error R p) as [e'|];
    [intros [= <- <-]; by left|].
  destruct (write_all_cases chunks) as [[He ->]|(He & text & -> & Hpre)];
    [done|].
  intros [= <- <-]. right. repeat split; [done|]. by exists text.
Qed.

(** How [create_thread_folder] ends. *)
Lemma create_thread_folder_cases R base_folder w :
  let folder := base_folder ++ [ch_underscore] ++ now_folder R in
  (path_exists folder w = true
   /\ create_thread_folder R base_folder w = (Ok folder, w))
  \/ (path_exists folder w = false
      /\ makedirs_error R folder = None
      /\ create_thread_folder R base_folder w
         = (Ok folder, makedirs folder w))
  \/ (path_exists folder w = false
      /\ exists e,
           makedirs_error R folder = Some e
           /\ create_thread_folder R base_folder w = (Raise e, w)).
Proof.
  cbv zeta. unfold create_thread_folder.
  destruct (path_exists _ w); [by left|]. right.
  destruct (makedirs_error R _) as [e|]; [right | by left].
  split; [done|]. by exists e.
Qed.

(** C2, as the code has it. The id of a key is the integer its first
    maximal run of digits denotes, and infinity for a key without a digit,
    which therefore comes after every key with one. When [int] accepts the
    first run of every key, the turns written are in nondecreasing order of
    their ids, and the turns of one id keep the order the mapping gave
    them. When [int] refuses a run (it is longer than the limit on integer
    string conversion), the [try] block abandons the sort and the turns
    stay in mapping order. *)
Theorem turns_sorted_by_numeric_id (R : runtime)
    (max_messages_per_file : option Z) (all_messages : list msg) :
  (forall msg_id,
     (Forall (fun c => is_digit R c = false) msg_id
      /\ numeric_id R msg_id = KInf)
     \/ exists run,
          first_digit_run R msg_id run
          /\ numeric_id R msg_id = KInt (digits_value R run))
  /\ (forall x y, key_le (KInt x) (KInt y) <-> x <= y)
  /\ (forall x, key_le (KInt x) KInf /\ ~ key_le KInf (KInt x))
  /\ (Forall (fun m => ~ id_refused R (msg_id m)) all_messages ->
      StronglySorted (by_id R)
        (turns_written max_messages_per_file (sort_messages R all_messages))
      /\ forall k,
           with_id R k (sort_messages R all_messages)
           = with_id R k all_messages)
  /\ (Exists (fun m => id_refused R (msg_id m)) all_messages ->
      sort_messages R all_messages = all_messages)
  /\ (forall msg_id,
        id_refused R msg_id ->
        exists run,
          first_digit_run R msg_id run
          /\ (640 < length run)%nat
          /\ (0 < int_max_str_digits R < length run)%nat).
Proof.
  split; [apply numeric_id_spec|].
  split; [intros x y; unfold key_le; simpl; lia|].
  split; [intros x; unfold key_le; simpl; split; [done | discriminate]|].
  split; [|split; [apply sort_messages_refused | apply id_refused_long]].
  intros Hok. destruct (sort_messages_accepted R _ Hok) as [Hs Hst].
  split; [by apply turns_written_sorted | exact Hst].
Qed.

Lemma sample_turns_accepted :
  Forall (fun m => ~ id_refused plain_runtime (msg_id m)) sample_turns.
Proof. repeat constructor; vm_compute; discriminate. Defined.

(** The sample turns come out by id: 1, 2, 2 (of x2y9), 10, and the key
    without a digit last. *)
Lemma sample_turns_sorted :
  sort_messages plain_runtime sample_turns
  = [turn "1" "REQUEST" "a"; turn "2" "RESPONSE" "b"; turn "x2y9" "THINK" "e";
     turn "msg-10" "RESPONSE" "c"; turn "note" "THINK" "d"]
  /\ StronglySorted (by_id plain_runtime)
       (turns_written (Some 3) (sort_messages plain_runtime sample_turns)).
Proof.
  split; [vm_compute; reflexivity|].
  exact (proj1 (proj1 (proj2 (proj2 (proj2
    (turns_sorted_by_numeric_id plain_runtime (Some 3) sample_turns))))
    sample_turns_accepted)).
Defined.

(** C2 as stated fails under CPython's default limit: the third key of
    [overlong_thread] has 4301 digits, [int] refuses it, and the turns are
    written in mapping order, the turn of key 2 before the turn of key 1. *)
Lemma overlong_key_unsorted :
  extract_messages plain_runtime overlong_thread = Ok overlong_turns
  /\ turns_written None (sort_messages plain_runtime overlong_turns)
     = overlong_turns
  /\ ~ StronglySorted (by_id plain_runtime)
         (turns_written None (sort_messages plain_runtime overlong_turns)).
Proof.
  assert (E : turns_written None (sort_messages plain_runtime overlong_turns)
              = overlong_turns) by (vm_compute; reflexivity).
  split; [vm_compute; reflexivity|]. split; [exact E|].
  rewrite E. unfold overlong_turns. intros H.
  apply StronglySorted_inv in H as [_ H].
  apply Forall_cons in H as [H _]. vm_compute in H. discriminate.
Qed.

(** ** The limits and the input file *)

Lemma thread_step_zero R folder mm idx thread t w :
  thread_step R folder (Some 0) mm idx thread t w
  = thread_step R folder None mm idx thread t w.
Proof. reflexivity. Qed.

Lemma process_threads_zero R folder mm idx data t w :
  process_threads R folder (Some 0) mm idx data t w
  = process_threads R folder None mm idx data t w.
Proof.
  revert idx t w. induction data as [|thread rest IH]; intros idx t w; [done|].
  cbn [process_threads]. rewrite thread_step_zero.
  destruct (thread_step _ _ _ _ _ _ _ _) as [[t'| |e] w']; [apply IH|done..].
Qed.

Lemma write_turns_zero R n i msgs :
  write_turns R (Some 0) n i msgs = write_turns R None n i msgs.
Proof.
  revert i. induction msgs as [|m rest IH]; intros i; [done|].
  cbn [write_turns]. by rewrite IH.
Qed.

Lemma turn_writes_zero R n i msgs :
  turn_writes R (Some 0) n i msgs = turn_writes R None n i msgs.
Proof.
  revert i. induction msgs as [|m rest IH]; intros i; [done|].
  cbn [turn_writes]. by rewrite IH.
Qed.

Lemma thread_step_zero_messages R folder mt idx thread t w :
  thread_step R folder mt (Some 0) idx thread t w
  = thread_step R folder mt None idx thread t w.
Proof.
  unfold thread_step. destruct (thread_limit_hit mt idx); [done|].
  destruct thread; try done.
  destruct (sanitize_title _) as [[title safe]|]; [|done].
  destruct (open_error R _); [done|].
  destruct (write_all _) as [header [e|]]; [done|].
  destruct (extract_messages R d); [|done].
  by rewrite turn_writes_zero.
Qed.

Lemma process_threads_zero_messages R folder mt idx data t w :
  process_threads R folder mt (Some 0) idx data t w
  = process_threads R folder mt None idx data t w.
Proof.
  revert idx t w. induction data as [|thread rest IH]; intros idx t w; [done|].
  cbn [process_threads]. rewrite thread_step_zero_messages.
  destruct (thread_step _ _ _ _ _ _ _ _) as [[t'| |e] w']; [apply IH|done..].
Qed.

Lemma export_threads_zero R input_file mm w :
  export_threads R input_file (Some 0) mm w
  = export_threads R input_file None mm w.
Proof.
  unfold export_threads. destruct (load_input R input_file) as [[data|]|]; try done.
  destruct (create_thread_folder _ _ _) as [[folder|e] w1]; [|done].
  destruct (write_lines _ _ _ _) as [[e|] w2]; [done|].
  by rewrite process_threads_zero.
Qed.

Lemma export_threads_zero_messages R input_file mt w :
  export_threads R input_file mt (Some 0) w
  = export_threads R input_file mt None w.
Proof.
  unfold export_threads. destruct (load_input R input_file) as [[data|]|]; try done.
  destruct (create_thread_folder _ _ _) as [[folder|e] w1]; [|done].
  destruct (write_lines _ _ _ _) as [[e|] w2]; [done|].
  by rewrite process_threads_zero_messages.
Qed.

(** C9: when the input cannot be parsed ([json.load] raises
    [JSONDecodeError], or the first read raises [UnicodeDecodeError] and
    the second one, with utf-8-sig, raises as well), [export_threads]
    returns [None] and leaves the file system as it found it. *)
Theorem unparsable_input_returns_none (R : runtime) (input_file : pystr)
    (max_threads max_messages_per_file : option Z) (w : world) :
  json_load R input_file Utf8 = JSONDecodeError
  \/ (json_load R input_file Utf8 = UnicodeDecodeError
      /\ forall data, json_load R input_file Utf8Sig <> Loaded data) ->
  export_threads R input_file max_threads max_messages_per_file w
  = (Ok None, w).
Proof.
  intros [H|[H1 H2]]; unfold export_threads, load_input.
  - by rewrite H.
  - rewrite H1. destruct (json_load R input_file Utf8Sig) eqn:E; try done.
    by destruct (H2 data).
Qed.

Lemma unparsable_input_witness :
  export_threads (example_runtime JSONDecodeError) (lit "chat.json")
                 (Some 5) None empty_world
  = (Ok None, empty_world).
Proof.
  apply (unparsable_input_returns_none (example_runtime JSONDecodeError)).
  left. reflexivity.
Defined.

(** ** The loop over the threads *)

Section Loop.

Variable R : runtime.
Variable folder : pystr.
Variables max_threads max_messages_per_file : option Z.

Lemma getsize_written p text w :
  getsize R p (write_file p text w) = Ok (stored_size R text).
Proof. unfold getsize, write_file. simpl. by rewrite lookup_insert_eq. Qed.

Lemma append_lines_one p chunk w :
  open_error R p = None ->
  utf8_encodable chunk = true ->
  append_lines R p [chunk] w = (None, append_file p chunk w).
Proof.
  intros Hopen Hc. unfold append_lines. rewrite Hopen.
  cbn [write_all]. rewrite Hc. by rewrite List.app_nil_r.
Qed.

(** One pass through the body for a thread that is exported. *)
Lemma thread_step_exported thread_idx th title msgs t w :
  thread_limit_hit max_threads thread_idx = false ->
  thread_title thread_idx th = VStr title ->
  extract_messages R th = Ok msgs ->
  thread_written R folder max_messages_per_file thread_idx th title msgs ->
  let row := thread_row R max_messages_per_file thread_idx th title msgs in
  thread_step R folder max_threads max_messages_per_file
              thread_idx (VDict th) t w
  = (Next (add_row t row),
     append_file (path_join folder index_name) (index_row R row)
       (write_file (path_join folder (st_filename row))
          (thread_document R max_messages_per_file thread_idx th title msgs)
          w)).
Proof.
  intros Hlim Htitle Hmsgs (Hopen & Hdoc & Hindex & Hrow). unfold thread_step.
  rewrite Hlim. fold (thread_title thread_idx th). rewrite Htitle.
  cbn [sanitize_title]. cbn [st_filename thread_row] in Hopen. rewrite Hopen.
  destruct (thread_writes_text R max_messages_per_file thread_idx th title msgs)
    as [Htext Hcount].
  rewrite <- Htext, <- thread_header_lines_text, utf8_encodable_app in Hdoc.
  apply andb_true_iff in Hdoc as [Hhead Hbody].
  rewrite (write_all_encodable _ Hhead), Hmsgs.
  destruct (turn_writes R max_messages_per_file _ 0 (sort_messages R msgs))
    as [turns k] eqn:Hturns.
  cbn [fst snd] in *.
  rewrite (write_all_encodable _ Hbody), getsize_written.
  rewrite thread_header_lines_text, Htext. subst k.
  by rewrite append_lines_one.
Qed.

(** A pass through the body that goes on to the next thread has skipped
    an entry that is no object, or exported a thread the file system took. *)
Lemma thread_step_next thread_idx thread t w t' w' :
  thread_step R folder max_threads max_messages_per_file
              thread_idx thread t w = (Next t', w') ->
  thread_limit_hit max_threads thread_idx = false
  /\ ((is_dict thread = false /\ t' = t /\ w' = w)
      \/ exists th title msgs,
           thread = VDict th
           /\ thread_title thread_idx th = VStr title
           /\ extract_messages R th = Ok msgs
           /\ thread_written R folder max_messages_per_file
                             thread_idx th title msgs).
Proof.
  unfold thread_step.
  destruct (thread_limit_hit max_threads thread_idx) eqn:Hlim; [done|].
  intros Hstep. split; [done|].
  destruct thread as [| | | | | |th];
    try (left; injection Hstep as <- <-; done).
  right. fold (thread_title thread_idx th) in Hstep.
  destruct (thread_title thread_idx th) as [| | | |title| |] eqn:Htitle;
    cbn [sanitize_title] in Hstep; try done.
  destruct (open_error R _) eqn:Hopen; [done|].
  destruct (write_all_cases
              (thread_header_lines R title (dict_get (lit "id") th (VStr []))
                 (dict_get (lit "inserted_at") th (VStr []))
                 (thread_filename thread_idx (sanitize_filename title true))))
    as [[Hhead Hw]|(_ & text & Hw & _)]; rewrite Hw in Hstep; [|done].
  destruct (extract_messages R th) as [msgs|e] eqn:Hmsgs; [|done].
  destruct (thread_writes_text R max_messages_per_file thread_idx th title msgs)
    as [Htext Hcount].
  destruct (turn_writes R max_messages_per_file _ 0 (sort_messages R msgs))
    as [turns k] eqn:Hturns.
  cbn [fst snd] in *.
  destruct (write_all_cases (chat_heading :: turns ++ thread_footer_lines k))
    as [[Hbody Hw2]|(_ & text & Hw2 & _)]; rewrite Hw2 in Hstep; [|done].
  rewrite getsize_written in Hstep. unfold append_lines in Hstep.
  destruct (open_error R (path_join folder index_name)) eqn:Hindex; [done|].
  cbn [write_all] in Hstep.
  destruct (utf8_encodable (index_row R _)) eqn:Hrow; [|done].
  exists th, title, msgs. repeat split; try done.
  - rewrite <- Htext, utf8_encodable_app, <- thread_header_lines_text.
    by rewrite Hhead, Hbody.
  - cbn [st_filename thread_row st_idx st_title st_messages st_size].
    rewrite thread_header_lines_text, Htext, Hcount in Hrow. exact Hrow.
Qed.

Lemma thread_step_break thread_idx thread t w w' :
  thread_step R folder max_threads max_messages_per_file
              thread_idx thread t w = (Break, w') ->
  thread_limit_hit max_threads thread_idx = true /\ w' = w.
Proof.
  unfold thread_step.
  destruct (thread_limit_hit max_threads thread_idx); [by intros [= <-]|].
  destruct thread; try done.
  destruct (sanitize_title _) as [[? ?]|]; [|done].
  destruct (open_error R _); [done|].
  destruct (write_all _) as [? [?|]]; [done|].
  destruct (extract_messages R _); [|done].
  destruct (turn_writes _ _ _ _ _) as [? ?].
  destruct (write_all _) as [? [?|]]; [done|].
  destruct (getsize _ _ _); [|done].
  by destruct (append_lines _ _ _ _) as [[?|] ?].
Qed.

Lemma process_threads_exports thread_idx data t w t' w' :
  process_threads R folder max_threads max_messages_per_file
                  thread_idx data t w = (Ok t', w') ->
  exists rows,
    exports R folder max_threads max_messages_per_file thread_idx data w rows w'
    /\ stats t' = stats t ++ rows
    /\ total_threads t' = (total_threads t + length rows)%nat
    /\ total_messages t' = (total_messages t + sum_messages rows)%nat.
Proof.
  revert thread_idx t w. induction data as [|thread rest IH]; intros idx t w.
  - intros [= <- <-]. exists []. rewrite List.app_nil_r; simpl.
    repeat split; [constructor | lia..].
  - cbn [process_threads].
    destruct (thread_step R folder max_threads max_messages_per_file
                          idx thread t w) as [[t1| |e] w1] eqn:Hstep.
    + pose proof Hstep as Hnext. apply thread_step_next in Hnext
        as [Hlim [(Hnd & -> & ->)
                 |(th & title & msgs & -> & Htitle & Hmsgs & Hio)]].
      * intros H. destruct (IH _ _ _ H) as (rows & Hrun & Hst & Htt & Htm).
        exists rows. repeat split; try done. by constructor.
      * rewrite (thread_step_exported idx th title msgs t w
                   Hlim Htitle Hmsgs Hio) in Hstep.
        cbv zeta in Hstep. injection Hstep as <- <-. intros H.
        destruct (IH _ _ _ H) as (rows & Hrun & Hst & Htt & Htm).
        exists (thread_row R max_messages_per_file idx th title msgs :: rows).
        split; [by econstructor|]. simpl in *.
        rewrite Hst, Htt, Htm, <- app_assoc. repeat split; [done | lia..].
    + apply thread_step_break in Hstep as [Hlim ->]. intros [= <- <-].
      exists []. rewrite List.app_nil_r; simpl.
      repeat split; [by constructor | lia..].
    + done.
Qed.

End Loop.

(** ** File names *)

Lemma chars_uint_chars u : chars_uint (uint_chars u) = u.
Proof. induction u; simpl; by rewrite ?IHu. Qed.

Lemma uint_chars_digits u : Forall (fun c => is_ascii_digit c = true) (uint_chars u).
Proof. induction u; simpl; by constructor. Qed.

Lemma chars_uint_zeros k s :
  Nat.of_uint (chars_uint (replicate k 48%N ++ s)) = Nat.of_uint (chars_uint s).
Proof. induction k as [|k IH]; simpl; [done|]. exact IH. Qed.

(** The position can be read back from its zero-padded rendering. *)
Lemma dec03_parse n : Nat.of_uint (chars_uint (dec03 n)) = n.
Proof.
  unfold dec03, dec. rewrite chars_uint_zeros, chars_uint_chars.
  apply DecimalNat.Unsigned.of_to.
Qed.

Lemma dec03_inj i j : dec03 i = dec03 j -> i = j.
Proof. intros H. by rewrite <- (dec03_parse i), H, dec03_parse. Qed.

Lemma dec03_digits n : Forall (fun c => is_ascii_digit c = true) (dec03 n).
Proof.
  unfold dec03, dec. apply Forall_app. split; [|apply uint_chars_digits].
  by apply Forall_replicate.
Qed.

Lemma dec03_length n : (3 <= length (dec03 n))%nat.
Proof. unfold dec03. rewrite length_app, length_replicate. lia. Qed.

Lemma leading_digits_app d c rest :
  Forall (fun c => is_ascii_digit c = true) d ->
  is_ascii_digit c = false ->
  leading_digits (d ++ c :: rest) = d.
Proof.
  intros Hd Hc. induction Hd as [|x d Hx Hd IH]; simpl; [by rewrite Hc|].
  by rewrite Hx, IH.
Qed.

Lemma leading_digits_thread_filename thread_idx safe_title :
  leading_digits (thread_filename thread_idx safe_title) = dec03 thread_idx.
Proof.
  unfold thread_filename. simpl.
  apply leading_digits_app; [apply dec03_digits | done].
Qed.

(** Two positions never share a file name, whatever the titles. *)
Lemma thread_filename_inj i j a b :
  thread_filename i a = thread_filename j b -> i = j.
Proof.
  intros H. apply dec03_inj.
  by rewrite <- (leading_digits_thread_filename i a), H,
       leading_digits_thread_filename.
Qed.

Lemma thread_filename_not_index thread_idx safe_title :
  thread_filename thread_idx safe_title <> index_name.
Proof.
  intros H. pose proof (dec03_length thread_idx) as Hlen.
  rewrite <- (leading_digits_thread_filename thread_idx safe_title), H in Hlen.
  vm_compute in Hlen. lia.
Qed.

Lemma path_join_relative a b c rest :
  b = c :: rest -> c <> ch_slash -> path_join a b = join_prefix a ++ b.
Proof.
  intros -> Hc. unfold path_join, join_prefix.
  apply N.eqb_neq in Hc. rewrite Hc.
  destruct (last a) as [e|]; [|done].
  destruct (e =? ch_slash)%N; [done|]. by rewrite <- app_assoc.
Qed.

Lemma thread_filename_relative thread_idx safe_title :
  exists c rest,
    thread_filename thread_idx safe_title = c :: rest /\ c <> ch_slash.
Proof.
  pose proof (dec03_digits thread_idx) as Hd.
  pose proof (dec03_length thread_idx) as Hl.
  unfold thread_filename. destruct (dec03 thread_idx) as [|c d]; simpl in *; [lia|].
  exists c, (d ++ ch_underscore :: safe_title ++ lit ".md"). split; [done|].
  apply Forall_cons in Hd as [Hc _]. intros ->. done.
Qed.

Lemma path_join_thread_filename a thread_idx safe_title :
  path_join a (thread_filename thread_idx safe_title)
  = join_prefix a ++ thread_filename thread_idx safe_title.
Proof.
  destruct (thread_filename_relative thread_idx safe_title) as (c & rest & H & Hc).
  by eapply path_join_relative.
Qed.

Lemma path_join_index a : path_join a index_name = join_prefix a ++ index_name.
Proof. by eapply path_join_relative. Qed.

(** The path of a thread file differs from the path of the index and
    from the path of the thread file of any other position. *)
Lemma thread_path_not_index a thread_idx safe_title :
  path_join a (thread_filename thread_idx safe_title)
  <> path_join a index_name.
Proof.
  rewrite path_join_thread_filename, path_join_index.
  intros H. apply app_inv_head in H. by apply thread_filename_not_index in H.
Qed.

Lemma thread_path_inj folder i j a b :
  path_join folder (thread_filename i a) = path_join folder (thread_filename j b) ->
  i = j.
Proof.
  rewrite !path_join_thread_filename. intros H.
  apply app_inv_head in H. by apply thread_filename_inj in H.
Qed.

Section Rows.

Variable R : runtime.
Variable folder : pystr.
Variables max_threads max_messages_per_file : option Z.

Local Abbreviation exports := (exports R folder max_threads max_messages_per_file).
Local Abbreviation index_path := (path_join folder index_name).

Lemma thread_limit_hit_later i j :
  (i <= j)%nat ->
  thread_limit_hit max_threads i = true ->
  thread_limit_hit max_threads j = true.
Proof.
  unfold thread_limit_hit. destruct max_threads as [m|]; [|done].
  intros Hij H. apply andb_true_iff in H as [-> H]. simpl.
  apply Z.ltb_lt in H. apply Z.ltb_lt. lia.
Qed.

Lemma row_of_shift idx thread rest s :
  row_of R max_threads max_messages_per_file (S idx) rest s ->
  row_of R max_threads max_messages_per_file idx (thread :: rest) s.
Proof.
  intros (th & title & msgs & Hle & Hat & H).
  exists th, title, msgs. split; [lia|]. split; [|done].
  replace (st_idx s - idx)%nat with (S (st_idx s - S idx)) by lia. done.
Qed.

Lemma files_write_file p text w q :
  files (write_file p text w) !! q
  = if decide (p = q) then Some text else files w !! q.
Proof. unfold write_file. simpl. apply lookup_insert. Qed.

Lemma files_append_file p text w q :
  files (append_file p text w) !! q
  = if decide (p = q) then Some (default [] (files w !! p) ++ text)
    else files w !! q.
Proof. unfold append_file. simpl. apply lookup_insert. Qed.

(** Every row is the row of a thread of the data, and the rows come in
    the order of their positions. *)
Lemma exports_rows idx data w rows w' :
  exports idx data w rows w' ->
  Forall (row_of R max_threads max_messages_per_file idx data) rows
  /\ StronglySorted (fun a b => (st_idx a < st_idx b)%nat) rows.
Proof.
  induction 1 as [idx w|idx thread rest w Hlim
                  |idx thread rest w rows w' Hlim Hnd Hrun [IHrows IHsorted]
                  |idx th rest w title msgs rows w' Hlim Htitle Hmsgs row Hrun
                     [IHrows IHsorted]].
  - split; constructor.
  - split; constructor.
  - split; [|done]. eapply Forall_impl; [exact IHrows|].
    intros s. apply row_of_shift.
  - split.
    + constructor.
      * exists th, title, msgs. subst row. simpl.
        rewrite Nat.sub_diag. repeat split; done.
      * eapply Forall_impl; [exact IHrows|]. intros s. apply row_of_shift.
    + constructor; [done|].
      eapply Forall_impl; [exact IHrows|].
      intros s (_ & _ & _ & Hle & _). subst row. simpl. lia.
Qed.

(** Every thread that is an object, at a position within the limit, has
    its row. *)
Lemma exports_complete idx data w rows w' i th :
  exports idx data w rows w' ->
  data !! i = Some (VDict th) ->
  thread_limit_hit max_threads (idx + i) = false ->
  exists s, s ∈ rows /\ st_idx s = (idx + i)%nat.
Proof.
  intros Hrun. revert i.
  induction Hrun as [idx w|idx thread rest w Hlim
                     |idx thread rest w rows w' Hlim Hnd Hrun IH
                     |idx th' rest w title msgs rows w' Hlim Htitle Hmsgs row
                        Hrun IH]; intros i Hat Hi.
  - done.
  - rewrite (thread_limit_hit_later idx (idx + i)) in Hi; [done | lia | done].
  - destruct i as [|i]; simpl in Hat.
    + injection Hat as ->. done.
    + destruct (IH i Hat) as (s & Hs & Hidx).
      { by replace (S idx + i)%nat with (idx + S i)%nat by lia. }
      exists s. split; [done | lia].
  - destruct i as [|i]; simpl in Hat.
    + exists row. split; [by left|]. subst row. simpl. lia.
    + destruct (IH i Hat) as (s & Hs & Hidx).
      { by replace (S idx + i)%nat with (idx + S i)%nat by lia. }
      exists s. split; [by right | lia].
Qed.

Lemma row_path_not_index idx data s :
  row_of R max_threads max_messages_per_file idx data s ->
  path_join folder (st_filename s) <> index_path.
Proof.
  intros (th & title & msgs & _ & _ & _ & _ & _ & ->). simpl.
  apply thread_path_not_index.
Qed.

Lemma row_path_inj idx data a b :
  row_of R max_threads max_messages_per_file idx data a ->
  row_of R max_threads max_messages_per_file idx data b ->
  path_join folder (st_filename a) = path_join folder (st_filename b) ->
  st_idx a = st_idx b.
Proof.
  intros (tha & ta & ma & _ & _ & _ & _ & _ & Ha)
         (thb & tb & mb & _ & _ & _ & _ & _ & Hb).
  rewrite Ha, Hb. simpl. apply thread_path_inj.
Qed.

Lemma row_file_shift idx thread rest w s :
  (S idx <= st_idx s)%nat ->
  row_file R max_messages_per_file folder (S idx) rest w s ->
  row_file R max_messages_per_file folder idx (thread :: rest) w s.
Proof.
  intros Hle (th & title & msgs & Hat & H).
  exists th, title, msgs. split; [|done].
  replace (st_idx s - idx)%nat with (S (st_idx s - S idx)) by lia. done.
Qed.

(** What the loop does to the file system: it appends the rows to the
    index, writes the file of each row, and touches nothing else. *)
Lemma exports_files idx data w rows w' :
  exports idx data w rows w' ->
  dirs w' = dirs w
  /\ (forall text,
        files w !! index_path = Some text ->
        files w' !! index_path
        = Some (text ++ concat (map (index_row R) rows)))
  /\ (forall p,
        p <> index_path ->
        (forall s, s ∈ rows -> p <> path_join folder (st_filename s)) ->
        files w' !! p = files w !! p)
  /\ Forall (row_file R max_messages_per_file folder idx data w') rows.
Proof.
  intros Hrun. pose proof (exports_rows _ _ _ _ _ Hrun) as [Hrows Hsorted].
  induction Hrun as [idx w|idx thread rest w Hlim
                     |idx thread rest w rows w' Hlim Hnd Hrun IH
                     |idx th rest w title msgs rows w' Hlim Htitle Hmsgs row
                        Hrun IH].
  - split; [done|].
    split; [intros text ->; simpl; by rewrite List.app_nil_r|].
    split; [done | constructor].
  - split; [done|].
    split; [intros text ->; simpl; by rewrite List.app_nil_r|].
    split; [done | constructor].
  - pose proof (exports_rows _ _ _ _ _ Hrun) as [Hrows' _].
    destruct (IH Hrows' Hsorted) as (Hd & Hi & Hf & Hr).
    repeat split; try done.
    apply Forall_forall. intros s Hs.
    rewrite Forall_forall in Hr, Hrows'.
    apply row_file_shift; [|by apply Hr].
    by destruct (Hrows' s Hs) as (_ & _ & _ & Hle & _).
  - pose proof (exports_rows _ _ _ _ _ Hrun) as [Hrows' Hsorted'].
    destruct (IH Hrows' Hsorted') as (Hd & Hi & Hf & Hr). clear IH.
    apply Forall_cons in Hrows as [Hrow _].
    pose proof (row_path_not_index _ _ _ Hrow) as Hnot.
    assert (Hlater : forall s, s ∈ rows ->
              path_join folder (st_filename row)
              <> path_join folder (st_filename s)).
    { intros s Hs Heq.
      apply StronglySorted_inv in Hsorted as [_ Hlt].
      rewrite Forall_forall in Hlt. specialize (Hlt s Hs).
      rewrite Forall_forall in Hrows'.
      apply (row_path_inj idx (VDict th :: rest)) in Heq;
        [lia | done | by apply row_of_shift, Hrows']. }
    repeat split.
    + by rewrite Hd.
    + intros text Htext. rewrite (Hi (text ++ index_row R row)).
      * simpl. by rewrite <- app_assoc.
      * rewrite files_append_file, files_write_file.
        repeat case_decide; rewrite ?Htext; try done.
    + intros p Hp Hrowsp. rewrite Hf; [|done|].
      * rewrite files_append_file, !files_write_file.
        destruct (decide (index_path = p)) as [<-|_]; [done|].
        destruct (decide (path_join folder (st_filename row) = p))
          as [<-|_]; [|done].
        exfalso. apply (Hrowsp row); [by left | done].
      * intros s Hs. apply Hrowsp. by right.
    + constructor.
      * exists th, title, msgs. subst row. simpl. rewrite Nat.sub_diag.
        repeat split; try done.
        rewrite Hf; [|done|exact Hlater].
        rewrite files_append_file, !files_write_file.
        repeat case_decide; done.
      * apply Forall_forall. intros s Hs.
        rewrite Forall_forall in Hr, Hrows'.
        apply row_file_shift; [|by apply Hr].
        by destruct (Hrows' s Hs) as (_ & _ & _ & Hle & _).
Qed.

End Rows.

Lemma sorted_rows_distinct (rows : list stat) :
  StronglySorted (fun a b => (st_idx a < st_idx b)%nat) rows ->
  Forall (fun s => exists safe, st_filename s = thread_filename (st_idx s) safe)
         rows ->
  NoDup (map st_filename rows).
Proof.
  induction 1 as [|s rows Hsorted IH Hlt]; intros Hnames; simpl.
  - constructor.
  - apply Forall_cons in Hnames as [[safe Hs] Hnames].
    constructor; [|by apply IH].
    intros Hin. apply list_elem_of_In, in_map_iff in Hin as (s' & Heq & Hin').
    apply list_elem_of_In in Hin'.
    rewrite Forall_forall in Hlt, Hnames.
    destruct (Hnames s' Hin') as [safe' Hs'].
    rewrite Hs, Hs' in Heq. apply thread_filename_inj in Heq.
    specialize (Hlt s' Hin'). lia.
Qed.

(** C10: the file name of a thread starts with its position, written
    with at least three digits, so the file names of two positions differ
    whatever the titles, and none is the name of the index; the rows of a
    run of the loop over the threads, one per position, carry pairwise
    distinct file names, none of them the name of the index. *)
Theorem thread_filenames_distinct (R : runtime) (folder : pystr)
    (max_threads max_messages_per_file : option Z) (data : list value)
    (w : world) :
  (forall safe_title,
     thread_filename 1 safe_title = lit "001_" ++ safe_title ++ lit ".md")
  /\ (forall i j a b, thread_filename i a = thread_filename j b -> i = j)
  /\ (forall i a, thread_filename i a <> index_name)
  /\ (forall t' w',
        process_threads R folder max_threads max_messages_per_file
                        1 data no_totals w = (Ok t', w') ->
        NoDup (map st_filename (stats t'))
        /\ (index_name ∉ map st_filename (stats t'))
        /\ Forall (fun s =>
                     (1 <= st_idx s)%nat
                     /\ st_filename s
                        = thread_filename (st_idx s)
                            (sanitize_filename (st_title s) true))
                  (stats t')).
Proof.
  split; [done|]. split; [apply thread_filename_inj|].
  split; [apply thread_filename_not_index|].
  intros t' w' Hloop.
  apply process_threads_exports in Hloop as (rows & Hrun & Hst & _).
  simpl in Hst. rewrite Hst. clear Hst.
  destruct (exports_rows _ _ _ _ _ _ _ _ _ Hrun) as [Hrows Hsorted].
  assert (Hnames : Forall (fun s =>
                     (1 <= st_idx s)%nat
                     /\ st_filename s
                        = thread_filename (st_idx s)
                            (sanitize_filename (st_title s) true)) rows).
  { eapply Forall_impl; [exact Hrows|].
    intros s (th & title & msgs & Hle & _ & _ & _ & _ & Hs).
    split; [done|]. rewrite Hs at 1 3. done. }
  split; [|split; [|done]].
  - apply sorted_rows_distinct; [done|].
    eapply Forall_impl; [exact Hnames|]. intros s [_ Hs]. eauto.
  - intros Hin. apply list_elem_of_In, in_map_iff in Hin as (s & Heq & Hin).
    apply list_elem_of_In in Hin. rewrite Forall_forall in Hnames.
    destruct (Hnames s Hin) as [_ Hs]. rewrite Hs in Heq.
    by apply thread_filename_not_index in Heq.
Qed.

(** Two threads with the same sanitized title get the files
    [001_A_B.md] and [002_A_B.md]. *)
Lemma twin_threads_witness :
  exists t' w',
    process_threads plain_runtime sample_folder None None 1 twin_threads
                    no_totals empty_world = (Ok t', w')
    /\ map st_filename (stats t') = [lit "001_A_B.md"; lit "002_A_B.md"]
    /\ NoDup (map st_filename (stats t')).
Proof.
  destruct (process_threads plain_runtime sample_folder None None 1
              twin_threads no_totals empty_world) as [[t'|e] w'] eqn:Hloop;
    [|vm_compute in Hloop; discriminate].
  exists t', w'. split; [done|]. split.
  - vm_compute in Hloop. injection Hloop as <- _. reflexivity.
  - exact (proj1 (proj2 (proj2 (proj2
      (thread_filenames_distinct plain_runtime sample_folder None None
         twin_threads empty_world))) t' w' Hloop)).
Defined.

(** ** The whole export *)

Lemma total_size_sum rows : total_size rows = sum_sizes rows.
Proof.
  unfold total_size.
  assert (H : forall acc,
            fold_left (fun acc s => (acc + st_size s)%N) rows acc
            = (acc + sum_sizes rows)%N); [|by rewrite H].
  induction rows as [|s rows IH]; intros acc; simpl; [lia|].
  rewrite IH. lia.
Qed.

Lemma largest_of_spec first rest :
  largest_of first rest ∈ first :: rest
  /\ Forall (fun s => (st_size s <= st_size (largest_of first rest))%N)
            (first :: rest).
Proof.
  unfold largest_of. revert first.
  induction rest as [|x rest IH]; intros first; simpl.
  - split; [by left | by repeat constructor].
  - destruct (N.ltb_spec (st_size first) (st_size x)) as [Hlt|Hge].
    + destruct (IH x) as [Hin Hall]. split.
      * by right.
      * apply Forall_cons in Hall as [Hx Hrest].
        repeat constructor; [lia | done..].
    + destruct (IH first) as [Hin Hall]. split.
      * apply elem_of_cons in Hin as [->|Hin]; [by left | by do 2 right].
      * apply Forall_cons in Hall as [Hf Hrest].
        repeat constructor; [done | lia | done].
Qed.

Lemma smallest_of_spec first rest :
  smallest_of first rest ∈ first :: rest
  /\ Forall (fun s => (st_size (smallest_of first rest) <= st_size s)%N)
            (first :: rest).
Proof.
  unfold smallest_of. revert first.
  induction rest as [|x rest IH]; intros first; simpl.
  - split; [by left | by repeat constructor].
  - destruct (N.ltb_spec (st_size x) (st_size first)) as [Hlt|Hge].
    + destruct (IH x) as [Hin Hall]. split.
      * by right.
      * apply Forall_cons in Hall as [Hx Hrest].
        repeat constructor; [lia | done..].
    + destruct (IH first) as [Hin Hall]. split.
      * apply elem_of_cons in Hin as [->|Hin]; [by left | by do 2 right].
      * apply Forall_cons in Hall as [Hf Hrest].
        repeat constructor; [done | lia | done].
Qed.

(** A call that returns a folder has read the document, run the loop over
    its threads to the end and completed the index. *)
Lemma export_threads_returns R input_file max_threads max_messages_per_file
    w folder w' :
  export_threads R input_file max_threads max_messages_per_file w
  = (Ok (Some folder), w') ->
  exists data rows w0 w1,
    load_input R input_file = Ok (Some data)
    /\ folder = export_folder R input_file
    /\ exports R folder max_threads max_messages_per_file 1 (threads_of data)
         (write_file (path_join folder index_name)
            (index_header R input_file (length (threads_of data))) w0)
         rows w1
    /\ w' = append_file (path_join folder index_name)
              (index_footer R folder (totals_of rows)) w1.
Proof.
  unfold export_threads.
  destruct (load_input R input_file) as [[data|]|] eqn:Hload; try done.
  fold (threads_of data).
  replace (match data with VList l => length l | _ => 1%nat end)
    with (length (threads_of data)) by (by destruct data).
  destruct (create_thread_folder R _ w) as [[folder0|e] w0] eqn:Hfolder;
    [|done].
  assert (folder0 = export_folder R input_file) as ->.
  { destruct (create_thread_folder_cases R
                (lit "deepseek_" ++ path_stem R input_file) w)
      as [[_ H]|[(_ & _ & H)|(_ & e & _ & H)]]; cbv zeta in H;
      rewrite Hfolder in H; by try injection H as -> _. }
  destruct (write_lines R _ _ w0) as [[e|] w2] eqn:Hhead; [done|].
  apply write_lines_done in Hhead as (_ & _ & ->).
  rewrite index_header_lines_text.
  destruct (process_threads _ _ _ _ _ _ _ _) as [[t|e] w1] eqn:Hloop; [|done].
  destruct (append_lines R _ _ w1) as [[e|] w3] eqn:Hfoot; [done|].
  apply append_lines_done in Hfoot as (_ & _ & ->).
  intros [= <- <-].
  apply process_threads_exports in Hloop as (rows & Hrun & Hst & Htt & Htm).
  exists data, rows, w0, w1. repeat split; try done.
  replace t with (totals_of rows); [done|].
  destruct t; simpl in *. unfold totals_of. by rewrite Hst, Htt, Htm.
Qed.

(** When the export returns, the file of every thread that is an object,
    at a position within the limit, holds the document of that thread. *)
Lemma export_threads_documents R input_file max_threads max_messages_per_file
    w folder w' :
  export_threads R input_file max_threads max_messages_per_file w
  = (Ok (Some folder), w') ->
  exists data,
    load_input R input_file = Ok (Some data)
    /\ forall i th,
         threads_of data !! i = Some (VDict th) ->
         thread_limit_hit max_threads (S i) = false ->
         exists title msgs,
           thread_title (S i) th = VStr title
           /\ extract_messages R th = Ok msgs
           /\ files w' !! path_join folder
                             (thread_filename (S i)
                                (sanitize_filename title true))
              = Some (thread_document R max_messages_per_file (S i) th
                                      title msgs).
Proof.
  intros Hrun.
  apply export_threads_returns in Hrun
    as (data & rows & w0 & w1 & Hload & -> & Hloop & ->).
  set (folder := export_folder R input_file) in *.
  exists data. split; [done|]. intros i th Hat Hlim.
  destruct (exports_rows _ _ _ _ _ _ _ _ _ Hloop) as [Hrows _].
  destruct (exports_files _ _ _ _ _ _ _ _ _ Hloop) as (_ & _ & _ & Hfiles).
  destruct (exports_complete _ _ _ _ _ _ _ _ _ i th Hloop Hat Hlim)
    as (s & Hs & Hidx).
  rewrite Forall_forall in Hrows, Hfiles.
  pose proof (Hrows s Hs) as Hrow.
  destruct Hrow as (th' & title & msgs & _ & Hat' & _ & Htitle & Hmsgs & Hrow).
  destruct (Hfiles s Hs) as (th2 & title2 & msgs2 & Hat2 & Ht2 & Hm2 & Hfile & _).
  simpl in Hidx. rewrite Hidx in *.
  replace (S i - 1)%nat with i in * by lia.
  assert (th' = th) as -> by congruence.
  assert (th2 = th) as -> by congruence.
  assert (title2 = title) as -> by congruence.
  assert (msgs2 = msgs) as -> by congruence.
  exists title, msgs. split; [done|]. split; [done|].
  rewrite files_append_file. rewrite decide_False.
  - rewrite Hrow in Hfile. cbn [st_filename thread_row] in Hfile. exact Hfile.
  - intros Heq. eapply row_path_not_index; [by apply Hrows|].
    rewrite Hrow. cbn [st_filename thread_row]. done.
Qed.

(** C5: when [export_threads] returns, the index holds its header, then
    one row per exported thread (each thread of the document that is an
    object at a position within the limit, in order), then the totals.
    A row reads [| position | [file](./file) | title | messages | size KB |]
    with the file name, title, number of messages and size of that
    thread's file. The totals give the number of rows, the sum of their
    message counts and the sum of their sizes. The lines on the largest
    and the smallest file are written exactly when there is a row, and
    name the file and the size of a row of the largest and of a row of the
    smallest size. *)
Theorem index_document_complete (R : runtime) (input_file : pystr)
    (max_threads max_messages_per_file : option Z) (w : world)
    (folder : pystr) (w' : world) :
  export_threads R input_file max_threads max_messages_per_file w
  = (Ok (Some folder), w') ->
  exists data rows,
    load_input R input_file = Ok (Some data)
    /\ Forall (row_of R max_threads max_messages_per_file 1 (threads_of data))
              rows
    /\ StronglySorted (fun a b => (st_idx a < st_idx b)%nat) rows
    /\ (forall i th,
          threads_of data !! i = Some (VDict th) ->
          thread_limit_hit max_threads (S i) = false ->
          exists s, s ∈ rows /\ st_idx s = S i)
    /\ Forall (row_file R max_messages_per_file folder 1 (threads_of data) w')
              rows
    /\ files w' !! path_join folder index_name
       = Some ((lit "# DeepSeek Chat Export" ++ [10; 10]%N
                ++ lit "**Quelldatei:** `" ++ input_file ++ lit "`" ++ [10%N]
                ++ lit "**Export-Datum:** " ++ now_index R ++ [10%N]
                ++ lit "**Anzahl Threads:** "
                ++ dec (length (threads_of data)) ++ [10; 10]%N
                ++ lit "## Thread-" ++ [220%N] ++ lit "bersicht"
                ++ [10; 10]%N
                ++ lit "| Nr. | Datei | Titel | Nachrichten | Gr"
                ++ [246; 223]%N ++ lit "e |" ++ [10%N]
                ++ lit "|-----|-------|-------|-------------|-------|"
                ++ [10%N])
               ++ concat
                    (map (fun s =>
                            lit "| " ++ dec (st_idx s)
                            ++ lit " | [" ++ st_filename s
                            ++ lit "](./" ++ st_filename s
                            ++ lit ") | " ++ st_title s
                            ++ lit " | " ++ dec (st_messages s)
                            ++ lit " | " ++ fmt_kb R (st_size s)
                            ++ lit " KB |" ++ [10%N])
                         rows)
               ++ concat (index_footer_lines R folder (totals_of rows)))
    /\ index_footer_lines R folder (totals_of rows)
       = [ [10%N] ++ lit "## Gesamtstatistik" ++ [10%N];
           lit "- **Exportierte Threads:** " ++ dec (length rows) ++ [10%N];
           lit "- **Gesamtnachrichten:** " ++ dec (sum_messages rows)
           ++ [10%N] ]
         ++ match rows with
            | [] => []
            | _ :: _ =>
                [ lit "- **Durchschnitt pro Thread:** "
                  ++ fmt_ratio R (sum_messages rows) (length rows)
                  ++ lit " Nachrichten" ++ [10%N] ]
            end
         ++ [ lit "- **Gesamtgr" ++ [246; 223]%N ++ lit "e:** "
              ++ fmt_mb R (sum_sizes rows) ++ lit " MB" ++ [10%N] ]
         ++ match rows with
            | [] => []
            | first :: rest =>
                [ lit "- **Gr" ++ [246; 223]%N ++ lit "te Datei:** "
                  ++ st_filename (largest_of first rest)
                  ++ lit " (" ++ fmt_kb R (st_size (largest_of first rest))
                  ++ lit " KB)" ++ [10%N];
                  lit "- **Kleinste Datei:** "
                  ++ st_filename (smallest_of first rest)
                  ++ lit " (" ++ fmt_kb R (st_size (smallest_of first rest))
                  ++ lit " KB)" ++ [10%N] ]
            end
         ++ [ [10%N] ++ lit "**Ordner:** `" ++ folder ++ lit "`" ++ [10%N];
              lit "**Index:** [00_INDEX.md](./00_INDEX.md)" ++ [10%N] ]
    /\ (forall first rest,
          rows = first :: rest ->
          largest_of first rest ∈ rows
          /\ smallest_of first rest ∈ rows
          /\ forall s,
               s ∈ rows ->
               (st_size (smallest_of first rest) <= st_size s
                <= st_size (largest_of first rest))%N).
Proof.
  intros Hrun.
  apply export_threads_returns in Hrun
    as (data & rows & w0 & w1 & Hload & -> & Hloop & ->).
  set (folder := export_folder R input_file) in *.
  destruct (exports_rows _ _ _ _ _ _ _ _ _ Hloop) as [Hrows Hsorted].
  destruct (exports_files _ _ _ _ _ _ _ _ _ Hloop) as (_ & Hindex & _ & Hfiles).
  exists data, rows. split; [done|]. split; [done|]. split; [done|].
  split.
  { intros i th Hat Hlim.
    by apply (exports_complete _ _ _ _ _ _ _ _ _ i th Hloop). }
  split.
  { rewrite Forall_forall in Hfiles, Hrows. apply Forall_forall. intros s Hs.
    destruct (Hfiles s Hs) as (th & title & msgs & Hat & Ht & Hm & Hfile & Hsize).
    exists th, title, msgs. repeat split; try done.
    rewrite files_append_file. rewrite decide_False; [done|].
    intros Heq. eapply row_path_not_index; [by apply Hrows | done]. }
  split.
  { change (files
              (append_file (path_join folder index_name)
                 (index_footer R folder (totals_of rows)) w1)
            !! path_join folder index_name
            = Some (index_header R input_file (length (threads_of data))
                    ++ concat (map (index_row R) rows)
                    ++ index_footer R folder (totals_of rows))).
    rewrite files_append_file, decide_True by done.
    rewrite (Hindex (index_header R input_file (length (threads_of data)))).
    - cbn [default from_option id]. by rewrite <- app_assoc.
    - rewrite files_write_file. by rewrite decide_True. }
  split.
  { unfold index_footer_lines, totals_of. cbn [total_threads total_messages stats].
    rewrite total_size_sum. unfold extreme_line, largest_label, smallest_label.
    destruct rows; cbn [Nat.ltb Nat.leb length]; by rewrite <- ?app_assoc. }
  intros first rest ->.
  destruct (largest_of_spec first rest) as [Hl Hlall].
  destruct (smallest_of_spec first rest) as [Hs Hsall].
  split; [done|]. split; [done|].
  intros s Hin. rewrite Forall_forall in Hlall, Hsall.
  split; [by apply Hsall | by apply Hlall].
Qed.

Lemma sample_export_returns :
  export_threads sample_runtime (lit "in.json") None None empty_world
  = (Ok (Some sample_folder), sample_world).
Proof. vm_compute. reflexivity. Defined.

(** The sample export: its index has one row, that of the second entry. *)
Lemma index_document_witness :
  exists rows,
    files sample_world !! path_join sample_folder index_name
    = Some (index_header sample_runtime (lit "in.json") 3
            ++ concat (map (index_row sample_runtime) rows)
            ++ concat (index_footer_lines sample_runtime sample_folder
                                          (totals_of rows))).
Proof.
  destruct (index_document_complete sample_runtime (lit "in.json") None None
              empty_world sample_folder sample_world sample_export_returns)
    as (data & rows & Hload & _ & _ & _ & _ & Hindex & _).
  exists rows. injection Hload as <-. exact Hindex.
Defined.

(** C7: when [export_threads] returns, the file of every exported thread
    (every thread of the document that is an object, at a position within
    the limit) holds, in this order: the level-1 heading with the title;
    the metadata with the thread id, the creation date exactly when the
    thread carries a true [inserted_at] (the date formatted by
    [strftime] when [inserted_at] is a string [fromisoformat] reads, the
    value as it is otherwise), and the file name; the section Chat-Verlauf
    with the rendered turns, and the note on the turns cut exactly when
    some were; and the statistics line with the number of turns written. *)
Theorem thread_document_layout (R : runtime) (input_file : pystr)
    (max_threads max_messages_per_file : option Z) (w : world)
    (folder : pystr) (w' : world) :
  export_threads R input_file max_threads max_messages_per_file w
  = (Ok (Some folder), w') ->
  exists data,
    load_input R input_file = Ok (Some data)
    /\ forall i th,
         threads_of data !! i = Some (VDict th) ->
         thread_limit_hit max_threads (S i) = false ->
         exists title msgs,
           thread_title (S i) th = VStr title
           /\ extract_messages R th = Ok msgs
           /\ let filename :=
                thread_filename (S i) (sanitize_filename title true) in
              let turns := thread_turns R max_messages_per_file msgs in
              let inserted_at := dict_get (lit "inserted_at") th (VStr []) in
              let created :=
                if py_truthy inserted_at then
                  lit "- Erstellt: "
                  ++ match inserted_at with
                     | VStr s =>
                         match iso_to_german R
                                 (str_replace 90%N (lit "+00:00") s) with
                         | Some formatted => formatted
                         | None => s
                         end
                     | _ => py_str R inserted_at
                     end
                  ++ [10%N]
                else [] in
              let note :=
                if decide (length turns < length (sort_messages R msgs))%nat
                then [10%N] ++ lit "> *Hinweis: "
                     ++ dec_int (Z.of_nat (length (sort_messages R msgs))
                                 - default 0 max_messages_per_file)
                     ++ lit " weitere Nachrichten gek" ++ [252%N]
                     ++ lit "rzt.*" ++ [10%N]
                else [] in
              files w' !! path_join folder filename
              = Some (lit "# " ++ title ++ [10; 10]%N
                      ++ lit "**Metadaten:**" ++ [10%N]
                      ++ lit "- Thread-ID: `"
                      ++ format_value R (dict_get (lit "id") th (VStr []))
                      ++ lit "`" ++ [10%N]
                      ++ created
                      ++ lit "- Datei: `" ++ filename ++ lit "`" ++ [10%N]
                      ++ [10%N] ++ lit "---" ++ [10; 10]%N
                      ++ lit "## Chat-Verlauf" ++ [10; 10]%N
                      ++ (concat (map (render_turn R) turns) ++ note)
                      ++ lit "---" ++ [10; 10]%N
                      ++ lit "**Statistik:** " ++ dec (length turns)
                      ++ lit " Nachrichten" ++ [10%N]).
Proof.
  intros Hrun.
  apply export_threads_documents in Hrun as (data & Hload & Hdocs).
  exists data. split; [done|]. intros i th Hat Hlim.
  destruct (Hdocs i th Hat Hlim) as (title & msgs & Htitle & Hmsgs & Hfile).
  exists title, msgs. split; [done|]. split; [done|]. cbv zeta.
  rewrite Hfile. f_equal.
  unfold thread_document, thread_header, chat_heading, thread_footer,
    thread_note, truncation_note, created_line.
  rewrite <- !app_assoc. do 7 f_equal.
  destruct (dict_get (lit "inserted_at") th (VStr []));
    by rewrite <- ?app_assoc.
Qed.

(** The sample export: the file of its one thread. *)
Lemma thread_document_witness :
  exists text,
    files sample_world !! path_join sample_folder (lit "002_My_chat_one.md")
    = Some (lit "# My chat: one" ++ [10; 10]%N ++ text).
Proof.
  destruct (thread_document_layout sample_runtime (lit "in.json") None None
              empty_world sample_folder sample_world sample_export_returns)
    as (data & Hload & Hthreads).
  injection Hload as <-.
  edestruct (Hthreads 1%nat)
    as (title & msgs & Htitle & Hmsgs & Hfile);
    [reflexivity | reflexivity |].
  injection Htitle as <-. eexists. exact Hfile.
Defined.

(** ** Malformed elements *)

Lemma for_each_app {A S} (body : A -> S -> result S) (l1 l2 : list A) (s : S) :
  for_each body (l1 ++ l2) s
  = do s' <- for_each body l1 s; for_each body l2 s'.
Proof.
  revert s. induction l1 as [|x l1 IH]; intros s; simpl; [done|].
  destruct (body x s) as [s'|e]; simpl; [apply IH | done].
Qed.

Lemma add_entry_skipped R k v all_messages :
  k = lit "root"
  \/ is_dict v = false
  \/ (exists md,
        v = VDict md /\ is_dict (dict_get (lit "message") md VNone) = false) ->
  add_entry R (k, v) all_messages = Ok all_messages.
Proof.
  intros [->|[Hv|(md & -> & Hm)]]; unfold add_entry.
  - destruct v; done.
  - destruct v; done.
  - destruct (bool_decide _); [done|].
    destruct (dict_get (lit "message") md VNone); try done;
      by destruct (negb _).
Qed.

Lemma thread_step_skipped R folder mt mm idx bad t w :
  is_dict bad = false ->
  thread_limit_hit mt idx = false ->
  thread_step R folder mt mm idx bad t w = (Next t, w).
Proof. intros Hbad Hlim. unfold thread_step. rewrite Hlim. by destruct bad. Qed.

Lemma process_threads_skipped R folder mt mm idx bad rest t w :
  is_dict bad = false ->
  process_threads R folder mt mm idx (bad :: rest) t w
  = process_threads R folder mt mm (S idx) rest t w.
Proof.
  intros Hbad. cbn [process_threads].
  destruct (thread_limit_hit mt idx) eqn:Hlim.
  - unfold thread_step at 1. rewrite Hlim.
    destruct rest as [|next rest]; [done|]. cbn [process_threads].
    unfold thread_step.
    by rewrite (thread_limit_hit_later mt idx (S idx)) by (lia || done).
  - by rewrite thread_step_skipped.
Qed.

(** *** What UTF-8 encodes *)

Lemma utf8_encodable_digits s :
  Forall (fun c => is_ascii_digit c = true) s -> utf8_encodable s = true.
Proof.
  induction 1 as [|c s Hc _ IH]; [done|].
  cbn [utf8_encodable forallb]. fold (utf8_encodable s). rewrite IH.
  unfold is_ascii_digit in Hc. apply andb_true_iff in Hc as [H1 H2].
  apply N.leb_le in H1, H2.
  destruct (N.leb_spec 55296 c); [lia|]. done.
Qed.

Lemma utf8_encodable_dec n : utf8_encodable (dec n) = true.
Proof. apply utf8_encodable_digits, uint_chars_digits. Qed.

Lemma index_header_encodable R input_file n :
  utf8_encodable input_file = true ->
  utf8_encodable (now_index R) = true ->
  utf8_encodable (index_header R input_file n) = true.
Proof.
  intros Hin Hnow. unfold index_header.
  rewrite !utf8_encodable_app, Hin, Hnow, utf8_encodable_dec.
  by vm_compute.
Qed.

(** A row that can be encoded holds a file name and a size that can. *)
Lemma index_row_encodable R s :
  utf8_encodable (index_row R s) = true ->
  utf8_encodable (st_filename s) = true
  /\ utf8_encodable (fmt_kb R (st_size s)) = true.
Proof.
  unfold index_row. rewrite !utf8_encodable_app, !andb_true_iff.
  intros H. split; tauto.
Qed.

Lemma extreme_line_encodable R label s :
  utf8_encodable label = true ->
  utf8_encodable (index_row R s) = true ->
  utf8_encodable (extreme_line R label s) = true.
Proof.
  intros Hl [Hf Hk]%index_row_encodable. unfold extreme_line.
  rewrite !utf8_encodable_app, Hl, Hf, Hk. by vm_compute.
Qed.

Lemma index_footer_encodable R folder rows :
  utf8_encodable folder = true ->
  (forall m t, utf8_encodable (fmt_ratio R m t) = true) ->
  (forall b, utf8_encodable (fmt_mb R b) = true) ->
  Forall (fun s => utf8_encodable (index_row R s) = true) rows ->
  utf8_encodable (index_footer R folder (totals_of rows)) = true.
Proof.
  intros Hfolder Hratio Hmb Hrows.
  unfold index_footer, index_footer_lines, totals_of.
  cbn [total_threads total_messages stats].
  rewrite !concat_app, !utf8_encodable_app, !andb_true_iff.
  repeat split.
  - cbn [concat]. rewrite !utf8_encodable_app, !utf8_encodable_dec.
    by vm_compute.
  - destruct (0 <? length rows)%nat; [|done]. cbn [concat].
    rewrite !utf8_encodable_app, Hratio. by vm_compute.
  - cbn [concat]. rewrite !utf8_encodable_app, Hmb. by vm_compute.
  - destruct rows as [|first rest]; [done|]. cbn [concat].
    destruct (largest_of_spec first rest) as [Hl _].
    destruct (smallest_of_spec first rest) as [Hs _].
    rewrite Forall_forall in Hrows.
    rewrite !utf8_encodable_app.
    rewrite !extreme_line_encodable by first [by apply Hrows | by vm_compute].
    done.
  - cbn [concat]. rewrite !utf8_encodable_app, Hfolder. by vm_compute.
Qed.

(** The loop over the threads runs to its end when every object among
    them, at a position within the limit, has a string for its title and a
    mapping whose turns can be collected, and the file system takes its
    file and its row; what the other entries are does not matter. *)
Lemma process_threads_completes R folder mt mm idx data t w :
  (forall i th,
     data !! i = Some (VDict th) ->
     thread_limit_hit mt (idx + i) = false ->
     exists title msgs,
       thread_title (idx + i) th = VStr title
       /\ extract_messages R th = Ok msgs
       /\ thread_written R folder mm (idx + i) th title msgs) ->
  exists t' w', process_threads R folder mt mm idx data t w = (Ok t', w').
Proof.
  revert idx t w. induction data as [|thread rest IH]; intros idx t w Hgood.
  - by exists t, w.
  - assert (Hrest : forall i th,
              rest !! i = Some (VDict th) ->
              thread_limit_hit mt (S idx + i) = false ->
              exists title msgs,
                thread_title (S idx + i) th = VStr title
                /\ extract_messages R th = Ok msgs
                /\ thread_written R folder mm (S idx + i) th title msgs).
    { intros i th Hat Hlim.
      replace (S idx + i)%nat with (idx + S i)%nat in * by lia.
      by apply Hgood. }
    cbn [process_threads].
    destruct (thread_limit_hit mt idx) eqn:Hlim.
    { unfold thread_step. rewrite Hlim. by exists t, w. }
    destruct (is_dict thread) eqn:Hd.
    + destruct thread as [| | | | | |th]; try done.
      destruct (Hgood 0%nat th) as (title & msgs & Htitle & Hmsgs & Hio);
        [done | by rewrite Nat.add_0_r |].
      rewrite Nat.add_0_r in Htitle, Hio.
      rewrite (thread_step_exported R folder mt mm idx th title msgs t w
                 Hlim Htitle Hmsgs Hio).
      by apply IH.
    + rewrite thread_step_skipped by done. by apply IH.
Qed.

(** The export returns its folder, with the index completed, when the file
    system takes the index and every thread that is exported. *)
Lemma export_threads_completes R input_file mt mm data w :
  load_input R input_file = Ok (Some data) ->
  index_written R input_file w ->
  (forall i th,
     threads_of data !! i = Some (VDict th) ->
     thread_limit_hit mt (S i) = false ->
     exists title msgs,
       thread_title (S i) th = VStr title
       /\ extract_messages R th = Ok msgs
       /\ thread_written R (export_folder R input_file) mm (S i) th
                         title msgs) ->
  exists w',
    export_threads R input_file mt mm w
    = (Ok (Some (export_folder R input_file)), w').
Proof.
  intros Hload (Hfolder & Hopen & Hin & Hnow & Henc & Hratio & Hmb) Hgood.
  set (folder := export_folder R input_file) in *.
  unfold export_threads. rewrite Hload.
  fold (threads_of data).
  replace (match data with VList l => length l | _ => 1%nat end)
    with (length (threads_of data)) by (by destruct data).
  assert (Hmk : exists w0,
            create_thread_folder R (lit "deepseek_" ++ path_stem R input_file) w
            = (Ok folder, w0)).
  { destruct (create_thread_folder_cases R
                (lit "deepseek_" ++ path_stem R input_file) w)
      as [[_ H]|[(_ & _ & H)|(Hno & e & He & _)]]; cbv zeta in *;
      [by eexists | by eexists |].
    fold (export_folder R input_file) in Hno, He. fold folder in Hno, He.
    destruct Hfolder; congruence. }
  destruct Hmk as [w0 ->].
  rewrite write_lines_accepted;
    [|done|rewrite index_header_lines_text; by apply index_header_encodable].
  rewrite index_header_lines_text.
  destruct (process_threads_completes R folder mt mm 1 (threads_of data)
              no_totals
              (write_file (path_join folder index_name)
                 (index_header R input_file (length (threads_of data))) w0))
    as (t' & w1 & Hloop); [done|].
  rewrite Hloop.
  pose proof Hloop as Hexp.
  apply process_threads_exports in Hexp as (rows & Hrun & Hst & Htt & Htm).
  assert (t' = totals_of rows) as ->.
  { destruct t'; simpl in *. unfold totals_of. by rewrite Hst, Htt, Htm. }
  rewrite append_lines_accepted; [by eexists | done |].
  fold (index_footer R folder (totals_of rows)).
  apply index_footer_encodable; try done.
  destruct (exports_rows _ _ _ _ _ _ _ _ _ Hrun) as [Hrows _].
  eapply Forall_impl; [exact Hrows|].
  intros s (th & title & msgs & Hle & Hat & Hlim & Htitle & Hmsgs & Hs).
  destruct (Hgood (st_idx s - 1)%nat th Hat) as (title' & msgs' & Ht & Hm & Hio).
  { by replace (S (st_idx s - 1)) with (st_idx s) by lia. }
  replace (S (st_idx s - 1)) with (st_idx s) in * by lia.
  assert (title' = title) as -> by congruence.
  assert (msgs' = msgs) as -> by congruence.
  destruct Hio as (_ & _ & _ & Hrow). by rewrite Hs.
Qed.

(** C6: a thread entry that is not an object changes neither the counters
    nor the file system, and the loop goes on with the next entry; a
    mapping entry whose key is [root], whose value is not an object, or
    whose [message] is not an object adds no turn, and the loop goes on
    with the next entry; and the run returns its folder, with the index
    completed by its totals, whenever the entries that are objects can be
    exported (each has a string for its title and a mapping whose turns
    can be collected, and the file system takes its file, its row and the
    index), whatever the other entries are. *)
Theorem malformed_elements_skipped (R : runtime) (folder : pystr)
    (max_threads max_messages_per_file : option Z) :
  (forall thread_idx bad rest t w,
     is_dict bad = false ->
     (thread_limit_hit max_threads thread_idx = false ->
      thread_step R folder max_threads max_messages_per_file
                  thread_idx bad t w = (Next t, w))
     /\ process_threads R folder max_threads max_messages_per_file
                        thread_idx (bad :: rest) t w
        = process_threads R folder max_threads max_messages_per_file
                          (S thread_idx) rest t w)
  /\ (forall before msg_id msg_data after all_messages,
        msg_id = lit "root"
        \/ is_dict msg_data = false
        \/ (exists md,
              msg_data = VDict md
              /\ is_dict (dict_get (lit "message") md VNone) = false) ->
        add_entry R (msg_id, msg_data) all_messages = Ok all_messages
        /\ for_each (add_entry R) (before ++ (msg_id, msg_data) :: after)
                    all_messages
           = for_each (add_entry R) (before ++ after) all_messages)
  /\ (forall input_file data w,
        load_input R input_file = Ok (Some data) ->
        index_written R input_file w ->
        (forall i th,
           threads_of data !! i = Some (VDict th) ->
           thread_limit_hit max_threads (S i) = false ->
           exists title msgs,
             thread_title (S i) th = VStr title
             /\ extract_messages R th = Ok msgs
             /\ thread_written R (export_folder R input_file)
                               max_messages_per_file (S i) th title msgs) ->
        exists w' rows,
          export_threads R input_file max_threads max_messages_per_file w
          = (Ok (Some (export_folder R input_file)), w')
          /\ files w' !! path_join (export_folder R input_file) index_name
             = Some (index_header R input_file (length (threads_of data))
                     ++ concat (map (index_row R) rows)
                     ++ index_footer R (export_folder R input_file)
                          (totals_of rows))).
Proof.
  split; [|split].
  - intros idx bad rest t w Hbad. split.
    + by apply thread_step_skipped.
    + by apply process_threads_skipped.
  - intros before k v after acc Hskip.
    pose proof (add_entry_skipped R k v) as Hentry.
    split; [by apply Hentry|].
    rewrite !for_each_app.
    destruct (for_each (add_entry R) before acc) as [acc'|e];
      cbn [for_each result_bind]; [|done].
    by rewrite Hentry.
  - intros input_file data w Hload Hindex Hgood.
    destruct (export_threads_completes R input_file max_threads
                max_messages_per_file data w Hload Hindex Hgood)
      as [w' Hrun].
    pose proof Hrun as Hret.
    apply export_threads_returns in Hret
      as (data' & rows & w0 & w1 & Hload' & _ & Hexp & Hw).
    assert (data' = data) as -> by congruence.
    exists w', rows. split; [exact Hrun|].
    rewrite Hw, files_append_file, decide_True by done.
    destruct (exports_files _ _ _ _ _ _ _ _ _ Hexp) as (_ & Hidx & _).
    rewrite (Hidx (index_header R input_file (length (threads_of data)))).
    + cbn [default from_option id]. by rewrite <- app_assoc.
    + rewrite files_write_file. by rewrite decide_True.
Qed.

(** The example runtime formats numbers with digits and dots. *)
Lemma example_runtime_index_written parsed input_file w :
  utf8_encodable input_file = true ->
  utf8_encodable (export_folder (example_runtime parsed) input_file) = true ->
  index_written (example_runtime parsed) input_file w.
Proof.
  intros Hin Hfolder. unfold index_written.
  split; [by right|]. split; [done|]. split; [done|]. split; [done|].
  split; [done|]. split.
  - intros m t. cbn [fmt_ratio example_runtime].
    by rewrite utf8_encodable_app, utf8_encodable_dec.
  - intros b. cbn [fmt_mb example_runtime].
    by rewrite utf8_encodable_app, utf8_encodable_dec.
Qed.

(** A document of malformed entries only is exported to an index without
    rows, and the malformed entries of a mapping leave the turns of the
    well-formed ones. *)
Lemma malformed_elements_witness :
  (exists w' rows,
     export_threads (example_runtime (Loaded malformed_document))
                    (lit "in.json") None None empty_world
     = (Ok (Some sample_folder), w')
     /\ files w' !! path_join sample_folder index_name
        = Some (index_header (example_runtime (Loaded malformed_document))
                             (lit "in.json") 4
                ++ concat (map (index_row (example_runtime (Loaded malformed_document))) rows)
                ++ index_footer (example_runtime (Loaded malformed_document))
                                sample_folder (totals_of rows)))
  /\ for_each (add_entry plain_runtime) malformed_mapping []
     = Ok [turn "1" "REQUEST" "a"; turn "5" "RESPONSE" "b"].
Proof.
  split; [|vm_compute; reflexivity].
  apply (proj2 (proj2 (malformed_elements_skipped
                  (example_runtime (Loaded malformed_document))
                  sample_folder None None))
           (lit "in.json") malformed_document empty_world);
    [reflexivity | by apply example_runtime_index_written |].
  intros i th Hat _. exfalso.
  do 4 (destruct i as [|i]; [discriminate Hat|]). discriminate Hat.
Defined.

(** * Further properties *)

(** ** Names that are already safe *)

Lemma str_replace_absent old new s :
  Forall (fun c => c <> old) s -> str_replace old new s = s.
Proof.
  unfold str_replace. induction 1 as [|c s Hc Hs IH]; simpl; [done|].
  apply N.eqb_neq in Hc. by rewrite Hc, IH.
Qed.

Lemma sub_unsafe_absent s :
  Forall (fun c => is_unsafe c = false) s -> sub_unsafe s = s.
Proof.
  unfold sub_unsafe. induction 1 as [|c s Hc Hs IH]; simpl; [done|].
  by rewrite Hc, IH.
Qed.

Lemma sub_control_absent s :
  Forall (fun c => is_control c = false) s -> sub_control s = s.
Proof.
  unfold sub_control. induction 1 as [|c s Hc Hs IH]; simpl; [done|].
  by rewrite Hc, IH.
Qed.

Lemma sub_underscores_single s :
  no_double_underscore s -> sub_underscores s = s.
Proof.
  induction s as [|c s IH]; simpl; [done|]. intros [Hc Hs].
  rewrite (IH Hs).
  destruct (N.eqb_spec c ch_underscore) as [->|_]; [|done].
  destruct s as [|d s']; [done|].
  destruct (N.eqb_spec d ch_underscore) as [->|_]; [|done].
  by destruct Hc.
Qed.

Lemma lstrip_by_kept drop s :
  (forall c, head s = Some c -> drop c = false) -> lstrip_by drop s = s.
Proof. destruct s as [|c s]; simpl; [done|]. intros H. by rewrite (H c). Qed.

Lemma last_rev {A} (l : list A) : last (rev l) = head l.
Proof. destruct l as [|x l]; simpl; [done|]. apply last_snoc. Qed.

Lemma head_rev {A} (l : list A) : head (rev l) = last l.
Proof. by rewrite <- (rev_involutive l) at 2; rewrite last_rev. Qed.

Lemma strip_by_kept drop s :
  (forall c, head s = Some c \/ last s = Some c -> drop c = false) ->
  strip_by drop s = s.
Proof.
  intros H. unfold strip_by, rstrip_by.
  rewrite (lstrip_by_kept drop s) by (intros c Hc; apply H; by left).
  rewrite lstrip_by_kept; [apply rev_involutive|].
  intros c Hc. rewrite head_rev in Hc. apply H. by right.
Qed.

(** What is left of [lstrip_by] is an end of the string, and starts with
    a character that is kept. *)
Lemma lstrip_by_suffix drop s : exists pre, s = pre ++ lstrip_by drop s.
Proof.
  induction s as [|c s [pre IH]]; simpl; [by exists []|].
  destruct (drop c); [|by exists []].
  exists (c :: pre). simpl. by rewrite <- IH.
Qed.

Lemma lstrip_by_head drop s c :
  head (lstrip_by drop s) = Some c -> drop c = false.
Proof.
  induction s as [|x s IH]; simpl; [done|].
  destruct (drop x) eqn:Hx; [exact IH|]. simpl. by intros [= <-].
Qed.

Lemma strip_by_ends drop s c :
  head (strip_by drop s) = Some c \/ last (strip_by drop s) = Some c ->
  drop c = false.
Proof.
  unfold strip_by, rstrip_by. intros [Hc|Hc].
  - destruct (lstrip_by_suffix drop (rev (lstrip_by drop s))) as [pre Hpre].
    apply (f_equal (@rev _)) in Hpre.
    rewrite rev_involutive, rev_app_distr in Hpre.
    apply (lstrip_by_head drop s). rewrite Hpre.
    destruct (rev (lstrip_by drop (rev (lstrip_by drop s)))); [done|].
    exact Hc.
  - rewrite last_rev in Hc. by apply lstrip_by_head in Hc.
Qed.

Lemma sub_underscores_nil s : sub_underscores s = [] -> s = [].
Proof.
  intros H. pose proof (head_sub_underscores s) as Hh. rewrite H in Hh.
  by destruct s.
Qed.

Lemma last_cons_cons {A} (x : A) l : l <> [] -> last (x :: l) = last l.
Proof. by destruct l. Qed.

Lemma last_sub_underscores s : last (sub_underscores s) = last s.
Proof.
  induction s as [|c s IH]; [done|].
  destruct s as [|d s'].
  { simpl. by destruct (N.eqb_spec c ch_underscore) as [->|_]. }
  assert (Hne : sub_underscores (d :: s') <> [])
    by (intros H; by apply sub_underscores_nil in H).
  rewrite (last_cons_cons c (d :: s')) by done. rewrite <- IH.
  change (sub_underscores (c :: d :: s'))
    with (if (c =? ch_underscore)%N
          then if (d =? ch_underscore)%N then sub_underscores (d :: s')
               else ch_underscore :: sub_underscores (d :: s')
          else c :: sub_underscores (d :: s')).
  destruct (c =? ch_underscore)%N; [destruct (d =? ch_underscore)%N|];
    try done; by apply last_cons_cons.
Qed.

Lemma sub_control_no_control (P : char -> Prop) s :
  Forall P s -> Forall (fun c => P c /\ is_control c = false) (sub_control s).
Proof.
  induction 1 as [|c s Hc Hs IH]; simpl; [constructor|].
  destruct (is_control c) eqn:Hctl; simpl; [exact IH | by constructor].
Qed.

Lemma str_replace_space_any (b : bool) s :
  Forall (fun c => b = true -> c <> ch_space)
         (if b then str_replace ch_space [ch_underscore] s else s).
Proof.
  destruct b.
  - eapply Forall_impl; [apply str_replace_space|].
    intros c Hc _. by apply N.eqb_neq.
  - apply Forall_forall. by intros c _ [=].
Qed.

Lemma sub_unsafe_keeps_spaces (b : bool) s :
  Forall (fun c => b = true -> c <> ch_space) s ->
  Forall (fun c => is_unsafe c = false /\ (b = true -> c <> ch_space))
         (sub_unsafe s).
Proof.
  induction 1 as [|c s Hc Hs IH]; simpl; constructor; [|exact IH].
  destruct (is_unsafe c) eqn:Hu; [by split | by split].
Qed.

(** The cleaned name is a safe name. *)
Lemma cleaned_name_safe title replace_spaces :
  safe_name replace_spaces (cleaned_name title replace_spaces).
Proof.
  unfold cleaned_name. split; [|split].
  - apply Forall_sub_underscores, Forall_strip_by.
    eapply Forall_impl;
      [apply sub_control_no_control, sub_unsafe_keeps_spaces,
         str_replace_space_any|].
    intros c [[Hu Hs] Hc]. done.
  - apply sub_underscores_no_double.
  - intros c. rewrite head_sub_underscores, last_sub_underscores. intros Hc.
    apply strip_by_ends in Hc. unfold strip_set.
    intros Hin. apply not_true_iff_false in Hc. apply Hc.
    apply existsb_exists. exists c. split; [by apply list_elem_of_In|].
    apply N.eqb_refl.
Qed.

(** The first five steps leave a safe name as it is. *)
Lemma cleaned_name_of_safe_name s replace_spaces :
  safe_name replace_spaces s -> cleaned_name s replace_spaces = s.
Proof.
  intros (Hchars & Hnd & Hends). unfold cleaned_name.
  assert (Hsp : (if replace_spaces
                 then str_replace ch_space [ch_underscore] s else s) = s).
  { destruct replace_spaces; [|done]. apply str_replace_absent.
    eapply Forall_impl; [exact Hchars|]. intros c (_ & _ & Hc). by apply Hc. }
  rewrite Hsp, sub_unsafe_absent, sub_control_absent.
  - unfold strip. rewrite strip_by_kept; [by apply sub_underscores_single|].
    intros c Hc. specialize (Hends c Hc).
    apply not_true_iff_false. intros Hin. apply Hends.
    apply existsb_exists in Hin as (x & Hx & Heq).
    apply N.eqb_eq in Heq as ->. by apply list_elem_of_In.
  - eapply Forall_impl; [exact Hchars|]. by intros c (_ & Hc & _).
  - eapply Forall_impl; [exact Hchars|]. by intros c (Hc & _).
Qed.

(** No step makes the name longer. *)
Lemma cleaned_name_length title replace_spaces :
  (length (cleaned_name title replace_spaces) <= length title)%nat.
Proof.
  unfold cleaned_name.
  assert (Hsub : forall s, (length (sub_underscores s) <= length s)%nat).
  { induction s as [|c s IH]; simpl; [lia|].
    destruct (c =? ch_underscore)%N; [|simpl; lia].
    destruct s as [|d s']; [simpl; lia|].
    destruct (d =? ch_underscore)%N; simpl in *; lia. }
  assert (Hl : forall drop s, (length (lstrip_by drop s) <= length s)%nat).
  { intros drop s. induction s as [|c s IH]; simpl; [lia|].
    destruct (drop c); simpl; lia. }
  assert (Hstrip : forall drop s, (length (strip_by drop s) <= length s)%nat).
  { intros drop s. unfold strip_by, rstrip_by. rewrite length_rev.
    etrans; [apply Hl|]. rewrite length_rev. apply Hl. }
  assert (Hctl : forall s, (length (sub_control s) <= length s)%nat).
  { intros s. unfold sub_control. apply List.filter_length_le. }
  assert (Hrep : forall s,
            length (str_replace ch_space [ch_underscore] s) = length s).
  { intros s. unfold str_replace. induction s as [|c s IH]; simpl; [done|].
    rewrite length_app, IH. by destruct (c =? ch_space)%N. }
  etrans; [apply Hsub|]. etrans; [apply Hstrip|]. etrans; [apply Hctl|].
  unfold sub_unsafe. rewrite length_map.
  destruct replace_spaces; [by rewrite Hrep | done].
Qed.

Lemma unnamed_thread_safe replace_spaces : safe_name replace_spaces unnamed_thread.
Proof.
  split; [|split].
  - apply Forall_forall. intros c Hc.
    assert (c ∈ unnamed_thread -> is_unsafe c = false /\ is_control c = false
                                  /\ c <> ch_space) as H.
    { clear Hc. intros Hc. apply list_elem_of_In in Hc. vm_compute in Hc.
      repeat (destruct Hc as [<-|Hc]; [by repeat split|]). done. }
    destruct (H Hc) as (H1 & H2 & H3). done.
  - vm_compute. intuition discriminate.
  - intros c [[= <-]|[= <-]]; vm_compute; intros Hin;
      apply list_elem_of_In in Hin; vm_compute in Hin; intuition discriminate.
Qed.

Lemma sanitize_filename_nonempty_any title replace_spaces :
  sanitize_filename title replace_spaces <> [].
Proof.
  rewrite sanitize_filename_body. cbv zeta.
  destruct (bool_decide _ || _) eqn:H; [done|].
  apply orb_false_iff in H as [H _]. by apply bool_decide_eq_false in H.
Qed.

(** A title of at most 200 characters comes back as its cleaned name, or
    as the fallback name. *)
Lemma sanitize_filename_short title replace_spaces :
  (length title <= 200)%nat ->
  sanitize_filename title replace_spaces = cleaned_name title replace_spaces
  \/ sanitize_filename title replace_spaces = unnamed_thread.
Proof.
  intros Hlen. rewrite sanitize_filename_body. cbv zeta.
  pose proof (cleaned_name_length title replace_spaces) as Hc.
  unfold truncated_name, py_len.
  destruct (Z.ltb_spec 200 (Z.of_nat (length (cleaned_name title replace_spaces))));
    [lia|].
  destruct (_ || _); [by right | by left].
Qed.

Lemma sanitize_filename_short_safe title replace_spaces :
  (length title <= 200)%nat ->
  safe_name replace_spaces (sanitize_filename title replace_spaces).
Proof.
  intros Hlen.
  destruct (sanitize_filename_short title replace_spaces Hlen) as [-> | ->];
    [apply cleaned_name_safe | apply unnamed_thread_safe].
Qed.

(** On a safe name of at most 200 characters only the last step, the
    test for the fallback name, is left. *)
Lemma sanitize_filename_of_safe_name s replace_spaces :
  (length s <= 200)%nat -> safe_name replace_spaces s ->
  sanitize_filename s replace_spaces
  = if bool_decide (s = []) || bool_decide (s = [ch_underscore])
    then unnamed_thread else s.
Proof.
  intros Hlen Hsafe. rewrite sanitize_filename_body. cbv zeta.
  rewrite (cleaned_name_of_safe_name s replace_spaces Hsafe).
  unfold truncated_name, py_len.
  by destruct (Z.ltb_spec 200 (Z.of_nat (length s))); [lia|].
Qed.

Lemma truncated_name_keeps (P : char -> Prop) cleaned :
  Forall P cleaned -> Forall P (truncated_name cleaned).
Proof.
  intros H. unfold truncated_name. destruct (200 <? py_len cleaned); [|done].
  rewrite <- (splitext_with_app [ch_slash] cleaned) in H. fold splitext in H.
  apply Forall_app in H as [Hname Hext].
  apply Forall_app. split; [by apply Forall_slice_upto | done].
Qed.

Lemma truncated_name_no_double cleaned :
  no_double_underscore cleaned -> no_double_underscore (truncated_name cleaned).
Proof.
  intros H. unfold truncated_name. destruct (200 <? py_len cleaned); [|done].
  rewrite <- (splitext_with_app [ch_slash] cleaned) in H. fold splitext in H.
  apply no_double_app_inv in H as [Hname Hext].
  apply no_double_app; [|done|].
  - unfold slice_upto. destruct (0 <=? _); by apply no_double_take.
  - destruct (splitext_with_ext [ch_slash] cleaned) as [He|[rest He]];
      fold splitext in He; rewrite He; done.
Qed.

(** With or without [replace_spaces], the name returned holds no unsafe
    character and no control character, and no underscore follows an
    underscore; a space can only be left when spaces are not replaced. *)
Theorem sanitize_filename_safe_chars (title : pystr) (replace_spaces : bool) :
  Forall (fun c => (c ∉ unsafe_chars) /\ ~ (c <= 31)%N /\ c <> 127%N
                   /\ (replace_spaces = true -> c <> ch_space))
         (sanitize_filename title replace_spaces)
  /\ forall pre post,
       sanitize_filename title replace_spaces
       <> pre ++ [ch_underscore; ch_underscore] ++ post.
Proof.
  destruct (cleaned_name_safe title replace_spaces) as (Hchars & Hnd & _).
  destruct (unnamed_thread_safe replace_spaces) as (Hfchars & Hfnd & _).
  rewrite sanitize_filename_body. cbv zeta.
  pose proof (truncated_name_keeps _ _ Hchars) as Htchars.
  pose proof (truncated_name_no_double _ Hnd) as Htnd.
  assert (Himpl : forall s,
            Forall (fun c => is_unsafe c = false /\ is_control c = false
                             /\ (replace_spaces = true -> c <> ch_space)) s ->
            Forall (fun c => (c ∉ unsafe_chars) /\ ~ (c <= 31)%N /\ c <> 127%N
                             /\ (replace_spaces = true -> c <> ch_space)) s).
  { intros s Hs. eapply Forall_impl; [exact Hs|].
    intros c (Hu & Hctl & Hsp). unfold is_control in Hctl.
    apply orb_false_iff in Hctl as [H31 H127].
    apply N.leb_gt in H31. apply N.eqb_neq in H127.
    repeat split; [|lia|done|done].
    intros Hin. apply not_true_iff_false in Hu. apply Hu, existsb_exists.
    exists c. split; [by apply list_elem_of_In | apply N.eqb_refl]. }
  destruct (_ || _); (split; [by apply Himpl | by apply no_double_spec]).
Qed.

(** A title of at most 200 characters comes back without a dot, an
    underscore or a space at either end. *)
Theorem sanitize_filename_trimmed (title : pystr) (replace_spaces : bool) :
  (length title <= 200)%nat ->
  forall c,
    head (sanitize_filename title replace_spaces) = Some c
    \/ last (sanitize_filename title replace_spaces) = Some c ->
    c <> ch_dot /\ c <> ch_underscore /\ c <> ch_space.
Proof.
  intros Hlen c Hc.
  destruct (sanitize_filename_short_safe title replace_spaces Hlen)
    as (_ & _ & Hends).
  specialize (Hends c Hc). unfold strip_set in Hends.
  repeat split; intros ->; apply Hends, list_elem_of_In; simpl; tauto.
Qed.

Lemma sanitize_filename_trimmed_witness :
  exists c,
    head (sanitize_filename (lit "._ notes _.") true) = Some c
    /\ c <> ch_dot /\ c <> ch_underscore /\ c <> ch_space.
Proof.
  exists 110%N. split; [by vm_compute|].
  apply (sanitize_filename_trimmed (lit "._ notes _.") true).
  - vm_compute. lia.
  - left. by vm_compute.
Defined.

(** Sanitizing a title of at most 200 characters twice gives what
    sanitizing it once gives. *)
Theorem sanitize_filename_idempotent (title : pystr) (replace_spaces : bool) :
  (length title <= 200)%nat ->
  sanitize_filename (sanitize_filename title replace_spaces) replace_spaces
  = sanitize_filename title replace_spaces.
Proof.
  intros Hlen.
  pose proof (sanitize_filename_nonempty_any title replace_spaces) as Hne.
  pose proof (sanitize_filename_short_safe title replace_spaces Hlen) as Hsafe.
  rewrite sanitize_filename_of_safe_name; [|
    destruct (sanitize_filename_short title replace_spaces Hlen) as [-> | ->];
      [pose proof (cleaned_name_length title replace_spaces); lia
      |vm_compute; lia] | done].
  rewrite bool_decide_eq_false_2 by done.
  rewrite bool_decide_eq_false_2; [done|].
  intros Heq. destruct Hsafe as (_ & _ & Hends). rewrite Heq in Hends.
  apply (Hends ch_underscore); [by left|]. unfold strip_set.
  apply list_elem_of_In. simpl. tauto.
Qed.

Lemma sanitize_filename_idempotent_witness :
  sanitize_filename (sanitize_filename (lit " Plan: A/B ") true) true
  = sanitize_filename (lit " Plan: A/B ") true.
Proof.
  apply (sanitize_filename_idempotent (lit " Plan: A/B ") true).
  vm_compute. lia.
Defined.

(** A non-empty safe name of at most 200 characters is returned as it
    is. *)
Theorem sanitize_filename_safe_name_unchanged (s : pystr)
    (replace_spaces : bool) :
  s <> [] -> (length s <= 200)%nat -> safe_name replace_spaces s ->
  sanitize_filename s replace_spaces = s.
Proof.
  intros Hne Hlen Hsafe.
  rewrite sanitize_filename_of_safe_name by done.
  rewrite bool_decide_eq_false_2 by done.
  rewrite bool_decide_eq_false_2; [done|].
  intros ->. destruct Hsafe as (_ & _ & Hends).
  apply (Hends ch_underscore); [by left|]. unfold strip_set.
  apply list_elem_of_In. simpl. tauto.
Qed.

Lemma sanitize_filename_safe_name_witness :
  sanitize_filename (lit "Report_2024.final") true = lit "Report_2024.final".
Proof.
  apply (sanitize_filename_safe_name_unchanged (lit "Report_2024.final") true).
  - discriminate.
  - vm_compute. lia.
  - split; [|split].
    + repeat constructor; discriminate.
    + vm_compute. intuition discriminate.
    + intros c [[= <-]|[= <-]]; intros Hin; apply list_elem_of_In in Hin;
        vm_compute in Hin; intuition discriminate.
Defined.

(** ** The turns collected from a mapping *)

Lemma for_each_invariant {A S} (P : S -> Prop) (body : A -> S -> result S)
    (l : list A) (s s' : S) :
  (forall x a a', x ∈ l -> P a -> body x a = Ok a' -> P a') ->
  P s -> for_each body l s = Ok s' -> P s'.
Proof.
  revert s. induction l as [|x l IH]; intros s Hbody Hs; simpl.
  - by intros [= <-].
  - destruct (body x s) as [a|e] eqn:Hx; simpl; [|done].
    apply IH.
    + intros y b b' Hy. apply Hbody. by right.
    + apply (Hbody x s a); [by left | done..].
Qed.

Lemma lstrip_by_some_kept drop s :
  lstrip_by drop s <> [] -> Exists (fun c => drop c = false) s.
Proof.
  induction s as [|c s IH]; simpl; [done|].
  destruct (drop c) eqn:Hc; [|by left]. intros H. right. by apply IH.
Qed.

Lemma strip_by_some_kept drop s :
  strip_by drop s <> [] -> Exists (fun c => drop c = false) s.
Proof.
  intros H. apply lstrip_by_some_kept. intros Hnil. apply H.
  unfold strip_by, rstrip_by. by rewrite Hnil.
Qed.

Lemma add_fragment_turns R key fragment (acc acc' : list msg)
    (P : msg -> Prop) :
  (forall type content,
     Exists (fun c => is_space R c = false) content ->
     P {| msg_id := key; msg_type := type; msg_content := content |}) ->
  Forall P acc ->
  add_fragment R key fragment acc = Ok acc' -> Forall P acc'.
Proof.
  intros HP Hacc. unfold add_fragment.
  destruct fragment as [| | | | | |f]; try (by intros [= <-]).
  destruct (py_truthy _); [|by intros [= <-]].
  destruct (dict_get (lit "content") f (VStr [])) as [| | | |c| |]; try done.
  destruct (py_truthy (VStr (strip_by (is_space R) c))) eqn:Htext;
    intros [= <-]; [|done].
  apply Forall_app. split; [done|]. constructor; [|constructor].
  apply HP. apply strip_by_some_kept. simpl in Htext.
  apply negb_true_iff in Htext. by apply bool_decide_eq_false in Htext.
Qed.

(** Every turn collected from a thread carries the key of an entry of its
    mapping whose value is an object, never the key [root], and its content
    holds a character that is not white space. *)
Theorem extracted_turns_have_text (R : runtime) (th : list (pystr * value))
    (all_messages : list msg) :
  extract_messages R th = Ok all_messages ->
  exists items,
    dict_get (lit "mapping") th (VDict []) = VDict items
    /\ Forall (fun m =>
                 msg_id m <> lit "root"
                 /\ (exists md, (msg_id m, VDict md) ∈ items)
                 /\ Exists (fun c => is_space R c = false) (msg_content m))
              all_messages.
Proof.
  unfold extract_messages.
  destruct (dict_get (lit "mapping") th (VDict [])) as [| | | | | |items];
    try done.
  simpl. intros Hloop. exists items. split; [done|].
  revert Hloop. apply for_each_invariant; [|constructor].
  intros [key v] acc acc' Hin Hacc. unfold add_entry.
  destruct v as [| | | | | |md]; try (by intros [= <-]).
  destruct (bool_decide_reflect (key = lit "root")) as [->|Hroot];
    [by intros [= <-]|].
  destruct (negb _); [by intros [= <-]|].
  destruct (dict_get (lit "message") md VNone) as [| | | | | |m];
    try (by intros [= <-]).
  destruct (py_iter _) as [fragments|e]; [|done]. simpl.
  apply for_each_invariant; [|done].
  intros fragment a a' _ Ha. apply (add_fragment_turns R key); [|done].
  intros type content Htext. simpl. eauto.
Qed.

Lemma extracted_turns_witness :
  exists items,
    dict_get (lit "mapping") think_thread (VDict []) = VDict items
    /\ Forall (fun m =>
                 msg_id m <> lit "root"
                 /\ (exists md, (msg_id m, VDict md) ∈ items)
                 /\ Exists (fun c => is_space plain_runtime c = false)
                           (msg_content m))
              [turn "1" "THINK" "hm"].
Proof.
  apply (extracted_turns_have_text plain_runtime think_thread).
  vm_compute. reflexivity.
Defined.

Lemma add_fragment_appends R key fragment acc :
  add_fragment R key fragment acc
  = do new <- add_fragment R key fragment []; Ok (acc ++ new).
Proof.
  unfold add_fragment.
  destruct fragment as [| | | | | |f]; simpl; rewrite ?List.app_nil_r; try done.
  destruct (py_truthy _); simpl; rewrite ?List.app_nil_r; [|done].
  destruct (dict_get (lit "content") f (VStr [])) as [| | | |c| |]; try done.
  destruct (bool_decide (strip_by (is_space R) c = [])); simpl;
    by rewrite ?List.app_nil_r.
Qed.

Lemma for_each_appends {A B} (body : A -> list B -> result (list B)) l acc :
  (forall x a, body x a = do new <- body x []; Ok (a ++ new)) ->
  for_each body l acc = do new <- for_each body l []; Ok (acc ++ new).
Proof.
  intros Hbody. revert acc. induction l as [|x l IH]; intros acc; simpl.
  - by rewrite List.app_nil_r.
  - rewrite (Hbody x acc).
    destruct (body x []) as [new|e]; simpl; [|done].
    rewrite (IH (acc ++ new)), (IH new).
    destruct (for_each body l []) as [more|e]; simpl; [|done].
    by rewrite app_assoc.
Qed.

Lemma add_entry_appends R entry acc :
  add_entry R entry acc = do new <- add_entry R entry []; Ok (acc ++ new).
Proof.
  destruct entry as [key v]. unfold add_entry.
  destruct v as [| | | | | |md]; simpl; rewrite ?List.app_nil_r; try done.
  destruct (bool_decide _); simpl; rewrite ?List.app_nil_r; [done|].
  destruct (negb _); simpl; rewrite ?List.app_nil_r; [done|].
  destruct (dict_get (lit "message") md VNone) as [| | | | | |m];
    simpl; rewrite ?List.app_nil_r; try done.
  destruct (py_iter _) as [fragments|e]; simpl; [|done].
  apply for_each_appends. intros x a. apply add_fragment_appends.
Qed.

(** The loop over the entries of a mapping collects, for two mappings one
    after the other, the turns of the first followed by the turns of the
    second; it raises when the loop over one of them does, the first one
    first. *)
Theorem collected_turns_concatenate (R : runtime)
    (first second : list (pystr * value)) :
  for_each (add_entry R) (first ++ second) []
  = do turns1 <- for_each (add_entry R) first [];
    do turns2 <- for_each (add_entry R) second [];
    Ok (turns1 ++ turns2).
Proof.
  rewrite for_each_app.
  destruct (for_each (add_entry R) first []) as [turns1|e]; simpl; [|done].
  apply for_each_appends. intros x a. apply add_entry_appends.
Qed.

(** ** Sorting loses nothing *)

Lemma sort_keys_snd R msgs keyed :
  sort_keys R msgs = Ok keyed -> map snd keyed = msgs.
Proof.
  revert keyed. induction msgs as [|m msgs IH]; intros keyed; simpl.
  - by intros [= <-].
  - destruct (extract_numeric_id R (msg_id m)) as [k|e]; simpl; [|done].
    destruct (sort_keys R msgs) as [ks|e]; simpl; [|done].
    intros [= <-]. simpl. by rewrite (IH ks).
Qed.

Lemma insert_keyed_perm x l : insert_keyed x l ≡ₚ x :: l.
Proof.
  induction l as [|y l IH]; simpl; [done|].
  destruct (key_lt y.1 x.1); [|done].
  rewrite IH. apply perm_swap.
Qed.

Lemma stable_sort_perm l : stable_sort l ≡ₚ l.
Proof.
  induction l as [|x l IH]; simpl; [done|].
  rewrite insert_keyed_perm. by constructor.
Qed.

Lemma sort_messages_perm R msgs : sort_messages R msgs ≡ₚ msgs.
Proof.
  unfold sort_messages.
  destruct (sort_keys R msgs) as [keyed|e] eqn:Hkeys; [|done].
  rewrite <- (sort_keys_snd R _ _ Hkeys) at 1.
  apply Permutation_map, stable_sort_perm.
Qed.

(** Whether the sort is carried out or abandoned, the turns after it are
    the turns before it in some order: none is lost, none is repeated. *)
Theorem sort_messages_permutation (R : runtime) (all_messages : list msg) :
  sort_messages R all_messages ≡ₚ all_messages
  /\ length (sort_messages R all_messages) = length all_messages.
Proof.
  pose proof (sort_messages_perm R all_messages) as H.
  split; [done|]. by rewrite H.
Qed.

(** ** The two limits *)

(** With a limit of [m > 0] messages per file, the loop over the turns
    renders the first [m] turns and counts what it renders; when there are
    more, it leaves one note, which states how many turns were cut. *)
Theorem message_limit_cuts (R : runtime) (m : Z) (all_messages : list msg) :
  0 < m ->
  write_turns R (Some m) (length all_messages) 0 all_messages
  = (concat (map (render_turn R) (take (Z.to_nat m) all_messages))
     ++ (if decide (Z.to_nat m < length all_messages)%nat
         then [10%N] ++ lit "> *Hinweis: "
              ++ dec (length all_messages - Z.to_nat m)
              ++ lit " weitere Nachrichten gek" ++ [252%N] ++ lit "rzt.*"
              ++ [10%N]
         else []),
     Nat.min (Z.to_nat m) (length all_messages)).
Proof.
  intros Hm. rewrite write_turns_spec. unfold turns_from.
  destruct (Z.eqb_spec m 0) as [->|_]; [lia|].
  replace (m - Z.of_nat 0) with m by lia.
  rewrite length_take. f_equal. f_equal.
  destruct (decide (Nat.min (Z.to_nat m) (length all_messages)
                    < length all_messages)%nat) as [Hcut|Hall];
    (destruct (decide (Z.to_nat m < length all_messages)%nat); try lia);
    [|done].
  unfold truncation_note, dec_int. cbn [default from_option id].
  destruct (Z.ltb_spec (Z.of_nat (length all_messages) - m) 0); [lia|].
  replace (Z.to_nat (Z.of_nat (length all_messages) - m))
    with (length all_messages - Z.to_nat m)%nat by lia.
  reflexivity.
Qed.

Lemma message_limit_witness :
  (write_turns plain_runtime (Some 3) (length sample_turns) 0 sample_turns).2
  = 3%nat.
Proof.
  rewrite (message_limit_cuts plain_runtime 3 sample_turns); [reflexivity|lia].
Defined.

Lemma increasing_length (l : list nat) (lo hi : nat) :
  StronglySorted lt l ->
  Forall (fun x => (lo <= x <= hi)%nat) l ->
  l = [] \/ (length l + lo <= hi + 1)%nat.
Proof.
  intros Hs. revert lo. induction Hs as [|x l Hs IH Hx]; intros lo Hall.
  - by left.
  - right. apply Forall_cons in Hall as [Hlo Hall].
    destruct (IH (S x)) as [->|Hlen].
    + apply Forall_forall. intros y Hy. rewrite Forall_forall in Hall, Hx.
      specialize (Hall y Hy). specialize (Hx y Hy). lia.
    + simpl. lia.
    + simpl. lia.
Qed.

Lemma rows_within_limit (R : runtime) (m : Z)
    (max_messages_per_file : option Z) (data : list value) (rows : list stat) :
  m <> 0 ->
  Forall (row_of R (Some m) max_messages_per_file 1 data) rows ->
  StronglySorted (fun a b => (st_idx a < st_idx b)%nat) rows ->
  Forall (fun s => (1 <= st_idx s)%nat /\ Z.of_nat (st_idx s) <= m) rows
  /\ Z.of_nat (length rows) <= Z.max 0 m.
Proof.
  intros Hm Hrows Hsorted.
  assert (Hidx : Forall (fun s => (1 <= st_idx s)%nat
                                  /\ Z.of_nat (st_idx s) <= m) rows).
  { eapply Forall_impl; [exact Hrows|].
    intros s (th & title & msgs & Hle & _ & Hlim & _). split; [done|].
    unfold thread_limit_hit in Hlim. apply Z.eqb_neq in Hm. rewrite Hm in Hlim.
    simpl in Hlim. by apply Z.ltb_ge in Hlim. }
  split; [done|].
  assert (Hs : StronglySorted lt (map st_idx rows)).
  { clear Hrows Hidx.
    induction Hsorted as [|s rows Hs IH Hlt]; simpl; [constructor|].
    constructor; [exact IH|]. apply List.Forall_map. exact Hlt. }
  assert (Hall : Forall (fun x => (1 <= x <= Z.to_nat m)%nat) (map st_idx rows)).
  { apply List.Forall_map. eapply Forall_impl; [exact Hidx|].
    intros s [H1 H2]. simpl. lia. }
  destruct (increasing_length _ _ _ Hs Hall) as [Hnil|Hlen].
  - destruct rows; [simpl; lia | done].
  - rewrite length_map in Hlen.
    destruct rows as [|s rows]; [simpl; lia|].
    apply Forall_cons in Hidx as [[H1 H2] _]. simpl in *. lia.
Qed.

(** With [max_threads = m] other than 0, a run of the loop over the
    threads that comes to its end has exported threads of the positions 1
    to [m] only, at most [m] of them, and none at all when [m] is
    negative. *)
Theorem thread_limit_bounds (R : runtime) (folder : pystr) (m : Z)
    (max_messages_per_file : option Z) (data : list value) (w : world)
    (t' : totals) (w' : world) :
  m <> 0 ->
  process_threads R folder (Some m) max_messages_per_file 1 data no_totals w
  = (Ok t', w') ->
  Forall (fun s => (1 <= st_idx s)%nat /\ Z.of_nat (st_idx s) <= m) (stats t')
  /\ Z.of_nat (length (stats t')) <= Z.max 0 m
  /\ total_threads t' = length (stats t').
Proof.
  intros Hm Hloop.
  apply process_threads_exports in Hloop as (rows & Hrun & Hst & Htt & _).
  simpl in Hst, Htt. rewrite Hst, Htt. clear Hst Htt.
  destruct (exports_rows _ _ _ _ _ _ _ _ _ Hrun) as [Hrows Hsorted].
  destruct (rows_within_limit _ _ _ _ _ Hm Hrows Hsorted) as [Hidx Hlen].
  done.
Qed.

Lemma thread_limit_witness :
  exists t' w',
    process_threads plain_runtime sample_folder (Some 1) None 1 twin_threads
                    no_totals empty_world = (Ok t', w')
    /\ Z.of_nat (length (stats t')) <= 1.
Proof.
  destruct (process_threads plain_runtime sample_folder (Some 1) None 1
              twin_threads no_totals empty_world) as [[t'|e] w'] eqn:Hloop;
    [|vm_compute in Hloop; discriminate].
  exists t', w'. split; [done|].
  refine (proj1 (proj2 (thread_limit_bounds plain_runtime sample_folder 1 None
                          twin_threads empty_world t' w' _ Hloop))).
  discriminate.
Defined.
(** ** A limit of 0 *)

(** C8: a limit of 0 is no limit. The export with [max_threads=0], or with
    [max_messages_per_file=0], is the export without that limit: no
    position stops the loop over the threads, and the loop over the turns
    of a thread renders every turn. When the export with [max_threads=0]
    returns, every thread of the document that is an object has its file;
    when the export with [max_messages_per_file=0] returns, the file of
    every exported thread holds all the turns collected from its mapping,
    and counts them. *)
Theorem zero_limit_is_no_limit (R : runtime) (input_file : pystr)
    (max_threads max_messages_per_file : option Z) (w : world) :
  export_threads R input_file (Some 0) max_messages_per_file w
  = export_threads R input_file None max_messages_per_file w
  /\ export_threads R input_file max_threads (Some 0) w
     = export_threads R input_file max_threads None w
  /\ (forall thread_idx, thread_limit_hit (Some 0) thread_idx = false)
  /\ (forall all_messages,
        turns_written (Some 0) all_messages = all_messages
        /\ write_turns R (Some 0) (length all_messages) 0 all_messages
           = (concat (map (render_turn R) all_messages),
              length all_messages))
  /\ (forall folder w',
        export_threads R input_file (Some 0) max_messages_per_file w
        = (Ok (Some folder), w') ->
        exists data,
          load_input R input_file = Ok (Some data)
          /\ forall i th,
               threads_of data !! i = Some (VDict th) ->
               exists title msgs,
                 thread_title (S i) th = VStr title
                 /\ extract_messages R th = Ok msgs
                 /\ files w' !! path_join folder
                                   (thread_filename (S i)
                                      (sanitize_filename title true))
                    = Some (thread_document R max_messages_per_file (S i) th
                                            title msgs))
  /\ (forall folder w',
        export_threads R input_file max_threads (Some 0) w
        = (Ok (Some folder), w') ->
        exists data,
          load_input R input_file = Ok (Some data)
          /\ forall i th,
               threads_of data !! i = Some (VDict th) ->
               thread_limit_hit max_threads (S i) = false ->
               exists title msgs,
                 thread_title (S i) th = VStr title
                 /\ extract_messages R th = Ok msgs
                 /\ sort_messages R msgs ≡ₚ msgs
                 /\ let filename :=
                      thread_filename (S i) (sanitize_filename title true) in
                    files w' !! path_join folder filename
                    = Some (thread_header R title
                              (dict_get (lit "id") th (VStr []))
                              (dict_get (lit "inserted_at") th (VStr []))
                              filename
                            ++ chat_heading
                            ++ concat (map (render_turn R)
                                           (sort_messages R msgs))
                            ++ thread_footer (length msgs))).
Proof.
  split; [apply export_threads_zero|].
  split; [apply export_threads_zero_messages|].
  split; [done|]. split; [|split].
  - intros msgs. split; [done|]. rewrite write_turns_spec.
    unfold turns_from. simpl. case_decide; [lia|]. by rewrite List.app_nil_r.
  - intros folder w' Hrun.
    apply export_threads_documents in Hrun as (data & Hload & Hdocs).
    exists data. split; [done|]. intros i th Hat. by apply Hdocs.
  - intros folder w' Hrun.
    apply export_threads_documents in Hrun as (data & Hload & Hdocs).
    exists data. split; [done|]. intros i th Hat Hlim.
    destruct (Hdocs i th Hat Hlim) as (title & msgs & Htitle & Hmsgs & Hfile).
    exists title, msgs. split; [done|]. split; [done|].
    pose proof (sort_messages_perm R msgs) as Hperm.
    split; [done|]. cbv zeta. rewrite Hfile. f_equal.
    unfold thread_document, thread_note, thread_turns, turns_written,
      turns_from.
    change (0 =? 0) with true. cbv iota.
    case_decide; [lia|].
    by rewrite List.app_nil_r, (Permutation_length Hperm).
Qed.

(** Two threads exported with [max_threads=0]: both have their file. *)
Lemma zero_limit_witness :
  exists w' first second,
    export_threads (example_runtime (Loaded (VList twin_threads)))
                   (lit "in.json") (Some 0) None empty_world
    = (Ok (Some sample_folder), w')
    /\ files w' !! path_join sample_folder (lit "001_A_B.md") = Some first
    /\ files w' !! path_join sample_folder (lit "002_A_B.md") = Some second.
Proof.
  destruct (export_threads (example_runtime (Loaded (VList twin_threads)))
              (lit "in.json") (Some 0) None empty_world)
    as [[[folder|]|e] w'] eqn:Hrun;
    [|vm_compute in Hrun; discriminate..].
  assert (folder = sample_folder) as ->
    by (vm_compute in Hrun; by injection Hrun as <- _).
  destruct (proj1 (proj2 (proj2 (proj2 (proj2
              (zero_limit_is_no_limit
                 (example_runtime (Loaded (VList twin_threads)))
                 (lit "in.json") None None empty_world)))))
              sample_folder w' Hrun) as (data & Hload & Hdocs).
  injection Hload as <-.
  destruct (Hdocs 0%nat _ eq_refl) as (t1 & m1 & Ht1 & _ & Hf1).
  destruct (Hdocs 1%nat _ eq_refl) as (t2 & m2 & Ht2 & _ & Hf2).
  injection Ht1 as <-. injection Ht2 as <-.
  eexists w', _, _. split; [done|]. split; [exact Hf1 | exact Hf2].
Defined.

(** ** What an export touches, and how it fails *)

Lemma for_each_raises {A S} (E : exn -> Prop) (body : A -> S -> result S)
    (l : list A) (s : S) (e : exn) :
  (forall x a e', body x a = Raise e' -> E e') ->
  for_each body l s = Raise e -> E e.
Proof.
  intros Hbody. revert s. induction l as [|x l IH]; intros s; simpl; [done|].
  destruct (body x s) as [a|e'] eqn:Hx; simpl; [apply IH|].
  intros [= <-]. by apply (Hbody x s).
Qed.

(** Collecting the turns raises nothing but [AttributeError] (a mapping
    that is not an object, a content that is not a string) and [TypeError]
    (fragments that cannot be iterated). *)
Lemma extract_messages_raises R th e :
  extract_messages R th = Raise e -> e = AttributeError \/ e = TypeError.
Proof.
  unfold extract_messages.
  destruct (dict_get (lit "mapping") th (VDict [])) as [| | | | | |items];
    simpl; try (intros [= <-]; by left).
  apply (for_each_raises (fun e => e = AttributeError \/ e = TypeError)).
  intros [key v] acc e'. unfold add_entry.
  destruct v as [| | | | | |md]; try done.
  destruct (bool_decide _); [done|]. destruct (negb _); [done|].
  destruct (dict_get (lit "message") md VNone) as [| | | | | |m]; try done.
  destruct (dict_get (lit "fragments") m (VList [])) as [| | | | | |];
    simpl; try (intros [= <-]; by right).
  all: apply (for_each_raises (fun e => e = AttributeError \/ e = TypeError));
    intros fragment a e''; unfold add_fragment.
  all: destruct fragment as [| | | | | |f]; try done.
  all: destruct (py_truthy _); [|done].
  all: destruct (dict_get (lit "content") f (VStr [])) as [| | | |c| |];
    try (intros [= <-]; by left).
  all: by destruct (py_truthy (VStr _)).
Qed.

Section Frame.

Variable R : runtime.
Variable folder : pystr.
Variables max_threads max_messages_per_file : option Z.

Local Abbreviation index_path := (path_join folder index_name).

(** What a pass through the body can have done to the file system:
    nothing, a write to the thread's own file, or that and an append to
    the index. *)
Lemma thread_step_world thread_idx thread t w r w' :
  thread_step R folder max_threads max_messages_per_file
              thread_idx thread t w = (r, w') ->
  w' = w
  \/ (exists safe_title text,
        w' = write_file (path_join folder
                           (thread_filename thread_idx safe_title)) text w)
  \/ (exists safe_title text row,
        w' = append_file index_path row
               (write_file (path_join folder
                              (thread_filename thread_idx safe_title))
                           text w)).
Proof.
  unfold thread_step.
  destruct (thread_limit_hit max_threads thread_idx); [intros [= <- <-]; by left|].
  destruct thread as [| | | | | |th]; try (intros [= <- <-]; by left).
  destruct (sanitize_title _) as [[title safe]|e0]; [|intros [= <- <-]; by left].
  destruct (open_error R _); [intros [= <- <-]; by left|].
  destruct (write_all _) as [header [e0|]];
    [intros [= <- <-]; right; left; eauto|].
  destruct (extract_messages R th) as [msgs|e0];
    [|intros [= <- <-]; right; left; eauto].
  destruct (turn_writes _ _ _ _ _) as [turns n].
  destruct (write_all _) as [body [e0|]];
    [intros [= <- <-]; right; left; eauto|].
  rewrite getsize_written. unfold append_lines.
  destruct (open_error R index_path);
    [intros [= <- <-]; right; left; eauto|].
  destruct (write_all _) as [row [e0|]];
    intros [= <- <-]; right; right; eauto.
Qed.

(** Why a pass through the body raises: the title is no string, the turns
    cannot be collected, the file system refuses the thread's file or the
    index, or a text cannot be encoded. It leaves the index as it was. *)
Lemma thread_step_abort thread_idx thread t w e w' :
  thread_step R folder max_threads max_messages_per_file
              thread_idx thread t w = (Abort e, w') ->
  (exists th,
     thread = VDict th
     /\ thread_limit_hit max_threads thread_idx = false
     /\ ((e = AttributeError
          /\ forall title, thread_title thread_idx th <> VStr title)
         \/ (exists title,
               thread_title thread_idx th = VStr title
               /\ (extract_messages R th = Raise e
                   \/ open_error R (path_join folder
                                      (thread_filename thread_idx
                                         (sanitize_filename title true)))
                      = Some e
                   \/ open_error R index_path = Some e
                   \/ e = UnicodeEncodeError))))
  /\ forall text,
       files w !! index_path = Some text ->
       files w' !! index_path = Some text.
Proof.
  unfold thread_step.
  destruct (thread_limit_hit max_threads thread_idx) eqn:Hlim; [done|].
  destruct thread as [| | | | | |th]; try done.
  fold (thread_title thread_idx th).
  destruct (thread_title thread_idx th) as [| | | |title| |] eqn:Htitle;
    cbn [sanitize_title];
    try (intros [= <- <-]; split; [|done]; exists th;
         split; [done|]; split; [done|]; left; split; [done|];
         intros title; by rewrite Htitle).
  pose proof (thread_path_not_index folder thread_idx
                (sanitize_filename title true)) as Hne.
  assert (Hkeep : forall body text,
            files w !! index_path = Some text ->
            files (write_file (path_join folder
                                 (thread_filename thread_idx
                                    (sanitize_filename title true)))
                              body w) !! index_path = Some text).
  { intros body text Htext. rewrite files_write_file. by case_decide. }
  destruct (open_error R _) as [e0|] eqn:Hopen.
  { intros [= <- <-]. split; [|done]. exists th. repeat split.
    right. exists title. split; [done|]. by right; left. }
  destruct (write_all _) as [header [e0|]] eqn:Hhead.
  { intros [= <- <-]. split; [|by apply Hkeep]. exists th. repeat split.
    right. exists title. split; [done|]. do 3 right.
    destruct (write_all_cases
                (thread_header_lines R title (dict_get (lit "id") th (VStr []))
                   (dict_get (lit "inserted_at") th (VStr []))
                   (thread_filename thread_idx (sanitize_filename title true))))
      as [[_ H]|(_ & text & H & _)]; congruence. }
  destruct (extract_messages R th) as [msgs|e0] eqn:Hmsgs.
  2:{ intros [= <- <-]. split; [|by apply Hkeep]. exists th. repeat split.
      right. exists title. split; [done|]. by left. }
  destruct (turn_writes _ _ _ _ _) as [turns n].
  destruct (write_all (chat_heading :: _)) as [body [e0|]] eqn:Hbody.
  { intros [= <- <-]. split; [|by apply Hkeep]. exists th. repeat split.
    right. exists title. split; [done|]. do 3 right.
    destruct (write_all_cases
                (chat_heading :: turns ++ thread_footer_lines n))
      as [[_ H]|(_ & text & H & _)]; congruence. }
  rewrite getsize_written. unfold append_lines.
  destruct (open_error R index_path) as [e0|] eqn:Hindex.
  { intros [= <- <-]. split; [|by apply Hkeep]. exists th. repeat split.
    right. exists title. split; [done|]. by right; right; left. }
  cbn [write_all]. destruct (utf8_encodable _); [done|].
  intros [= <- <-]. split.
  - exists th. repeat split.
    right. exists title. split; [done|]. by do 3 right.
  - intros text Htext. rewrite files_append_file, decide_True by done.
    rewrite (Hkeep _ _ Htext). cbn [default from_option id].
    by rewrite List.app_nil_r.
Qed.

(** Whatever the outcome of a pass through the body, it writes to the
    thread's own file and to the index only. *)
Lemma thread_step_frame thread_idx thread t w r w' p :
  thread_step R folder max_threads max_messages_per_file
              thread_idx thread t w = (r, w') ->
  ~ join_prefix folder `prefix_of` p ->
  dirs w' = dirs w /\ files w' !! p = files w !! p.
Proof.
  intros Hstep Hp.
  assert (Hthread : forall safe, path_join folder (thread_filename thread_idx safe) <> p).
  { intros safe <-. apply Hp. rewrite path_join_thread_filename.
    by apply prefix_app_r. }
  assert (Hindex : index_path <> p).
  { intros <-. apply Hp. rewrite path_join_index. by apply prefix_app_r. }
  apply thread_step_world in Hstep
    as [->|[(safe & text & ->)|(safe & text & row & ->)]]; [done|..].
  - split; [done|]. rewrite files_write_file.
    case_decide; [exfalso; by eapply Hthread | done].
  - split; [done|]. rewrite files_append_file, !files_write_file.
    repeat case_decide; try done; exfalso; by eapply Hthread.
Qed.

Lemma process_threads_frame thread_idx data t w r w' p :
  process_threads R folder max_threads max_messages_per_file
                  thread_idx data t w = (r, w') ->
  ~ join_prefix folder `prefix_of` p ->
  dirs w' = dirs w /\ files w' !! p = files w !! p.
Proof.
  intros Hloop Hp. revert thread_idx t w Hloop.
  induction data as [|thread rest IH]; intros idx t w; simpl.
  - by intros [= <- <-].
  - destruct (thread_step _ _ _ _ _ _ _ _) as [[t1| |e] w1] eqn:Hstep;
      intros Hloop;
      destruct (thread_step_frame _ _ _ _ _ _ p Hstep Hp) as [Hd Hf].
    + destruct (IH _ _ _ Hloop) as [Hd' Hf']. split; congruence.
    + by injection Hloop as <- <-.
    + by injection Hloop as <- <-.
Qed.

(** A run of the loop that raises was stopped by a thread that is an
    object, at a position within the limit, and leaves the index with the
    rows of the threads exported before. *)
Lemma process_threads_raises thread_idx data t w e w' text :
  process_threads R folder max_threads max_messages_per_file
                  thread_idx data t w = (Raise e, w') ->
  files w !! index_path = Some text ->
  exists i thread t0 w0 w1 rows,
    data !! i = Some thread
    /\ thread_step R folder max_threads max_messages_per_file
                   (thread_idx + i) thread t0 w0 = (Abort e, w1)
    /\ Forall (row_of R max_threads max_messages_per_file thread_idx data)
              rows
    /\ Forall (fun s => (st_idx s < thread_idx + i)%nat) rows
    /\ files w' !! index_path
       = Some (text ++ concat (map (index_row R) rows)).
Proof.
  revert thread_idx t w text.
  induction data as [|thread rest IH]; intros idx t w text;
    cbn [process_threads]; [done|].
  destruct (thread_step R folder max_threads max_messages_per_file
                        idx thread t w) as [[t1| |e0] w1] eqn:Hstep;
    [|done|].
  - pose proof Hstep as Hnext. apply thread_step_next in Hnext
      as [Hlim [(Hnd & -> & ->)
               |(th & title & msgs & -> & Htitle & Hmsgs & Hio)]].
    + intros Hloop Htext.
      destruct (IH _ _ _ _ Hloop Htext)
        as (i & th & t0 & w0 & w2 & rows & Hat & Hab & Hrows & Hlt & Hidx).
      exists (S i), th, t0, w0, w2, rows.
      replace (idx + S i)%nat with (S idx + i)%nat by lia.
      repeat split; try done.
      eapply Forall_impl; [exact Hrows|]. intros s. apply row_of_shift.
    + rewrite (thread_step_exported R folder max_threads max_messages_per_file
                 idx th title msgs t w Hlim Htitle Hmsgs Hio) in Hstep.
      cbv zeta in Hstep. apply pair_equal_spec in Hstep as [Ht1 Hw1].
      injection Ht1 as <-. subst w1.
      intros Hloop Htext.
      set (row := thread_row R max_messages_per_file idx th title msgs) in *.
      destruct (IH _ _ _ (text ++ index_row R row) Hloop)
        as (i & th' & t0 & w0 & w2 & rows & Hat & Hab & Hrows & Hlt & Hidx).
      { rewrite files_append_file, !files_write_file.
        assert (Hne : path_join folder (st_filename row) <> index_path)
          by apply thread_path_not_index.
        repeat case_decide; rewrite ?Htext; done. }
      exists (S i), th', t0, w0, w2, (row :: rows).
      replace (idx + S i)%nat with (S idx + i)%nat by lia.
      repeat split; try done.
      * constructor.
        -- exists th, title, msgs. subst row. simpl.
           rewrite Nat.sub_diag. repeat split; done.
        -- eapply Forall_impl; [exact Hrows|]. intros s.
           apply row_of_shift.
      * constructor; [subst row; simpl; lia | done].
      * rewrite Hidx. simpl. by rewrite <- app_assoc.
  - intros [= <- <-] Htext.
    destruct (thread_step_abort _ _ _ _ _ _ Hstep) as [_ Hkeep].
    exists 0%nat, thread, t, w, w1, []. rewrite Nat.add_0_r.
    repeat split; try done; try constructor.
    cbn [map concat]. rewrite List.app_nil_r. by apply Hkeep.
Qed.

Lemma thread_step_dirs thread_idx thread t w r w' :
  thread_step R folder max_threads max_messages_per_file
              thread_idx thread t w = (r, w') ->
  dirs w' = dirs w.
Proof.
  intros Hstep.
  by apply thread_step_world in Hstep
    as [->|[(safe & text & ->)|(safe & text & row & ->)]].
Qed.

Lemma process_threads_dirs thread_idx data t w r w' :
  process_threads R folder max_threads max_messages_per_file
                  thread_idx data t w = (r, w') ->
  dirs w' = dirs w.
Proof.
  revert thread_idx t w.
  induction data as [|thread rest IH]; intros idx t w; cbn [process_threads].
  - by intros [= <- <-].
  - destruct (thread_step _ _ _ _ _ _ _ _) as [[t1| |e] w1] eqn:Hstep;
      intros Hloop; apply thread_step_dirs in Hstep.
    + apply IH in Hloop. congruence.
    + by injection Hloop as <- <-.
    + by injection Hloop as <- <-.
Qed.

End Frame.

(** What [write_lines] and [append_lines] leave of the other files. *)
Lemma write_lines_frame R p chunks w r w' q :
  write_lines R p chunks w = (r, w') ->
  p <> q ->
  dirs w' = dirs w /\ files w' !! q = files w !! q.
Proof.
  unfold write_lines. destruct (open_error R p); [by intros [= <- <-]|].
  destruct (write_all chunks) as [text failed]. intros [= <- <-] Hne.
  split; [done|]. rewrite files_write_file. by case_decide.
Qed.

Lemma append_lines_frame R p chunks w r w' q :
  append_lines R p chunks w = (r, w') ->
  p <> q ->
  dirs w' = dirs w /\ files w' !! q = files w !! q.
Proof.
  unfold append_lines. destruct (open_error R p); [by intros [= <- <-]|].
  destruct (write_all chunks) as [text failed]. intros [= <- <-] Hne.
  split; [done|]. rewrite files_append_file. by case_decide.
Qed.

(** The file system of every outcome of [export_threads] differs from the
    one it started with inside the export folder only. *)
Lemma export_threads_world (R : runtime) (input_file : pystr)
    (max_threads max_messages_per_file : option Z) (w : world) (p : pystr) :
  let w' :=
    (export_threads R input_file max_threads max_messages_per_file w).2 in
  let folder := export_folder R input_file in
  (~ join_prefix folder `prefix_of` p -> files w' !! p = files w !! p)
  /\ (dirs w' = dirs w \/ dirs w' = {[folder]} ∪ dirs w).
Proof.
  cbv zeta. unfold export_threads.
  destruct (load_input R input_file) as [[data|]|]; [|by split; [|left]..].
  set (folder := export_folder R input_file).
  assert (Hw0 : exists r w0,
            create_thread_folder R (lit "deepseek_" ++ path_stem R input_file) w
            = (r, w0)
            /\ (r = Ok folder \/ exists e, r = Raise e)
            /\ files w0 = files w
            /\ (dirs w0 = dirs w \/ dirs w0 = {[folder]} ∪ dirs w)).
  { destruct (create_thread_folder_cases R
                (lit "deepseek_" ++ path_stem R input_file) w)
      as [[_ H]|[(_ & _ & H)|(_ & e & _ & H)]]; cbv zeta in H;
      rewrite H; eexists _, _; (split; [done|]).
    - split; [by left|]. split; [done | by left].
    - split; [by left|]. split; [done | by right].
    - split; [right; by eexists|]. split; [done | by left]. }
  destruct Hw0 as (r & w0 & -> & [->|[e ->]] & Hf0 & Hd0);
    [|cbn [snd]; by rewrite Hf0].
  assert (Hindex : ~ join_prefix folder `prefix_of` p ->
                   path_join folder index_name <> p).
  { intros Hp <-. apply Hp. rewrite path_join_index. by apply prefix_app_r. }
  destruct (write_lines R _ _ w0) as [[e|] w1] eqn:Hhead; cbn [snd].
  { split.
    - intros Hp.
      destruct (write_lines_frame _ _ _ _ _ _ p Hhead (Hindex Hp)) as [_ ->].
      by rewrite Hf0.
    - destruct (write_lines_frame _ _ _ _ _ _ [] Hhead) as [-> _]; [|done].
      rewrite path_join_index. by destruct (join_prefix folder). }
  assert (Hd1 : dirs w1 = dirs w0).
  { unfold write_lines in Hhead. destruct (open_error R _); [done|].
    destruct (write_all _). by injection Hhead as _ <-. }
  destruct (process_threads _ _ _ _ _ _ _ _) as [[t|e] w2] eqn:Hloop.
  2:{ cbn [snd]. split.
      - intros Hp.
        destruct (process_threads_frame _ _ _ _ _ _ _ _ _ _ p Hloop Hp)
          as [_ ->].
        destruct (write_lines_frame _ _ _ _ _ _ p Hhead (Hindex Hp)) as [_ ->].
        by rewrite Hf0.
      - rewrite (process_threads_dirs _ _ _ _ _ _ _ _ _ _ Hloop), Hd1.
        exact Hd0. }
  destruct (append_lines R _ _ w2) as [r3 w3] eqn:Hfoot.
  assert (Hd3 : dirs w3 = dirs w2).
  { unfold append_lines in Hfoot. destruct (open_error R _);
      [by injection Hfoot as _ <-|].
    destruct (write_all _). by injection Hfoot as _ <-. }
  assert (Hres : forall r', (match r3 with
                             | Some e => (Raise e, w3)
                             | None => (r', w3)
                             end : result (option pystr) * world).2 = w3)
    by (intros r'; by destruct r3).
  destruct r3 as [e|]; cbn [snd]; (split;
    [intros Hp;
     destruct (append_lines_frame _ _ _ _ _ _ p Hfoot (Hindex Hp)) as [_ ->];
     destruct (process_threads_frame _ _ _ _ _ _ _ _ _ _ p Hloop Hp)
       as [_ ->];
     destruct (write_lines_frame _ _ _ _ _ _ p Hhead (Hindex Hp)) as [_ ->];
     by rewrite Hf0
    |rewrite Hd3, (process_threads_dirs _ _ _ _ _ _ _ _ _ _ Hloop), Hd1;
     exact Hd0]).
Qed.

Lemma export_threads_frame (R : runtime) (input_file : pystr)
    (max_threads max_messages_per_file : option Z) (w : world) (p : pystr) :
  ~ join_prefix (export_folder R input_file) `prefix_of` p ->
  files (export_threads R input_file max_threads max_messages_per_file w).2
    !! p
  = files w !! p.
Proof.
  intros Hp.
  by apply (export_threads_world R input_file max_threads
              max_messages_per_file w p).
Qed.

(** Whatever its outcome, [export_threads] leaves every file outside its
    export folder as it was (the input file among them), and creates no
    directory but that folder. *)
Theorem export_threads_touches_folder_only (R : runtime) (input_file : pystr)
    (max_threads max_messages_per_file : option Z) (w : world) :
  let w' :=
    (export_threads R input_file max_threads max_messages_per_file w).2 in
  (forall p,
     ~ join_prefix (export_folder R input_file) `prefix_of` p ->
     files w' !! p = files w !! p)
  /\ (dirs w' = dirs w \/ dirs w' = {[export_folder R input_file]} ∪ dirs w).
Proof.
  cbv zeta. split.
  - intros p Hp. by apply export_threads_frame.
  - apply (export_threads_world R input_file max_threads
             max_messages_per_file w []).
Qed.

(** The sample export leaves the input file and the user's notes alone. *)
Lemma export_threads_frame_witness :
  files (export_threads sample_runtime (lit "in.json") None None home_world).2
  !! lit "notes.txt" = Some (lit "keep").
Proof.
  rewrite (proj1 (export_threads_touches_folder_only sample_runtime
                    (lit "in.json") None None home_world) (lit "notes.txt")).
  - reflexivity.
  - intros [k Hk]. vm_compute in Hk. discriminate.
Defined.

(** A malformed thread stops the export. When [export_threads] raises
    [AttributeError] or [TypeError], which neither reading the input nor
    the file system raises, the input was read and a thread that is an
    object, at a position within the limit, has a title that is no string
    or a mapping whose turns cannot be collected; the index is left with
    its header and the rows of threads exported before that one, and is
    not completed by the totals. *)
Theorem export_threads_failure (R : runtime) (input_file : pystr)
    (max_threads max_messages_per_file : option Z) (w : world)
    (e : exn) (w' : world) :
  export_threads R input_file max_threads max_messages_per_file w
  = (Raise e, w') ->
  e = AttributeError \/ e = TypeError ->
  json_load R input_file Utf8 <> OtherLoadError e ->
  (forall p, open_error R p <> Some e) ->
  (forall p, makedirs_error R p <> Some e) ->
  exists data i th rows,
    load_input R input_file = Ok (Some data)
    /\ threads_of data !! i = Some (VDict th)
    /\ thread_limit_hit max_threads (S i) = false
    /\ ((e = AttributeError
         /\ forall title, thread_title (S i) th <> VStr title)
        \/ extract_messages R th = Raise e)
    /\ Forall (row_of R max_threads max_messages_per_file 1 (threads_of data))
              rows
    /\ Forall (fun s => (st_idx s <= i)%nat) rows
    /\ files w' !! path_join (export_folder R input_file) index_name
       = Some (index_header R input_file (length (threads_of data))
               ++ concat (map (index_row R) rows)).
Proof.
  intros Hrun He Hload Hopen Hmk. revert Hrun. unfold export_threads.
  destruct (load_input R input_file) as [[data|]|e0] eqn:Hin; [|done|].
  2:{ intros [= <- <-]. exfalso. apply Hload.
      unfold load_input in Hin.
      destruct (json_load R input_file Utf8); try done; [|congruence].
      by destruct (json_load R input_file Utf8Sig). }
  fold (threads_of data).
  replace (match data with VList l => length l | _ => 1%nat end)
    with (length (threads_of data)) by (by destruct data).
  destruct (create_thread_folder_cases R
              (lit "deepseek_" ++ path_stem R input_file) w)
    as [[_ H]|[(_ & _ & H)|(_ & e1 & He1 & H)]]; cbv zeta in H; rewrite H;
    clear H; fold (export_folder R input_file);
    [| |intros [= <- <-]; by destruct (Hmk _ He1)].
  all: set (folder := export_folder R input_file).
  all: match goal with |- context [write_lines _ _ _ ?w0] =>
         destruct (write_lines R (path_join folder index_name)
                     (index_header_lines R input_file
                        (length (threads_of data))) w0) as [[e1|] w1] eqn:Hhead
       end.
  all: try (intros [= <- <-];
            apply write_lines_failed in Hhead
              as [[Ho _]|(_ & -> & _)];
            [by destruct (Hopen _ Ho) | by destruct He]).
  all: apply write_lines_done in Hhead as (_ & _ & ->);
    rewrite index_header_lines_text.
  all: destruct (process_threads _ _ _ _ _ _ _ _) as [[t|e1] w2] eqn:Hloop.
  all: try (destruct (append_lines R _ _ w2) as [[e1|] w3] eqn:Hfoot; [|done];
            intros [= <- <-];
            apply append_lines_failed in Hfoot
              as [[Ho _]|(_ & -> & _)];
            [by destruct (Hopen _ Ho) | by destruct He]).
  all: intros [= <- <-].
  all: eapply process_threads_raises in Hloop
         as (i & thread & t0 & w0 & w3 & rows & Hat & Hstep & Hrows & Hlt
             & Hidx);
    [|rewrite files_write_file; by rewrite decide_True].
  all: apply thread_step_abort in Hstep as [(th & -> & Hlim & Hcause) _].
  all: exists data, i, th, rows; split; [done|]; split; [done|].
  all: split; [done|]; split;
    [|split; [done|]; split;
      [eapply Forall_impl; [exact Hlt|]; intros s Hs; simpl in Hs; lia
      |done]].
  all: destruct Hcause as [Hc|(title & Ht & [Hc|[Hc|[Hc|Hc]]])];
    [by left | by right | by destruct (Hopen _ Hc)
    | by destruct (Hopen _ Hc) | rewrite Hc in He; by destruct He].
Qed.

(** A thread with a number for its title stops the export: the first
    thread has its row, the index has no totals. *)
Lemma export_threads_failure_witness :
  exists w' i th rows,
    export_threads (example_runtime (Loaded broken_document)) (lit "in.json")
                   None None empty_world
    = (Raise AttributeError, w')
    /\ threads_of broken_document !! i = Some (VDict th)
    /\ files w' !! path_join sample_folder index_name
       = Some (index_header (example_runtime (Loaded broken_document))
                            (lit "in.json") 3
               ++ concat (map (index_row (example_runtime (Loaded broken_document)))
                              rows)).
Proof.
  destruct (export_threads (example_runtime (Loaded broken_document))
              (lit "in.json") None None empty_world) as [[r|e] w'] eqn:Hrun;
    [vm_compute in Hrun; discriminate|].
  assert (e = AttributeError) as ->
    by (vm_compute in Hrun; by injection Hrun as <- _).
  destruct (export_threads_failure _ _ _ _ _ _ _ Hrun)
    as (data & i & th & rows & Hload & Hat & _ & _ & _ & _ & Hindex);
    [by left | done | done | done |].
  injection Hload as <-. exists w', i, th, rows.
  split; [done|]. split; [exact Hat | exact Hindex].
Defined.

(** [create_thread_folder], for a name without a separator that is there
    already or that [os.makedirs] accepts: it returns the base name with
    the time stamp; afterwards that path exists; no file is touched and no
    other directory is created; a folder that is already there is left as
    it is, so a second call changes nothing. *)
Theorem create_thread_folder_creates (R : runtime) (base_folder : pystr)
    (w : world) :
  let folder := base_folder ++ [ch_underscore] ++ now_folder R in
  (ch_slash ∉ folder) ->
  (path_exists folder w = true \/ makedirs_error R folder = None) ->
  exists w',
    create_thread_folder R base_folder w = (Ok folder, w')
    /\ path_exists folder w' = true
    /\ files w' = files w
    /\ (forall d, d ∈ dirs w' <-> d = folder /\ path_exists folder w = false
                                  \/ d ∈ dirs w)
    /\ (path_exists folder w = true -> w' = w)
    /\ create_thread_folder R base_folder w' = (Ok folder, w').
Proof.
  cbv zeta. intros _ Hok. unfold create_thread_folder.
  set (folder := base_folder ++ [ch_underscore] ++ now_folder R) in *.
  destruct (path_exists folder w) eqn:Hex.
  - exists w. rewrite Hex. repeat split; try done.
    + intros Hd. by right.
    + by intros [[_ [=]]|Hd].
  - destruct Hok as [|Hmk]; [done|]. rewrite Hmk.
    exists (makedirs folder w).
    assert (Hnow : path_exists folder (makedirs folder w) = true).
    { unfold path_exists, makedirs. simpl.
      rewrite bool_decide_eq_true_2; [done|]. set_solver. }
    rewrite Hnow. repeat split; try done.
    + unfold makedirs. simpl. intros Hd.
      apply elem_of_union in Hd as [Hd|Hd]; [left | by right].
      apply elem_of_singleton in Hd. by split.
    + unfold makedirs. simpl. intros [[-> _]|Hd]; set_solver.
Qed.

(** The folder of the sample export in an empty directory. *)
Lemma create_thread_folder_witness :
  exists w',
    create_thread_folder plain_runtime (lit "deepseek_in") empty_world
    = (Ok sample_folder, w')
    /\ path_exists sample_folder w' = true.
Proof.
  destruct (create_thread_folder_creates plain_runtime (lit "deepseek_in")
              empty_world) as (w' & Hrun & Hex & _).
  - intros Hin. apply list_elem_of_In in Hin. vm_compute in Hin.
    repeat (destruct Hin as [Hin|Hin]; [discriminate Hin|]). exact Hin.
  - by right.
  - exists w'. split; [exact Hrun | exact Hex].
Defined.

(** ** Positions and default titles *)

Lemma dec_nonempty n : dec n <> [].
Proof.
  unfold dec.
  assert (H : Nat.to_uint n <> Decimal.Nil).
  { rewrite <- (DecimalNat.Unsigned.of_to n) at 1.
    rewrite DecimalNat.Unsigned.to_of. apply DecimalFacts.unorm_nonnil. }
  by destruct (Nat.to_uint n).
Qed.

(** The position of a thread can be read back from its file name: the
    digits the name starts with denote the position, with exactly three
    digits for the positions below 1000. *)
Theorem thread_filename_position (thread_idx : nat) (safe_title : pystr) :
  Nat.of_uint (chars_uint (leading_digits (thread_filename thread_idx safe_title)))
  = thread_idx
  /\ ((thread_idx < 1000)%nat ->
      length (leading_digits (thread_filename thread_idx safe_title)) = 3%nat).
Proof.
  rewrite leading_digits_thread_filename. split; [apply dec03_parse|].
  intros Hlt.
  assert (H : forallb (fun n => (length (dec03 n) =? 3)%nat) (seq 0 1000) = true)
    by (vm_compute; reflexivity).
  rewrite forallb_forall in H. apply Nat.eqb_eq, H, in_seq. lia.
Qed.

Lemma digit_char_safe c :
  is_ascii_digit c = true ->
  is_unsafe c = false /\ is_control c = false /\ c <> ch_space
  /\ c ∉ strip_set.
Proof.
  unfold is_ascii_digit. intros H. apply andb_true_iff in H as [H1 H2].
  apply N.leb_le in H1, H2.
  assert (Hne : forall k, (k < 48 \/ 57 < k)%N -> (c =? k)%N = false)
    by (intros k Hk; apply N.eqb_neq; lia).
  repeat split.
  - unfold is_unsafe, unsafe_chars. simpl. rewrite !Hne by lia. done.
  - unfold is_control. rewrite Hne by lia.
    destruct (N.leb_spec c 31); [lia | done].
  - unfold ch_space. lia.
  - unfold strip_set, ch_dot, ch_underscore, ch_space. intros Hin.
    apply list_elem_of_In in Hin. simpl in Hin.
    destruct Hin as [<-|[<-|[<-|[]]]]; lia.
Qed.

Lemma digits_no_double s :
  Forall (fun c => is_ascii_digit c = true) s -> no_double_underscore s.
Proof.
  induction 1 as [|c s Hc Hs IH]; simpl; [done|]. split; [|done].
  intros [-> _]. done.
Qed.

(** The title a thread without one is given is a safe name. *)
Lemma default_title_safe n : safe_name true (lit "Thread_" ++ dec n).
Proof.
  pose proof (uint_chars_digits (Nat.to_uint n)) as Hd. fold (dec n) in Hd.
  pose proof (dec_nonempty n) as Hne.
  split; [|split].
  - apply Forall_app. split.
    + repeat constructor; discriminate.
    + eapply Forall_impl; [exact Hd|]. intros c Hc.
      destruct (digit_char_safe c Hc) as (H1 & H2 & H3 & _). done.
  - apply no_double_app; [vm_compute; intuition discriminate
                         | by apply digits_no_double |].
    destruct (dec n) as [|c d]; [done|]. apply Forall_cons in Hd as [Hc _].
    simpl. intros [= ->]. done.
  - intros c [Hc|Hc].
    + injection Hc as <-. vm_compute. intros Hin.
      apply list_elem_of_In in Hin. vm_compute in Hin. intuition discriminate.
    + rewrite last_app in Hc. destruct (last (dec n)) as [x|] eqn:Hlast.
      * injection Hc as ->. apply last_Some in Hlast as [d' Hd'].
        rewrite Hd' in Hd. apply Forall_app in Hd as [_ Hx].
        apply Forall_cons in Hx as [Hx _].
        by destruct (digit_char_safe c Hx) as (_ & _ & _ & H4).
      * apply last_None in Hlast. done.
Qed.

(** A thread that is an object without a title and without a mapping is
    exported under the title [Thread_N] of its position [N], to the file
    [NNN_Thread_N.md], with no turn and a statistics line of 0, when the
    file system takes that file and its row of the index (for a position
    of at most 193 digits, so that the name is not cut). *)
Theorem thread_without_title_exported (R : runtime) (folder : pystr)
    (max_threads max_messages_per_file : option Z) (thread_idx : nat)
    (th : list (pystr * value)) (t : totals) (w : world) :
  dict_lookup (lit "title") th = None ->
  dict_lookup (lit "mapping") th = None ->
  thread_limit_hit max_threads thread_idx = false ->
  (length (dec thread_idx) <= 193)%nat ->
  thread_written R folder max_messages_per_file thread_idx th
                 (lit "Thread_" ++ dec thread_idx) [] ->
  let title := lit "Thread_" ++ dec thread_idx in
  let filename := dec03 thread_idx ++ lit "_Thread_" ++ dec thread_idx
                  ++ lit ".md" in
  exists size w',
    thread_step R folder max_threads max_messages_per_file
                thread_idx (VDict th) t w
    = (Next (add_row t {| st_idx := thread_idx; st_filename := filename;
                          st_title := title; st_messages := 0;
                          st_size := size |}),
       w')
    /\ files w' !! path_join folder filename
       = Some (thread_header R title (dict_get (lit "id") th (VStr []))
                 (dict_get (lit "inserted_at") th (VStr [])) filename
               ++ chat_heading ++ thread_footer 0).
Proof.
  intros Htitle Hmapping Hlim Hlen Hio. cbv zeta.
  assert (Ht : thread_title thread_idx th = VStr (lit "Thread_" ++ dec thread_idx))
    by (unfold thread_title, dict_get; by rewrite Htitle).
  assert (Hm : extract_messages R th = Ok [])
    by (unfold extract_messages, dict_get; by rewrite Hmapping).
  rewrite (thread_step_exported R folder max_threads max_messages_per_file
             thread_idx th _ [] t w Hlim Ht Hm Hio). cbv zeta.
  assert (Hsafe : sanitize_filename (lit "Thread_" ++ dec thread_idx) true
                  = lit "Thread_" ++ dec thread_idx).
  { rewrite sanitize_filename_of_safe_name;
      [|rewrite length_app; change (length (lit "Thread_")) with 7%nat; lia
       |apply default_title_safe].
    rewrite bool_decide_eq_false_2 by done.
    by rewrite bool_decide_eq_false_2. }
  assert (Hname : thread_filename thread_idx (lit "Thread_" ++ dec thread_idx)
                  = dec03 thread_idx ++ lit "_Thread_" ++ dec thread_idx
                    ++ lit ".md").
  { unfold thread_filename. by rewrite <- !app_assoc. }
  assert (Hturns : thread_turns R max_messages_per_file [] = []).
  { unfold thread_turns, turns_written, turns_from.
    destruct max_messages_per_file as [m|]; [|done].
    destruct (m =? 0); [done|]. apply take_nil. }
  assert (Hdoc : thread_document R max_messages_per_file thread_idx th
                   (lit "Thread_" ++ dec thread_idx) []
                 = thread_header R (lit "Thread_" ++ dec thread_idx)
                     (dict_get (lit "id") th (VStr []))
                     (dict_get (lit "inserted_at") th (VStr []))
                     (dec03 thread_idx ++ lit "_Thread_" ++ dec thread_idx
                      ++ lit ".md")
                   ++ chat_heading ++ thread_footer 0).
  { unfold thread_document, thread_note. rewrite Hsafe, Hname, Hturns.
    change (sort_messages R []) with (@nil msg).
    cbn [length map concat]. case_decide; [lia|]. by rewrite List.app_nil_r. }
  eexists _, _. split.
  - f_equal. f_equal. unfold thread_row. rewrite Hsafe, Hname, Hturns.
    reflexivity.
  - cbn [st_filename thread_row]. rewrite Hsafe, Hname, Hdoc.
    rewrite <- Hname.
    pose proof (thread_path_not_index folder thread_idx
                  (lit "Thread_" ++ dec thread_idx)) as Hne.
    rewrite files_append_file, !files_write_file.
    by repeat case_decide.
Qed.

Lemma thread_without_title_witness :
  exists size w',
    thread_step plain_runtime sample_folder None None 7 (VDict [])
                no_totals empty_world
    = (Next (add_row no_totals
               {| st_idx := 7; st_filename := lit "007_Thread_7.md";
                  st_title := lit "Thread_7"; st_messages := 0;
                  st_size := size |}),
       w').
Proof.
  destruct (thread_without_title_exported plain_runtime sample_folder None None
              7 [] no_totals empty_world eq_refl eq_refl eq_refl)
    as (size & w' & Hstep & _);
    [vm_compute; lia | repeat split; by vm_compute |].
  exists size, w'. exact Hstep.
Defined.

(** The hypothesis on the file system is needed: for a thread whose id
    holds a lone surrogate, the [write] of the id raises, the export of
    the thread stops, and its file is left with the two lines written
    before. *)
Lemma thread_with_unencodable_id_aborts :
  exists w',
    thread_step plain_runtime sample_folder None None 7
                (VDict [(lit "id", VStr [55296%N])]) no_totals empty_world
    = (Abort UnicodeEncodeError, w')
    /\ files w' !! path_join sample_folder (lit "007_Thread_7.md")
       = Some (lit "# Thread_7" ++ [10; 10]%N
               ++ lit "**Metadaten:**" ++ [10%N]).
Proof. eexists. split; by vm_compute. Qed.
(** * Finding the input file *)

Lemma find_first {A} (P : A -> bool) (l : list A) (x : A) :
  List.find P l = Some x ->
  exists before after,
    l = before ++ x :: after
    /\ Forall (fun y => P y = false) before /\ P x = true.
Proof.
  induction l as [|y l IH]; [done|]. simpl.
  destruct (P y) eqn:Hy.
  - intros [= ->]. by exists [], l.
  - intros (before & after & -> & Hb & Hx)%IH.
    exists (y :: before), after. repeat split; [|done]. by constructor.
Qed.


Lemma find_none_all {A} (P : A -> bool) (l : list A) :
  List.find P l = None <-> Forall (fun y => P y = false) l.
Proof.
  induction l as [|y l IH]; simpl; [by split; [constructor|]|].
  destruct (P y) eqn:Hy.
  - split; [done|]. by intros [Hf _]%Forall_cons; congruence.
  - rewrite IH. split; [by constructor | by intros [_ ?]%Forall_cons].
Qed.

Lemma forallb_all {A} (P : A -> bool) (l : list A) :
  forallb P l = true <-> Forall (fun x => P x = true) l.
Proof.
  induction l as [|x l IH]; simpl; [by split; [constructor|]|].
  rewrite andb_true_iff, IH. split.
  - intros [? ?]. by constructor.
  - by intros [? ?]%Forall_cons.
Qed.

Lemma forallb_false_exists {A} (P : A -> bool) (l : list A) :
  forallb P l = false -> exists x, x ∈ l /\ P x = false.
Proof.
  induction l as [|x l IH]; simpl; [done|].
  destruct (P x) eqn:Hx; simpl.
  - intros (y & Hin & Hy)%IH. exists y. split; [by constructor | done].
  - intros _. exists x. split; [by constructor | done].
Qed.

Lemma json_files_listed S w f :
  f ∈ json_files S w <-> f ∈ listdir S w /\ is_json_name S f = true.
Proof.
  unfold json_files. rewrite !list_elem_of_In, List.filter_In. done.
Qed.

(** What [find_json_file] does once the argument is of no use. *)
Lemma find_json_file_no_arg S input_arg stdin w :
  (forall a, input_arg = Some a -> a = [] \/ path_exists a w = false) ->
  find_json_file S input_arg stdin w = find_json_file S None stdin w.
Proof.
  intros Harg. destruct input_arg as [a|]; [|done].
  unfold find_json_file.
  destruct (Harg a eq_refl) as [-> | ->]; [done|].
  by rewrite andb_false_r.
Qed.

Lemma find_json_file_arg S a stdin w :
  a <> [] -> path_exists a w = true ->
  find_json_file S (Some a) stdin w = (Ok (Some a), stdin).
Proof.
  intros Ha Hex. unfold find_json_file. rewrite Hex.
  by destruct a.
Qed.

Lemma find_json_file_arg_cases S input_arg stdin w :
  (exists a, input_arg = Some a /\ a <> [] /\ path_exists a w = true
             /\ find_json_file S input_arg stdin w = (Ok (Some a), stdin))
  \/ ((forall a, input_arg = Some a -> a = [] \/ path_exists a w = false)
      /\ find_json_file S input_arg stdin w = find_json_file S None stdin w).
Proof.
  destruct input_arg as [a|]; [|by right].
  destruct a as [|c a]; [right; split; [|done]; by intros ? [= <-]; left|].
  destruct (path_exists (c :: a) w) eqn:Hex.
  - left. exists (c :: a). repeat split; [done..|].
    by apply find_json_file_arg.
  - right. split; [by intros ? [= <-]; right|].
    apply find_json_file_no_arg. intros ? [= <-]. by right.
Qed.

(** Every way through [find_json_file]. *)
Lemma find_json_file_cases S input_arg stdin w :
  let r := find_json_file S input_arg stdin w in
  (exists a, input_arg = Some a /\ a <> [] /\ path_exists a w = true
             /\ r = (Ok (Some a), stdin))
  \/ ((forall a, input_arg = Some a -> a = [] \/ path_exists a w = false)
      /\ ((exists before f after,
             default_files = before ++ f :: after
             /\ Forall (fun d => path_exists d w = false) before
             /\ path_exists f w = true
             /\ r = (Ok (Some f), stdin))
          \/ (Forall (fun d => path_exists d w = false) default_files
              /\ ((json_files S w = [] /\ r = (Ok None, stdin))
                  \/ (exists f, json_files S w = [f]
                                /\ r = (Ok (Some f), stdin))
                  \/ ((2 <= length (json_files S w))%nat
                      /\ ((exists f, f ∈ json_files S w
                                     /\ path_exists f w = false
                                     /\ r = (Raise OSError, stdin))
                          \/ (Forall (fun f => path_exists f w = true)
                                     (json_files S w)
                              /\ match stdin with
                                 | [] => r = (Ok None, [])
                                 | line :: rest =>
                                     exists found,
                                       r = (Ok found, rest)
                                       /\ forall f,
                                            found = Some f
                                            <-> chosen S (json_files S w)
                                                       line f
                                 end))))))).
Proof.
  cbv zeta.
  destruct (find_json_file_arg_cases S input_arg stdin w)
    as [(a & -> & Ha & Hex & ->) | [Harg ->]]; [left; by exists a|].
  right. split; [done|]. clear Harg. unfold find_json_file.
  destruct (List.find _ default_files) as [d|] eqn:Hfind.
  { left. apply find_first in Hfind as (before & after & Hd & Hb & Hex).
    by exists before, d, after. }
  apply find_none_all in Hfind. right. split; [done|].
  destruct (json_files S w) as [|f1 [|f2 files]] eqn:Hjson;
    [by left | right; left; by exists f1 |].
  right; right. split; [simpl; lia|]. rewrite <- Hjson.
  destruct (forallb _ _) eqn:Hall.
  2:{ left. apply forallb_false_exists in Hall as (f & Hin & Hf).
      by exists f. }
  right. split; [by apply forallb_all|].
  destruct stdin as [|line rest]; [done|]. unfold chosen.
  destruct (int_of_line S line) as [choice|].
  - set (n := Z.of_nat (length (json_files S w))).
    destruct (Z.leb_spec 1 choice), (Z.leb_spec choice n); cbn [andb].
    + eexists. split; [done|]. intros f. split.
      * intros Hat. exists choice. by repeat split.
      * by intros (? & [= <-] & _ & Hat).
    + exists None. split; [done|]. intros f. split; [done|].
      intros (? & [= <-] & ? & _). lia.
    + exists None. split; [done|]. intros f. split; [done|].
      intros (? & [= <-] & ? & _). lia.
    + exists None. split; [done|]. intros f. split; [done|].
      intros (? & [= <-] & ? & _). lia.
  - exists None. split; [done|]. intros f. split; [done|].
    by intros (? & ? & _).
Qed.

(** The file [find_json_file] returns is the argument of the command
    line, which then is not empty and exists; or the first of the three
    default names that exists; or, when none of them exists, an entry of
    the directory whose name ends in [.json] whatever its case. It reads
    at most one line, and none in the first two cases. *)
Theorem find_json_file_sound (S : shell) (input_arg : option pystr)
    (stdin : list pystr) (w : world) (f : pystr) (stdin' : list pystr) :
  find_json_file S input_arg stdin w = (Ok (Some f), stdin') ->
  (input_arg = Some f /\ f <> [] /\ path_exists f w = true /\ stdin' = stdin)
  \/ ((exists before after,
         default_files = before ++ f :: after
         /\ Forall (fun d => path_exists d w = false) before)
      /\ path_exists f w = true /\ stdin' = stdin)
  \/ (Forall (fun d => path_exists d w = false) default_files
      /\ f ∈ listdir S w /\ is_json_name S f = true
      /\ (stdin' = stdin \/ exists line, stdin = line :: stdin')).
Proof.
  intros Hres.
  destruct (find_json_file_cases S input_arg stdin w)
    as [(a & -> & Ha & Hex & Hr)
       | [_ [(before & d & after & Hd & Hb & Hex & Hr)
            | [Hdef [[_ Hr] | [(f1 & Hjson & Hr)
                              | [_ [(f1 & _ & _ & Hr) | [Hall Hr]]]]]]]]];
    cbv zeta in Hr; rewrite Hres in Hr.
  - injection Hr as <- <-. by left.
  - injection Hr as <- <-. right; left. split; [by exists before, after|done].
  - done.
  - injection Hr as <- <-. right; right. split; [done|].
    assert (Hin : f ∈ json_files S w) by (rewrite Hjson; by constructor).
    apply json_files_listed in Hin as [? ?]. repeat split; [done..|by left].
  - done.
  - right; right. split; [done|]. destruct stdin as [|line rest]; [done|].
    destruct Hr as (found & [= <- <-] & Hfound).
    destruct (proj1 (Hfound f) eq_refl) as (choice & _ & _ & Hat).
    apply list_elem_of_lookup_2, json_files_listed in Hat as [? ?].
    repeat split; [done..|]. right. by exists line.
Qed.

Lemma find_json_file_sound_witness :
  let S := example_shell [lit "b.JSON"; lit "readme.md"; lit "a.json"] in
  let w := {| dirs := ∅;
              files := {[ lit "a.json" := lit "[]"; lit "b.JSON" := lit "[]" ]} |} in
  find_json_file S None [lit "2"; lit "1"] w
  = (Ok (Some (lit "a.json")), [lit "1"])
  /\ lit "a.json" ∈ listdir S w.
Proof.
  cbv zeta.
  assert (Hrun : find_json_file
                   (example_shell [lit "b.JSON"; lit "readme.md"; lit "a.json"])
                   None [lit "2"; lit "1"]
                   {| dirs := ∅;
                      files := {[ lit "a.json" := lit "[]";
                                  lit "b.JSON" := lit "[]" ]} |}
                 = (Ok (Some (lit "a.json")), [lit "1"])) by (by vm_compute).
  split; [done|].
  destruct (find_json_file_sound _ _ _ _ _ _ Hrun)
    as [(H & _) | [_ | (_ & H & _)]]; [done| |done].
  cbn [listdir example_shell]. rewrite list_elem_of_In. vm_compute. tauto.
Defined.



(** The question. With no argument of use, no default name and two or
    more [.json] entries that all exist, one line is read; a file is
    returned exactly when the line is a number between 1 and the number of
    entries, and it is the entry at that place of the listing. Any other
    line gives [None], as does the end of the input: nothing is raised. *)
Theorem find_json_file_choice (S : shell) (input_arg : option pystr)
    (line : pystr) (rest : list pystr) (w : world) :
  (forall a, input_arg = Some a -> a = [] \/ path_exists a w = false) ->
  Forall (fun d => path_exists d w = false) default_files ->
  (2 <= length (json_files S w))%nat ->
  Forall (fun f => path_exists f w = true) (json_files S w) ->
  exists found,
    find_json_file S input_arg (line :: rest) w = (Ok found, rest)
    /\ find_json_file S input_arg [] w = (Ok None, [])
    /\ forall f,
         found = Some f
         <-> exists choice : Z,
               int_of_line S line = Some choice
               /\ 1 <= choice <= Z.of_nat (length (json_files S w))
               /\ json_files S w !! Z.to_nat (choice - 1) = Some f.
Proof.
  intros Harg Hdef Hlen Hall.
  assert (Hway : forall stdin,
            match stdin with
            | [] => find_json_file S input_arg stdin w = (Ok None, [])
            | line :: rest =>
                exists found,
                  find_json_file S input_arg stdin w = (Ok found, rest)
                  /\ forall f,
                       found = Some f <-> chosen S (json_files S w) line f
            end).
  { intros stdin.
    destruct (find_json_file_cases S input_arg stdin w)
      as [(a & -> & Ha & Hex & _)
         | [_ [(before & d & after & Hd & Hb & Hex & _)
              | [_ [[Hjson _] | [(f1 & Hjson & _)
                                | [_ [(f1 & Hin & Hf & _) | [_ Hr]]]]]]]]].
    - destruct (Harg a eq_refl); congruence.
    - rewrite Hd in Hdef. apply Forall_app in Hdef as [_ Hdef].
      apply Forall_cons in Hdef as [? _]. congruence.
    - rewrite Hjson in Hlen. simpl in Hlen. lia.
    - rewrite Hjson in Hlen. simpl in Hlen. lia.
    - rewrite Forall_forall in Hall. specialize (Hall f1 Hin). congruence.
    - exact Hr. }
  destruct (Hway (line :: rest)) as (found & Hr & Hfound).
  exists found. split; [done|]. split; [exact (Hway [])|]. exact Hfound.
Qed.

Lemma find_json_file_choice_witness :
  let S := example_shell [lit "b.JSON"; lit "readme.md"; lit "a.json"] in
  let w := {| dirs := ∅;
              files := {[ lit "a.json" := lit "[]"; lit "b.JSON" := lit "[]" ]} |} in
  exists found,
    find_json_file S (Some []) [lit "3"; lit "1"] w = (Ok found, [lit "1"])
    /\ find_json_file S (Some []) [] w = (Ok None, [])
    /\ forall f,
         found = Some f
         <-> exists choice : Z,
               int_of_line S (lit "3") = Some choice
               /\ 1 <= choice <= Z.of_nat (length (json_files S w))
               /\ json_files S w !! Z.to_nat (choice - 1) = Some f.
Proof.
  cbv zeta. apply find_json_file_choice.
  - intros a [= <-]. by left.
  - by repeat constructor.
  - vm_compute. lia.
  - by repeat constructor.
Defined.
(** * The menu *)

Lemma press_enter_world stdin w : (press_enter stdin w).2 = w.
Proof. by destruct stdin. Qed.

(** [main] once a file that exists has been found. *)
Lemma main_found S R args stdin w f stdin1 :
  find_json_file S (head args) stdin w = (Ok (Some f), stdin1) ->
  f <> [] -> path_exists f w = true ->
  main S R args stdin w
  = match stdin1 with
    | [] => (Some EOFError, [], w)
    | line :: rest =>
        press_enter rest
          (menu_export R (strip_by (is_space R) line) f w).2
    end.
Proof.
  intros Hfind Hf Hex. unfold main. rewrite Hfind.
  destruct f as [|c name]; [done|]. rewrite Hex. by destruct stdin1.
Qed.

Lemma main_not_found S R args stdin w stdin1 :
  find_json_file S (head args) stdin w = (Ok None, stdin1) ->
  main S R args stdin w = press_enter stdin1 w.
Proof. intros Hfind. unfold main. by rewrite Hfind. Qed.

Lemma menu_export_cases R choice f w :
  exists max_threads max_messages_per_file,
    menu_export R choice f w
    = export_threads R f max_threads max_messages_per_file w.
Proof.
  unfold menu_export. repeat case_bool_decide; by eexists _, _.
Qed.

(** Whatever is typed, [main] changes no file outside the folder of
    the export of the file that was found, and nothing at all when none
    was found or [find_json_file] raised. *)
Theorem main_touches_folder_only (S : shell) (R : runtime)
    (args stdin : list pystr) (w : world) :
  let w' := (main S R args stdin w).2 in
  match (find_json_file S (head args) stdin w).1 with
  | Ok (Some f) =>
      forall p,
        ~ join_prefix (export_folder R f) `prefix_of` p ->
        files w' !! p = files w !! p
  | _ => w' = w
  end.
Proof.
  cbv zeta. unfold main.
  destruct (find_json_file S (head args) stdin w) as [[[f|]|e] stdin1];
    cbn [fst]; [|by rewrite press_enter_world | done].
  intros p Hp. destruct f as [|c f]; [by rewrite press_enter_world|].
  destruct (path_exists (c :: f) w); [|done].
  destruct stdin1 as [|line rest]; [done|]. rewrite press_enter_world.
  destruct (menu_export_cases R (strip_by (is_space R) line) (c :: f) w)
    as (mt & mm & ->).
  by apply export_threads_frame.
Qed.

(** The rows of the index and the file of each, for an export that
    returned. *)
Lemma export_threads_index R input_file max_threads max_messages_per_file
    w folder w' :
  export_threads R input_file max_threads max_messages_per_file w
  = (Ok (Some folder), w') ->
  exists data rows,
    load_input R input_file = Ok (Some data)
    /\ Forall (row_of R max_threads max_messages_per_file 1 (threads_of data))
              rows
    /\ StronglySorted (fun a b => (st_idx a < st_idx b)%nat) rows
    /\ Forall (row_file R max_messages_per_file folder 1 (threads_of data) w')
              rows
    /\ files w' !! path_join folder index_name
       = Some (index_header R input_file (length (threads_of data))
               ++ concat (map (index_row R) rows)
               ++ index_footer R folder (totals_of rows)).
Proof.
  intros Hrun.
  apply export_threads_returns in Hrun
    as (data & rows & w0 & w1 & Hload & -> & Hloop & ->).
  set (folder := export_folder R input_file) in *.
  destruct (exports_rows _ _ _ _ _ _ _ _ _ Hloop) as [Hrows Hsorted].
  destruct (exports_files _ _ _ _ _ _ _ _ _ Hloop) as (_ & Hindex & _ & Hfiles).
  exists data, rows. split; [done|]. split; [done|]. split; [done|].
  split.
  { rewrite Forall_forall in Hfiles, Hrows. apply Forall_forall. intros s Hs.
    destruct (Hfiles s Hs) as (th & title & msgs & Hat & Ht & Hm & Hfile & Hsize).
    exists th, title, msgs. repeat split; try done.
    rewrite files_append_file. rewrite decide_False; [done|].
    intros Heq. eapply row_path_not_index; [by apply Hrows | done]. }
  rewrite files_append_file, decide_True by done.
  rewrite (Hindex (index_header R input_file (length (threads_of data)))).
  - simpl. by rewrite <- app_assoc.
  - rewrite files_write_file. by rewrite decide_True.
Qed.

(** Option 2 of the menu. When the line typed is [2], with blanks
    around it or not, [main] leaves what [export_threads] leaves with
    [max_threads=5]; if that export returned, the index has at most five
    rows, of positions between 1 and 5, and the file of each is there. *)
Theorem main_trial_run (S : shell) (R : runtime) (args stdin : list pystr)
    (w : world) (f line : pystr) (stdin1 : list pystr) :
  find_json_file S (head args) stdin w = (Ok (Some f), line :: stdin1) ->
  f <> [] ->
  path_exists f w = true ->
  strip_by (is_space R) line = lit "2" ->
  let w' := (main S R args stdin w).2 in
  w' = (export_threads R f (Some 5) None w).2
  /\ forall folder,
       (export_threads R f (Some 5) None w).1 = Ok (Some folder) ->
       exists data rows,
         load_input R f = Ok (Some data)
         /\ (length rows <= 5)%nat
         /\ Forall (fun s => (1 <= st_idx s <= 5)%nat) rows
         /\ Forall (row_file R None folder 1 (threads_of data) w') rows
         /\ files w' !! path_join folder index_name
            = Some (index_header R f (length (threads_of data))
                    ++ concat (map (index_row R) rows)
                    ++ index_footer R folder (totals_of rows)).
Proof.
  intros Hfind Hf Hex Hline. cbv zeta.
  rewrite (main_found _ _ _ _ _ _ _ Hfind Hf Hex), press_enter_world, Hline.
  change (menu_export R (lit "2") f w)
    with (export_threads R f (Some 5) None w).
  split; [done|]. intros folder Hret.
  destruct (export_threads R f (Some 5) None w) as [r w1] eqn:Hrun.
  cbn [fst snd] in *. subst r.
  apply export_threads_index in Hrun
    as (data & rows & Hload & Hrows & Hsorted & Hfiles & Hindex).
  destruct (rows_within_limit R 5 None _ _ ltac:(done) Hrows Hsorted)
    as [Hidx Hlen].
  exists data, rows. repeat split; [done | lia | | done..].
  eapply Forall_impl; [exact Hidx|]. intros s [? ?]. simpl. lia.
Qed.

Lemma main_trial_run_witness :
  (main (example_shell []) (example_runtime (Loaded seven_threads))
        [lit "in.json"] [lit " 2 "; []] home_world).2
  = (export_threads (example_runtime (Loaded seven_threads)) (lit "in.json")
                    (Some 5) None home_world).2.
Proof.
  apply (main_trial_run (example_shell [])
           (example_runtime (Loaded seven_threads))
           [lit "in.json"] [lit " 2 "; []] home_world
           (lit "in.json") (lit " 2 ") [[]]);
    by vm_compute.
Defined.

(** Option 3 of the menu. When the line typed is [3], [main] leaves
    what [export_threads] leaves with [max_messages_per_file=100]; if that
    export returned, no row of the index counts more than 100 turns, and
    the file of each row is the document of its thread cut at 100 turns. *)
Theorem main_limited_export (S : shell) (R : runtime)
    (args stdin : list pystr) (w : world) (f line : pystr)
    (stdin1 : list pystr) :
  find_json_file S (head args) stdin w = (Ok (Some f), line :: stdin1) ->
  f <> [] ->
  path_exists f w = true ->
  strip_by (is_space R) line = lit "3" ->
  let w' := (main S R args stdin w).2 in
  w' = (export_threads R f None (Some 100) w).2
  /\ forall folder,
       (export_threads R f None (Some 100) w).1 = Ok (Some folder) ->
       exists data rows,
         load_input R f = Ok (Some data)
         /\ Forall (fun s => (st_messages s <= 100)%nat) rows
         /\ Forall (row_file R (Some 100) folder 1 (threads_of data) w') rows
         /\ files w' !! path_join folder index_name
            = Some (index_header R f (length (threads_of data))
                    ++ concat (map (index_row R) rows)
                    ++ index_footer R folder (totals_of rows)).
Proof.
  intros Hfind Hf Hex Hline. cbv zeta.
  rewrite (main_found _ _ _ _ _ _ _ Hfind Hf Hex), press_enter_world, Hline.
  change (menu_export R (lit "3") f w)
    with (export_threads R f None (Some 100) w).
  split; [done|]. intros folder Hret.
  destruct (export_threads R f None (Some 100) w) as [r w1] eqn:Hrun.
  cbn [fst snd] in *. subst r.
  apply export_threads_index in Hrun
    as (data & rows & Hload & Hrows & Hsorted & Hfiles & Hindex).
  exists data, rows. repeat split; [done | | done..].
  eapply Forall_impl; [exact Hrows|].
  intros s (th & title & msgs & _ & _ & _ & _ & _ & ->).
  cbn [st_messages thread_row]. unfold thread_turns, turns_written, turns_from.
  change (100 =? 0) with false. cbv iota. rewrite length_take.
  change (Z.to_nat (100 - Z.of_nat 0)) with 100%nat. lia.
Qed.

Lemma main_limited_export_witness :
  (main (example_shell [lit "in.json"])
        (example_runtime (Loaded seven_threads))
        [] [lit "3"; []] home_world).2
  = (export_threads (example_runtime (Loaded seven_threads)) (lit "in.json")
                    None (Some 100) home_world).2.
Proof.
  apply (main_limited_export (example_shell [lit "in.json"])
           (example_runtime (Loaded seven_threads))
           [] [lit "3"; []] home_world (lit "in.json") (lit "3") [[]]);
    by vm_compute.
Defined.
